(** * protarrow: protobuf messages <-> Arrow record batches

    A shallow embedding of [protarrow/proto_to_arrow.py] (the array builder)
    and [protarrow/arrow_to_proto.py] (the array extractor), with the parts of
    the protobuf and pyarrow runtimes they call written out as explicit
    definitions.

    Python integers are unbounded, so they are [Z]; [//] and [%] round toward
    minus infinity, as [Z.div] and [Z.modulo] do.  Exceptions are the [Raise]
    case of [Result]; the extractor mutates messages in place, which is a
    state-and-error monad over a store of messages addressed by paths. *)

From Stdlib Require Import ZArith String List Bool Lia Arith.
Import ListNotations.
Local Open Scope string_scope.
Local Open Scope list_scope.
Local Open Scope Z_scope.

Set Implicit Arguments.
Set Warnings "-register-all".

(** ** Exceptions *)

Inductive Exception : Type :=
| TypeError
| ValueError
| KeyError
| AttributeError
| RuntimeError
| IndexError
| AssertionError
| ArrowInvalid.

Inductive Result (A : Type) : Type :=
| Ok (a : A)
| Raise (e : Exception).

Arguments Ok {A} a.
Arguments Raise {A} e.

Definition rbind {A B} (r : Result A) (k : A -> Result B) : Result B :=
  match r with
  | Ok a => k a
  | Raise e => Raise e
  end.

Declare Scope result_scope.
Delimit Scope result_scope with result.
Notation "'let?' x ':=' c 'in' k" := (rbind c (fun x => k))
  (at level 10, x pattern, c at level 100, k at level 200) : result_scope.
Local Open Scope result_scope.

Fixpoint rmapM {A B} (f : A -> Result B) (l : list A) : Result (list B) :=
  match l with
  | [] => Ok []
  | x :: l' =>
      let? y := f x in
      let? ys := rmapM f l' in
      Ok (y :: ys)
  end.

Definition is_ok {A} (r : Result A) : bool :=
  match r with Ok _ => true | Raise _ => false end.

(** ** Python values that cross the codec boundary *)

Inductive PyVal : Type :=
| PyInt (z : Z)
| PyBool (b : bool)
| PyFloat (bits : Z)           (* an IEEE value, kept as an opaque bit pattern *)
| PyStr (s : string)
| PyBytes (s : string)
| PyDate (year month day : Z)  (* datetime.date *)
| PyOther.                     (* lists, dicts and other objects no field accepts *)

Definition PyVal_eqb (a b : PyVal) : bool :=
  match a, b with
  | PyInt x, PyInt y => Z.eqb x y
  | PyBool x, PyBool y => Bool.eqb x y
  | PyFloat x, PyFloat y => Z.eqb x y
  | PyStr x, PyStr y => String.eqb x y
  | PyBytes x, PyBytes y => String.eqb x y
  | PyDate y1 m1 d1, PyDate y2 m2 d2 => Z.eqb y1 y2 && Z.eqb m1 m2 && Z.eqb d1 d2
  | PyOther, PyOther => true
  | _, _ => false
  end.

(** ** Well-known temporal messages and their scalar codecs *)

(** google.type.TimeOfDay *)
Record TimeOfDay : Type := MkTimeOfDay
  { hours : Z; minutes : Z; seconds : Z; nanos : Z }.

(** google.protobuf.Timestamp *)
Record Timestamp : Type := MkTimestamp
  { ts_seconds : Z; ts_nanos : Z }.

(** google.type.Date *)
Record Date : Type := MkDate
  { year : Z; month : Z; day : Z }.

(** proto_to_arrow.py, [_time_of_day_to_nanos]. *)
Definition _time_of_day_to_nanos (time_of_day : TimeOfDay) : Z :=
  ((hours time_of_day * 60 + minutes time_of_day) * 60 + seconds time_of_day)
  * 1000000000 + nanos time_of_day.

(** arrow_to_proto.py, [_time_of_day_scalar_to_proto], on the integer that
    [scalar.as_py()] returns for the prepared (int64, nanosecond) column. *)
Definition _time_of_day_scalar_to_proto (total_nanos : Z) : TimeOfDay :=
  {| nanos := total_nanos mod 1000000000;
     seconds := (total_nanos / 1000000000) mod 60;
     minutes := (total_nanos / 60000000000) mod 60;
     hours := total_nanos / 3600000000000 |}.

(** Arrow time units. *)
Inductive TimeUnit : Type := unit_s | unit_ms | unit_us | unit_ns.

Definition TimeUnit_eqb (a b : TimeUnit) : bool :=
  match a, b with
  | unit_s, unit_s | unit_ms, unit_ms | unit_us, unit_us | unit_ns, unit_ns => true
  | _, _ => false
  end.

(** arrow_to_proto.py, [_TIMESTAMP_CONVERTER]. *)
Definition _TIMESTAMP_CONVERTER (unit : TimeUnit) : Z :=
  match unit with
  | unit_ns => 1
  | unit_us => 1000
  | unit_ms => 1000000
  | unit_s => 1000000000
  end.

(** protobuf runtime, [Timestamp.ToNanoseconds]. *)
Definition ToNanoseconds (x : Timestamp) : Z :=
  ts_seconds x * 1000000000 + ts_nanos x.

(** protobuf runtime, [Timestamp.FromNanoseconds]. *)
Definition FromNanoseconds (value : Z) : Timestamp :=
  {| ts_seconds := value / 1000000000; ts_nanos := value mod 1000000000 |}.

(** arrow_to_proto.py, [_timestamp_scalar_to_proto]: [scalar.value] is the
    stored integer and [scalar.type.unit] the unit of the column. *)
Definition _timestamp_scalar_to_proto (value : Z) (unit : TimeUnit) : Timestamp :=
  FromNanoseconds (value * _TIMESTAMP_CONVERTER unit).

(** ** Descriptors (protobuf runtime) *)

(** [FieldDescriptorProto.Type] *)
Inductive FieldType : Type :=
| TYPE_DOUBLE | TYPE_FLOAT | TYPE_INT64 | TYPE_UINT64 | TYPE_INT32
| TYPE_FIXED64 | TYPE_FIXED32 | TYPE_BOOL | TYPE_STRING | TYPE_GROUP
| TYPE_MESSAGE | TYPE_BYTES | TYPE_UINT32 | TYPE_ENUM | TYPE_SFIXED32
| TYPE_SFIXED64 | TYPE_SINT32 | TYPE_SINT64.

(** [FieldDescriptorProto.Label] *)
Inductive Label : Type := LABEL_OPTIONAL | LABEL_REQUIRED | LABEL_REPEATED.

Definition FieldType_eqb (a b : FieldType) : bool :=
  match a, b with
  | TYPE_DOUBLE, TYPE_DOUBLE | TYPE_FLOAT, TYPE_FLOAT | TYPE_INT64, TYPE_INT64
  | TYPE_UINT64, TYPE_UINT64 | TYPE_INT32, TYPE_INT32 | TYPE_FIXED64, TYPE_FIXED64
  | TYPE_FIXED32, TYPE_FIXED32 | TYPE_BOOL, TYPE_BOOL | TYPE_STRING, TYPE_STRING
  | TYPE_GROUP, TYPE_GROUP | TYPE_MESSAGE, TYPE_MESSAGE | TYPE_BYTES, TYPE_BYTES
  | TYPE_UINT32, TYPE_UINT32 | TYPE_ENUM, TYPE_ENUM | TYPE_SFIXED32, TYPE_SFIXED32
  | TYPE_SFIXED64, TYPE_SFIXED64 | TYPE_SINT32, TYPE_SINT32
  | TYPE_SINT64, TYPE_SINT64 => true
  | _, _ => false
  end.

Definition Label_eqb (a b : Label) : bool :=
  match a, b with
  | LABEL_OPTIONAL, LABEL_OPTIONAL | LABEL_REQUIRED, LABEL_REQUIRED
  | LABEL_REPEATED, LABEL_REPEATED => true
  | _, _ => false
  end.

(** The closed set of message types the codec recognises by descriptor
    identity ([Date.DESCRIPTOR], [Timestamp.DESCRIPTOR], ...). *)
Inductive WellKnown : Type :=
| WK_Date | WK_Timestamp | WK_TimeOfDay
| WK_BoolValue | WK_BytesValue | WK_DoubleValue | WK_FloatValue
| WK_Int32Value | WK_Int64Value | WK_StringValue | WK_UInt32Value
| WK_UInt64Value.

(** An enum descriptor: its values in declaration order, as (name, number). *)
Record EnumDescriptor : Type := MkEnumDescriptor
  { enum_values : list (string * Z) }.

(** A message descriptor.  [well_known] is [Some w] exactly for the descriptor
    object of the well-known type [w]; any other descriptor is a user type.
    [has_presence] is [field.has_presence]: whether the field tracks presence,
    as singular message fields, proto2 singular scalars, proto3 [optional]
    scalars and all members of a oneof do. *)
Inductive Descriptor : Type :=
| MkDescriptor (full_name : string) (well_known : option WellKnown)
    (map_entry : bool) (fields : list FieldDescriptor)
with FieldDescriptor : Type :=
| MkFieldDescriptor (name : string) (type : FieldType) (label : Label)
    (message_type : option Descriptor) (enum_type : option EnumDescriptor)
    (has_presence : bool).

Definition d_full_name (d : Descriptor) : string :=
  match d with MkDescriptor n _ _ _ => n end.
Definition d_well_known (d : Descriptor) : option WellKnown :=
  match d with MkDescriptor _ w _ _ => w end.
Definition d_map_entry (d : Descriptor) : bool :=
  match d with MkDescriptor _ _ m _ => m end.
Definition d_fields (d : Descriptor) : list FieldDescriptor :=
  match d with MkDescriptor _ _ _ fs => fs end.

Definition f_name (f : FieldDescriptor) : string :=
  match f with MkFieldDescriptor n _ _ _ _ _ => n end.
Definition f_type (f : FieldDescriptor) : FieldType :=
  match f with MkFieldDescriptor _ t _ _ _ _ => t end.
Definition f_label (f : FieldDescriptor) : Label :=
  match f with MkFieldDescriptor _ _ l _ _ _ => l end.
Definition f_message_type (f : FieldDescriptor) : option Descriptor :=
  match f with MkFieldDescriptor _ _ _ m _ _ => m end.
Definition f_enum_type (f : FieldDescriptor) : option EnumDescriptor :=
  match f with MkFieldDescriptor _ _ _ _ e _ => e end.
Definition f_has_presence (f : FieldDescriptor) : bool :=
  match f with MkFieldDescriptor _ _ _ _ _ p => p end.

(** [field.message_type and field.message_type.GetOptions().map_entry] *)
Definition is_map_field (f : FieldDescriptor) : bool :=
  match f_message_type f with
  | Some d => d_map_entry d
  | None => false
  end.

(** [descriptor.fields_by_name[name]] *)
Fixpoint fields_by_name (fs : list FieldDescriptor) (name : string)
  : option FieldDescriptor :=
  match fs with
  | [] => None
  | f :: fs' => if String.eqb (f_name f) name then Some f else fields_by_name fs' name
  end.

(** ** Messages (protobuf runtime) *)

(** Python objects handled by the traversals: [None], a scalar, a message, a
    repeated container, or a map container (entries in iteration order).
    A user message holds, per field name, the current value and the presence
    bit that [HasField] reports for a singular sub-message field. *)
Inductive Obj : Type :=
| ONone
| OVal (v : PyVal)
| OMsg (m : Msg)
| OList (items : list Obj)
| OMap (entries : list (PyVal * Obj))
with Msg : Type :=
| MDate (d : Date)
| MTimestamp (t : Timestamp)
| MTimeOfDay (t : TimeOfDay)
| MWrapper (value : PyVal)
| MStruct (fields : list (string * (bool * Obj))).

Definition Slot : Type := (bool * Obj)%type.

Fixpoint assoc {V} (l : list (string * V)) (name : string) : option V :=
  match l with
  | [] => None
  | (k, v) :: l' => if String.eqb k name then Some v else assoc l' name
  end.

(** [getattr(message, name)] *)
Definition getattr (o : Obj) (name : string) : Result Obj :=
  match o with
  | OMsg (MStruct fields) =>
      match assoc fields name with
      | Some (_, v) => Ok v
      | None => Raise AttributeError
      end
  | _ => Raise AttributeError
  end.

(** [message.HasField(name)], asked of singular sub-message fields only. *)
Definition HasField (o : Obj) (name : string) : Result bool :=
  match o with
  | OMsg (MStruct fields) =>
      match assoc fields name with
      | Some (has, OMsg _) => Ok has
      | _ => Raise ValueError
      end
  | _ => Raise AttributeError
  end.

(** ** Arrow types and arrays (pyarrow runtime) *)

Inductive DataType : Type :=
| int32 | int64 | uint32 | uint64 | float32 | float64 | bool_
| binary | string_ | date32
| timestamp (unit : TimeUnit) (tz : string)
| time64 (unit : TimeUnit)
| dictionary (index_type value_type : DataType)
| list_ (value_field : Field)
| map_ (key_type item_type : DataType)
| struct (fields : list Field)
with Field : Type :=
| field (name : string) (type : DataType) (nullable : bool).

Definition field_name (f : Field) : string :=
  match f with field n _ _ => n end.
Definition field_type (f : Field) : DataType :=
  match f with field _ t _ => t end.
Definition field_nullable (f : Field) : bool :=
  match f with field _ _ b => b end.

(** Arrays.  A primitive array holds one slot per row, [None] for a null; a
    timestamp or time64 slot holds the stored integer, a date32 slot the date,
    a binary, string or dictionary slot the bytes or text.  List and map
    arrays hold their [n+1] offsets, the validity of the [n] rows and the
    flattened children; a struct array its fields, one child per field and the
    validity of its rows. *)
Inductive Array : Type :=
| PrimitiveArray (type : DataType) (values : list (option PyVal))
| ListArray (type : DataType) (offsets : list Z) (validity : list bool)
    (values : Array)
| MapArray (offsets : list Z) (validity : list bool) (keys items : Array)
| StructArray (fields : list Field) (children : list Array)
    (validity : list bool).

(** [len(array)] *)
Definition array_len (a : Array) : nat :=
  match a with
  | PrimitiveArray _ values => length values
  | ListArray _ _ validity _ => length validity
  | MapArray _ validity _ _ => length validity
  | StructArray _ _ validity => length validity
  end.

(** [array.type] *)
Fixpoint array_type (a : Array) : DataType :=
  match a with
  | PrimitiveArray type _ => type
  | ListArray type _ _ _ => type
  | MapArray _ _ keys items => map_ (array_type keys) (array_type items)
  | StructArray fields _ _ => struct fields
  end.

Definition in_range (lo hi z : Z) : bool := (lo <=? z) && (z <? hi).

(** Whether [pa.array] accepts the Python value [v] as an element of a
    primitive array of type [t]; integers out of the range of the column
    raise rather than wrap. *)
Fixpoint arrow_accepts (t : DataType) (v : PyVal) : bool :=
  match t, v with
  | int32, PyInt z => in_range (- 2 ^ 31) (2 ^ 31) z
  | int64, PyInt z => in_range (- 2 ^ 63) (2 ^ 63) z
  | uint32, PyInt z => in_range 0 (2 ^ 32) z
  | uint64, PyInt z => in_range 0 (2 ^ 64) z
  | float32, PyFloat _ | float64, PyFloat _ => true
  | bool_, PyBool _ => true
  | binary, PyBytes _ => true
  | string_, PyStr _ => true
  | date32, PyDate _ _ _ => true
  | timestamp _ _, PyInt z => in_range (- 2 ^ 63) (2 ^ 63) z
  | time64 _, PyInt z => in_range (- 2 ^ 63) (2 ^ 63) z
  | dictionary _ value_type, _ => arrow_accepts value_type v
  | _, _ => false
  end.

(** One element handed to [pa.array]: [None] becomes a null. *)
Definition pa_element (t : DataType) (o : Obj) : Result (option PyVal) :=
  match o with
  | ONone => Ok None
  | OVal v => if arrow_accepts t v then Ok (Some v) else Raise ArrowInvalid
  | _ => Raise ArrowInvalid
  end.

(** [pa.array(values, type)] *)
Definition pa_array (values : list Obj) (type : DataType) : Result Array :=
  let? slots := rmapM (pa_element type) values in
  Ok (PrimitiveArray type slots).

(** The offsets argument of [from_arrays] may hold nulls: such a row is null
    and its offset is taken from the next one that is not. *)
Fixpoint clean_offsets (offsets : list (option Z)) : list Z :=
  match offsets with
  | [] => []
  | o :: rest =>
      let rest' := clean_offsets rest in
      match o with
      | Some z => z :: rest'
      | None => hd 0 rest' :: rest'
      end
  end.

Definition offsets_validity (offsets : list (option Z)) : list bool :=
  map (fun o => match o with Some _ => true | None => false end)
      (removelast offsets).

(** The check [from_arrays] ends with ([result.validate()]): the offsets must
    not span more than the children there are. *)
Definition offsets_fit (offsets : list Z) (children : nat) : bool :=
  last offsets 0 - hd 0 offsets <=? Z.of_nat children.

(** [pa.ListArray.from_arrays(offsets, values, type)] *)
Definition ListArray_from_arrays (offsets : list (option Z)) (values : Array)
    (type : DataType) : Result Array :=
  match offsets with
  | [] => Raise ArrowInvalid
  | _ =>
      if offsets_fit (clean_offsets offsets) (array_len values)
      then Ok (ListArray type (clean_offsets offsets) (offsets_validity offsets) values)
      else Raise ArrowInvalid
  end.

(** [pa.MapArray.from_arrays(offsets, keys, items)] *)
Definition MapArray_from_arrays (offsets : list (option Z)) (keys items : Array)
  : Result Array :=
  match offsets with
  | [] => Raise ArrowInvalid
  | _ =>
      if Nat.eqb (array_len keys) (array_len items)
         && offsets_fit (clean_offsets offsets) (array_len keys)
      then Ok (MapArray (clean_offsets offsets) (offsets_validity offsets) keys items)
      else Raise ArrowInvalid
  end.

(** [pa.StructArray.from_arrays(arrays, fields=fields, mask=mask)] with
    [mask = pc.invert(validity)]: the row count is that of the children, which
    must agree with each other and with the mask; with no children at all the
    result is the empty struct array, whatever else was passed. *)
Definition StructArray_from_arrays (arrays : list Array) (fields : list Field)
    (validity : option (list bool)) : Result Array :=
  match arrays with
  | [] => Ok (StructArray [] [] [])
  | first :: _ =>
      let n := array_len first in
      if negb (Nat.eqb (length arrays) (length fields)) then Raise ValueError
      else if negb (forallb (fun a => Nat.eqb (array_len a) n) arrays)
      then Raise ArrowInvalid
      else match validity with
           | None => Ok (StructArray fields arrays (repeat true n))
           | Some v =>
               if Nat.eqb (length v) n then Ok (StructArray fields arrays v)
               else Raise ArrowInvalid
           end
  end.

(** A record batch: its schema and its columns, all of [num_rows] rows. *)
Record RecordBatch : Type := MkRecordBatch
  { schema : list Field; columns : list Array; num_rows : nat }.

(** [pa.RecordBatch.from_struct_array(struct_array)] *)
Definition RecordBatch_from_struct_array (a : Array) : Result RecordBatch :=
  match a with
  | StructArray fields children validity =>
      Ok {| schema := fields; columns := children; num_rows := length validity |}
  | _ => Raise TypeError
  end.

(** ** Configuration *)

(** Modelled from the spec: [protarrow.common.ProtarrowConfig] is not among
    the sources; section 6 of the specification lists its options.  The
    builder reads [config.enum_type] only. *)
Record ProtarrowConfig : Type := MkProtarrowConfig
  { enum_type : DataType;
    timestamp_unit : TimeUnit;
    timestamp_tz : string;
    time_unit : TimeUnit }.

(** The default configuration of section 6. *)
Definition default_config : ProtarrowConfig :=
  {| enum_type := binary; timestamp_unit := unit_ns;
     timestamp_tz := "UTC"; time_unit := unit_ns |}.

(** ** The array builder (proto_to_arrow.py) *)

Definition _PA_TIMESTAMP_TYPE : DataType := timestamp unit_ns "UTC".
Definition _PA_TIME_TYPE : DataType := time64 unit_ns.

(** [_PROTO_DESCRIPTOR_TO_PYARROW] *)
Definition _PROTO_DESCRIPTOR_TO_PYARROW (w : WellKnown) : DataType :=
  match w with
  | WK_Date => date32
  | WK_Timestamp => _PA_TIMESTAMP_TYPE
  | WK_TimeOfDay => _PA_TIME_TYPE
  | WK_BoolValue => bool_
  | WK_BytesValue => binary
  | WK_DoubleValue => float64
  | WK_FloatValue => float32
  | WK_Int32Value => int32
  | WK_Int64Value => int64
  | WK_StringValue => string_
  | WK_UInt32Value => uint32
  | WK_UInt64Value => uint64
  end.

(** [_PROTO_PRIMITIVE_TYPE_TO_PYARROW.get(field.type)] *)
Definition _PROTO_PRIMITIVE_TYPE_TO_PYARROW (t : FieldType) : option DataType :=
  match t with
  | TYPE_DOUBLE => Some float64
  | TYPE_FLOAT => Some float32
  | TYPE_INT64 => Some int64
  | TYPE_UINT64 => Some uint64
  | TYPE_INT32 => Some int32
  | TYPE_FIXED64 => Some uint64
  | TYPE_FIXED32 => Some uint32
  | TYPE_BOOL => Some bool_
  | TYPE_STRING => Some string_
  | TYPE_BYTES => Some binary
  | TYPE_UINT32 => Some uint32
  | TYPE_ENUM => Some binary
  | TYPE_SFIXED32 => Some int32
  | TYPE_SFIXED64 => Some int64
  | TYPE_SINT32 => Some int32
  | TYPE_SINT64 => Some int64
  | TYPE_GROUP | TYPE_MESSAGE => None
  end.

Definition is_leap (y : Z) : bool :=
  (y mod 4 =? 0) && (negb (y mod 100 =? 0) || (y mod 400 =? 0)).

Definition days_in_month (y m : Z) : Z :=
  if m =? 2 then (if is_leap y then 29 else 28)
  else if (m =? 4) || (m =? 6) || (m =? 9) || (m =? 11) then 30
  else 31.

(** [datetime.date(year, month, day)] *)
Definition datetime_date (y m d : Z) : Result PyVal :=
  if in_range 1 10000 y && in_range 1 13 m && in_range 1 (days_in_month y m + 1) d
  then Ok (PyDate y m d)
  else Raise ValueError.

(** [_PROTO_DESCRIPTOR_TO_ARROW_CONVERTER[descriptor]], applied to a record. *)
Definition _PROTO_DESCRIPTOR_TO_ARROW_CONVERTER (w : WellKnown) (x : Obj)
  : Result Obj :=
  match w, x with
  | WK_Date, OMsg (MDate d) =>
      if year d =? 0 then Ok ONone
      else let? date := datetime_date (year d) (month d) (day d) in Ok (OVal date)
  | WK_Timestamp, OMsg (MTimestamp t) => Ok (OVal (PyInt (ToNanoseconds t)))
  | WK_TimeOfDay, OMsg (MTimeOfDay t) => Ok (OVal (PyInt (_time_of_day_to_nanos t)))
  | WK_BoolValue, OMsg (MWrapper v) | WK_BytesValue, OMsg (MWrapper v)
  | WK_DoubleValue, OMsg (MWrapper v) | WK_FloatValue, OMsg (MWrapper v)
  | WK_Int32Value, OMsg (MWrapper v) | WK_Int64Value, OMsg (MWrapper v)
  | WK_StringValue, OMsg (MWrapper v) | WK_UInt32Value, OMsg (MWrapper v)
  | WK_UInt64Value, OMsg (MWrapper v) => Ok (OVal v)
  | _, _ => Raise AttributeError
  end.

(** [FlattenedIterable(parents)] *)
Fixpoint FlattenedIterable (parents : list Obj) : Result (list Obj) :=
  match parents with
  | [] => Ok []
  | parent :: rest =>
      let? children :=
        match parent with
        | OList items => Ok items
        | OMap entries => Ok (map (fun e => OVal (fst e)) entries)
        | _ => Raise TypeError
        end in
      let? others := FlattenedIterable rest in
      Ok (children ++ others)
  end.

(** [NestedIterable(parents, operator.attrgetter(name))] *)
Definition NestedIterable (parents : list Obj) (name : string) : Result (list Obj) :=
  rmapM (fun parent => getattr parent name) parents.

(** [MapKeyIterable(scalar_map)] *)
Fixpoint MapKeyIterable (scalar_map : list Obj) : Result (list Obj) :=
  match scalar_map with
  | [] => Ok []
  | OMap entries :: rest =>
      let? others := MapKeyIterable rest in
      Ok (map (fun e => OVal (fst e)) entries ++ others)
  | _ :: _ => Raise AttributeError
  end.

(** [MapValueIterable(scalar_map)] *)
Fixpoint MapValueIterable (scalar_map : list Obj) : Result (list Obj) :=
  match scalar_map with
  | [] => Ok []
  | OMap entries :: rest =>
      let? others := MapValueIterable rest in
      Ok (map snd entries ++ others)
  | _ :: _ => Raise AttributeError
  end.

(** [enum_descriptor.values_by_number], number to name; of two names for one
    number the first declared is kept. *)
Fixpoint values_by_number (values : list (string * Z)) (number : Z) : option string :=
  match values with
  | [] => None
  | (name, n) :: rest => if n =? number then Some name else values_by_number rest number
  end.

(** [get_enum_converter(data_type, enum_descriptor)] *)
Definition get_enum_converter (data_type : DataType) (enum_descriptor : EnumDescriptor)
  : Result (Obj -> Result Obj) :=
  let by_number (wrap : string -> PyVal) (x : Obj) : Result Obj :=
    match x with
    | OVal (PyInt n) =>
        match values_by_number (enum_values enum_descriptor) n with
        | Some name => Ok (OVal (wrap name))
        | None => Raise KeyError
        end
    | _ => Raise KeyError
    end in
  match data_type with
  | int32 => Ok (fun x => Ok x)
  | binary | dictionary int32 binary => Ok (by_number PyBytes)
  | string_ | dictionary int32 string_ => Ok (by_number PyStr)
  | _ => Raise TypeError
  end.

(** [field.default_value] *)
Definition default_value (type : FieldType) (label : Label)
    (enum_type : option EnumDescriptor) : Obj :=
  match label with
  | LABEL_REPEATED => OList []
  | _ =>
      match type with
      | TYPE_DOUBLE | TYPE_FLOAT => OVal (PyFloat 0)
      | TYPE_BOOL => OVal (PyBool false)
      | TYPE_STRING => OVal (PyStr "")
      | TYPE_BYTES => OVal (PyBytes "")
      | TYPE_MESSAGE | TYPE_GROUP => ONone
      | TYPE_ENUM =>
          match enum_type with
          | Some (MkEnumDescriptor ((_, n) :: _)) => OVal (PyInt n)
          | _ => OVal (PyInt 0)
          end
      | _ => OVal (PyInt 0)
      end
  end.

(** The loop of [_proto_field_to_array]: row [i] holds [null_value] when the
    record is [None] or masked out, and [converter(record)] otherwise. *)
Fixpoint convert_records (i : nat) (records : list Obj)
    (validity_mask : option (list bool)) (converter : Obj -> Result Obj)
    (null_value : Obj) : Result (list Obj) :=
  match records with
  | [] => Ok []
  | record :: rest =>
      let? value :=
        match record with
        | ONone => Ok null_value
        | _ =>
            match validity_mask with
            | None => converter record
            | Some mask =>
                match nth_error mask i with
                | None => Raise IndexError
                | Some true => converter record
                | Some false => Ok null_value
                end
            end
        end in
      let? values := convert_records (S i) rest validity_mask converter null_value in
      Ok (value :: values)
  end.

(** [len(record)] of a repeated or map container *)
Definition py_len (record : Obj) : Result Z :=
  match record with
  | OList items => Ok (Z.of_nat (length items))
  | OMap entries => Ok (Z.of_nat (length entries))
  | _ => Raise TypeError
  end.

Fixpoint _get_offsets_from (last_offset : Z) (records : list Obj)
  : Result (list (option Z)) :=
  match records with
  | [] => Ok [Some last_offset]
  | ONone :: rest =>
      let? offsets := _get_offsets_from last_offset rest in
      Ok (None :: offsets)
  | record :: rest =>
      let? n := py_len record in
      let? offsets := _get_offsets_from (last_offset + n) rest in
      Ok (Some last_offset :: offsets)
  end.

(** [_get_offsets(records)] *)
Definition _get_offsets (records : list Obj) : Result (list (option Z)) :=
  _get_offsets_from 0 records.

(** [_proto_field_nullable(field, is_struct)] *)
Definition _proto_field_nullable (fld : FieldDescriptor) (is_struct : bool) : bool :=
  FieldType_eqb (f_type fld) TYPE_MESSAGE
  || (is_struct && Label_eqb (f_label fld) LABEL_REPEATED).

(** [_proto_field_validity_mask(records, field)] *)
Definition _proto_field_validity_mask (records : list Obj) (fld : FieldDescriptor)
  : Result (option (list bool)) :=
  if negb (FieldType_eqb (f_type fld) TYPE_MESSAGE)
     || Label_eqb (f_label fld) LABEL_REPEATED
  then Ok None
  else
    let? mask :=
      rmapM (fun record =>
               match record with
               | ONone => Ok false
               | _ => HasField record (f_name fld)
               end) records in
    Ok (Some mask).

(** The tail of [_proto_field_to_array], once [pa_type], [converter] and
    [null_value] are known. *)
Definition records_to_array (records : list Obj)
    (validity_mask : option (list bool)) (converter : Obj -> Result Obj)
    (null_value : Obj) (pa_type : DataType) : Result Array :=
  let? array := convert_records 0 records validity_mask converter null_value in
  pa_array array pa_type.

(** [_repeated_proto_to_array(records, field, config)]; [item_to_array] is
    [_proto_field_to_array(_, field, None, config)]. *)
Definition _repeated_proto_to_array (records : list Obj) (fld : FieldDescriptor)
    (item_to_array : list Obj -> Result Array) : Result Array :=
  let? offsets := _get_offsets records in
  let? items := FlattenedIterable records in
  let? array := item_to_array items in
  ListArray_from_arrays offsets array
    (list_ (field "item" (array_type array)
              (FieldType_eqb (f_type fld) TYPE_MESSAGE))).

(** [_proto_map_to_array(records, field, config)]; [key_to_array] and
    [value_to_array] are [_proto_field_to_array] at the [key] and [value]
    fields of the entry type, or the [KeyError] of the lookup. *)
Definition _proto_map_to_array (records : list Obj)
    (key_to_array value_to_array : Result (list Obj -> Result Array))
  : Result Array :=
  let? key_to_array := key_to_array in
  let? value_to_array := value_to_array in
  let? offsets := _get_offsets records in
  let? key_records := MapKeyIterable records in
  let? keys := key_to_array key_records in
  let? value_records := MapValueIterable records in
  let? values := value_to_array value_records in
  MapArray_from_arrays offsets keys values.

(** [mask=pc.invert(pa.array(validity_mask, pa.bool_())) if validity_mask
    else None]: an empty list is as good as no mask. *)
Definition struct_validity (validity_mask : option (list bool))
  : option (list bool) :=
  match validity_mask with
  | Some (b :: m) => Some (b :: m)
  | _ => None
  end.

(** [_message_to_array] and [_proto_field_to_array], by recursion on the
    descriptor tree. *)
Fixpoint _message_to_array (descriptor : Descriptor) (records : list Obj)
    (validity_mask : option (list bool)) (config : ProtarrowConfig)
    {struct descriptor} : Result Array :=
  match descriptor with
  | MkDescriptor _ _ _ descriptor_fields =>
      let? columns :=
        (fix each_field (fs : list FieldDescriptor)
           : Result (list (Field * Array)) :=
           match fs with
           | [] => Ok []
           | fld :: rest =>
               let? field_values := NestedIterable records (f_name fld) in
               let? array :=
                 if is_map_field fld then
                   let entry_field :=
                     fix entry_field (name : string) (es : list FieldDescriptor)
                       : Result (list Obj -> Result Array) :=
                       match es with
                       | [] => Raise KeyError
                       | e :: es' =>
                           if String.eqb (f_name e) name
                           then Ok (fun rs => _proto_field_to_array e rs None config)
                           else entry_field name es'
                       end in
                   match fld with
                   | MkFieldDescriptor _ _ _ (Some (MkDescriptor _ _ _ es)) _ _ =>
                       _proto_map_to_array field_values
                         (entry_field "key" es) (entry_field "value" es)
                   | _ => Raise AttributeError
                   end
                 else if Label_eqb (f_label fld) LABEL_REPEATED then
                   _repeated_proto_to_array field_values fld
                     (fun rs => _proto_field_to_array fld rs None config)
                 else
                   let? mask := _proto_field_validity_mask records fld in
                   _proto_field_to_array fld field_values mask config in
               let? others := each_field rest in
               Ok ((field (f_name fld) (array_type array)
                      (_proto_field_nullable fld true), array) :: others)
           end) descriptor_fields in
      StructArray_from_arrays (map snd columns) (map fst columns)
        (struct_validity validity_mask)
  end
with _proto_field_to_array (fld : FieldDescriptor) (records : list Obj)
    (validity_mask : option (list bool)) (config : ProtarrowConfig)
    {struct fld} : Result Array :=
  match fld with
  | MkFieldDescriptor _ type label message_type enum_descriptor _ =>
      match type with
      | TYPE_MESSAGE =>
          match message_type with
          | None => Raise AttributeError
          | Some d =>
              match d_well_known d with
              | None => _message_to_array d records validity_mask config
              | Some w =>
                  records_to_array records validity_mask
                    (_PROTO_DESCRIPTOR_TO_ARROW_CONVERTER w) ONone
                    (_PROTO_DESCRIPTOR_TO_PYARROW w)
              end
          end
      | TYPE_ENUM =>
          match enum_descriptor with
          | None => Raise AttributeError
          | Some e =>
              let? converter := get_enum_converter (enum_type config) e in
              records_to_array records validity_mask converter
                (default_value type label enum_descriptor) (enum_type config)
          end
      | _ =>
          match _PROTO_PRIMITIVE_TYPE_TO_PYARROW type with
          | None => Raise RuntimeError
          | Some pa_type =>
              records_to_array records validity_mask (fun x => Ok x)
                (default_value type label enum_descriptor) pa_type
          end
      end
  end.

(** [messages_to_record_batch(records, message_type, config)];
    [descriptor] is [message_type.DESCRIPTOR]. *)
Definition messages_to_record_batch (records : list Msg) (descriptor : Descriptor)
    (config : ProtarrowConfig) : Result RecordBatch :=
  let? array := _message_to_array descriptor (map OMsg records) None config in
  RecordBatch_from_struct_array array.

(** ** Mutable messages (protobuf runtime) *)

(** A message object is reached from a root of the store by a path: into a
    singular sub-message field, into the [i]-th element of a repeated message
    field, or into the value of a map entry. *)
Inductive Step : Type :=
| SField (name : string)
| SItem (name : string) (i : nat)
| SEntry (name : string) (key : PyVal).

Definition Path : Type := list Step.

Record Ref : Type := MkRef { ref_root : nat; ref_path : Path }.

(** The store: every message object created so far that is not part of
    another one. *)
Definition Heap : Type := list Msg.

Fixpoint update_assoc {V} (name : string) (f : V -> Result V)
    (l : list (string * V)) : Result (list (string * V)) :=
  match l with
  | [] => Raise AttributeError
  | (k, v) :: l' =>
      if String.eqb k name then
        let? v' := f v in Ok ((k, v') :: l')
      else
        let? l'' := update_assoc name f l' in Ok ((k, v) :: l'')
  end.

Fixpoint update_nth {A} (i : nat) (f : A -> Result A) (l : list A)
  : Result (list A) :=
  match l, i with
  | [], _ => Raise IndexError
  | x :: l', O => let? x' := f x in Ok (x' :: l')
  | x :: l', S i' => let? l'' := update_nth i' f l' in Ok (x :: l'')
  end.

Fixpoint update_entry {V} (key : PyVal) (f : V -> Result V)
    (entries : list (PyVal * V)) : Result (list (PyVal * V)) :=
  match entries with
  | [] => Raise KeyError
  | (k, v) :: rest =>
      if PyVal_eqb k key then
        let? v' := f v in Ok ((k, v') :: rest)
      else
        let? rest' := update_entry key f rest in Ok ((k, v) :: rest')
  end.

Fixpoint lookup_entry {V} (key : PyVal) (entries : list (PyVal * V)) : option V :=
  match entries with
  | [] => None
  | (k, v) :: rest => if PyVal_eqb k key then Some v else lookup_entry key rest
  end.

Definition on_msg (f : Msg -> Result Msg) (o : Obj) : Result Obj :=
  match o with
  | OMsg m => let? m' := f m in Ok (OMsg m')
  | _ => Raise AttributeError
  end.

(** Apply the mutation [f] to the message at path [p] below [m].  Writing
    inside a singular sub-message makes that field present in its parent. *)
Fixpoint modify_at (p : Path) (f : Msg -> Result Msg) (m : Msg) : Result Msg :=
  match p with
  | [] => f m
  | step :: p' =>
      match m with
      | MStruct fields =>
          let? fields' :=
            match step with
            | SField name =>
                update_assoc name
                  (fun slot : Slot =>
                     let? v := on_msg (modify_at p' f) (snd slot) in
                     Ok (true, v)) fields
            | SItem name i =>
                update_assoc name
                  (fun slot : Slot =>
                     match snd slot with
                     | OList items =>
                         let? items' := update_nth i (on_msg (modify_at p' f)) items in
                         Ok (fst slot, OList items')
                     | _ => Raise AttributeError
                     end) fields
            | SEntry name key =>
                update_assoc name
                  (fun slot : Slot =>
                     match snd slot with
                     | OMap entries =>
                         let? entries' :=
                           update_entry key (on_msg (modify_at p' f)) entries in
                         Ok (fst slot, OMap entries')
                     | _ => Raise AttributeError
                     end) fields
            end in
          Ok (MStruct fields')
      | _ => Raise AttributeError
      end
  end.

(** The message at path [p] below [m], if there is one. *)
Fixpoint lookup_at (p : Path) (m : Msg) : option Msg :=
  match p with
  | [] => Some m
  | step :: p' =>
      match m with
      | MStruct fields =>
          match step with
          | SField name =>
              match assoc fields name with
              | Some (_, OMsg sub) => lookup_at p' sub
              | _ => None
              end
          | SItem name i =>
              match assoc fields name with
              | Some (_, OList items) =>
                  match nth_error items i with
                  | Some (OMsg sub) => lookup_at p' sub
                  | _ => None
                  end
              | _ => None
              end
          | SEntry name key =>
              match assoc fields name with
              | Some (_, OMap entries) =>
                  match lookup_entry key entries with
                  | Some (OMsg sub) => lookup_at p' sub
                  | _ => None
                  end
              | _ => None
              end
          end
      | _ => None
      end
  end.

Fixpoint replace_nth {A} (i : nat) (x : A) (l : list A) : list A :=
  match l, i with
  | [], _ => []
  | _ :: l', O => x :: l'
  | y :: l', S i' => y :: replace_nth i' x l'
  end.

(** Computations of the extractor: they read and write the store, or raise. *)
Definition M (A : Type) : Type := Heap -> Result (A * Heap).

Definition mret {A} (a : A) : M A := fun h => Ok (a, h).

Definition mbind {A B} (c : M A) (k : A -> M B) : M B :=
  fun h => match c h with
           | Ok (a, h') => k a h'
           | Raise e => Raise e
           end.

Definition mraise {A} (e : Exception) : M A := fun _ => Raise e.

Definition mlift {A} (r : Result A) : M A :=
  fun h => match r with Ok a => Ok (a, h) | Raise e => Raise e end.

Declare Scope heap_scope.
Delimit Scope heap_scope with heap.
Notation "'do' x '<-' c ';' k" := (mbind c (fun x => k))
  (at level 10, x pattern, c at level 100, k at level 200) : heap_scope.
Notation "c ';;' k" := (mbind c (fun _ => k))
  (at level 100, k at level 200, right associativity) : heap_scope.
Local Open Scope heap_scope.

(** A [for] loop over a list, in order. *)
Fixpoint mfor {A} (l : list A) (body : A -> M unit) : M unit :=
  match l with
  | [] => mret tt
  | x :: l' => body x ;; mfor l' body
  end.

Fixpoint mmapM {A B} (f : A -> M B) (l : list A) : M (list B) :=
  match l with
  | [] => mret []
  | x :: l' =>
      do y <- f x;
      do ys <- mmapM f l';
      mret (y :: ys)
  end.

(** Mutate the message that [r] refers to. *)
Definition heap_modify (r : Ref) (f : Msg -> Result Msg) : M unit :=
  fun h =>
    match nth_error h (ref_root r) with
    | None => Raise IndexError
    | Some m =>
        let? m' := modify_at (ref_path r) f m in
        Ok (tt, replace_nth (ref_root r) m' h)
    end.

(** The message that [r] refers to. *)
Definition heap_lookup (r : Ref) (h : Heap) : option Msg :=
  match nth_error h (ref_root r) with
  | None => None
  | Some m => lookup_at (ref_path r) m
  end.

(** Create a message object of its own. *)
Definition heap_alloc (m : Msg) : M Ref :=
  fun h => Ok (MkRef (length h) [], h ++ [m]).

Definition ref_child (r : Ref) (s : Step) : Ref :=
  MkRef (ref_root r) (ref_path r ++ [s]).

Definition check_int (lo hi : Z) (v : PyVal) : Result PyVal :=
  match v with
  | PyInt z => if in_range lo hi z then Ok v else Raise ValueError
  | _ => Raise TypeError
  end.

(** The type check a scalar field, repeated element or map key or value makes
    on assignment.  A text field takes bytes as their text; a floating-point
    field takes an integer, kept here as given. *)
Definition check_value (type : FieldType) (v : PyVal) : Result PyVal :=
  match type with
  | TYPE_INT32 | TYPE_SINT32 | TYPE_SFIXED32 | TYPE_ENUM =>
      check_int (- 2 ^ 31) (2 ^ 31) v
  | TYPE_INT64 | TYPE_SINT64 | TYPE_SFIXED64 => check_int (- 2 ^ 63) (2 ^ 63) v
  | TYPE_UINT32 | TYPE_FIXED32 => check_int 0 (2 ^ 32) v
  | TYPE_UINT64 | TYPE_FIXED64 => check_int 0 (2 ^ 64) v
  | TYPE_DOUBLE | TYPE_FLOAT =>
      match v with
      | PyFloat _ | PyInt _ => Ok v
      | _ => Raise TypeError
      end
  | TYPE_BOOL => match v with PyBool _ => Ok v | _ => Raise TypeError end
  | TYPE_STRING =>
      match v with
      | PyStr _ => Ok v
      | PyBytes s => Ok (PyStr s)
      | _ => Raise TypeError
      end
  | TYPE_BYTES => match v with PyBytes _ => Ok v | _ => Raise TypeError end
  | TYPE_MESSAGE | TYPE_GROUP => Raise TypeError
  end.

(** The type of the [value] field of a wrapper message. *)
Definition wrapper_value_type (w : WellKnown) : FieldType :=
  match w with
  | WK_BoolValue => TYPE_BOOL
  | WK_BytesValue => TYPE_BYTES
  | WK_DoubleValue => TYPE_DOUBLE
  | WK_FloatValue => TYPE_FLOAT
  | WK_Int32Value => TYPE_INT32
  | WK_Int64Value => TYPE_INT64
  | WK_StringValue => TYPE_STRING
  | WK_UInt32Value => TYPE_UINT32
  | WK_UInt64Value => TYPE_UINT64
  | WK_Date | WK_Timestamp | WK_TimeOfDay => TYPE_MESSAGE
  end.

(** A new instance of a well-known message type. *)
Definition default_well_known (w : WellKnown) : Msg :=
  match w with
  | WK_Date => MDate (MkDate 0 0 0)
  | WK_Timestamp => MTimestamp (MkTimestamp 0 0)
  | WK_TimeOfDay => MTimeOfDay (MkTimeOfDay 0 0 0 0)
  | WK_BoolValue => MWrapper (PyBool false)
  | WK_BytesValue => MWrapper (PyBytes "")
  | WK_DoubleValue | WK_FloatValue => MWrapper (PyFloat 0)
  | WK_StringValue => MWrapper (PyStr "")
  | WK_Int32Value | WK_Int64Value | WK_UInt32Value | WK_UInt64Value =>
      MWrapper (PyInt 0)
  end.

(** [descriptor._concrete_class()]: a new message, every field at its
    default, no sub-message present, every container empty. *)
Fixpoint default_msg (descriptor : Descriptor) : Msg :=
  match descriptor with
  | MkDescriptor _ (Some w) _ _ => default_well_known w
  | MkDescriptor _ None _ descriptor_fields =>
      MStruct
        ((fix each_field (fs : list FieldDescriptor) : list (string * Slot) :=
            match fs with
            | [] => []
            | fld :: rest => (f_name fld, default_slot fld) :: each_field rest
            end) descriptor_fields)
  end
with default_slot (fld : FieldDescriptor) : Slot :=
  match fld with
  | MkFieldDescriptor _ type label message_type enum_descriptor _ =>
      match message_type, label with
      | Some d, LABEL_REPEATED =>
          (false, if d_map_entry d then OMap [] else OList [])
      | Some d, _ =>
          match type with
          | TYPE_MESSAGE => (false, OMsg (default_msg d))
          | _ => (false, ONone)
          end
      | None, _ => (false, default_value type label enum_descriptor)
      end
  end.

(** [setattr(message, name, value)] on a singular scalar field: the value is
    checked and stored, and a field that tracks presence becomes present,
    whatever the value.  For a member of a oneof the runtime also clears the
    other members, which puts them back at their default; this is not
    modelled.  The statements below about what a column does to its own field,
    or about a field that stays at its default, do not depend on it; the
    statement that a whole message is decoded as it was encoded is about
    scalar and enum fields without presence, which are in no oneof. *)
Definition msg_setattr (fld : FieldDescriptor) (value : Obj) (m : Msg) : Result Msg :=
  match m with
  | MStruct fields =>
      let? fields' :=
        update_assoc (f_name fld)
          (fun slot : Slot =>
             match snd slot, value with
             | OVal _, OVal v =>
                 let? v' := check_value (f_type fld) v in
                 Ok (f_has_presence fld || fst slot, OVal v')
             | OVal _, _ => Raise TypeError
             | _, _ => Raise AttributeError
             end) fields in
      Ok (MStruct fields')
  | _ => Raise AttributeError
  end.

(** [wrapper.value = value] *)
Definition msg_set_value (w : WellKnown) (value : Obj) (m : Msg) : Result Msg :=
  match m, value with
  | MWrapper _, OVal v =>
      let? v' := check_value (wrapper_value_type w) v in Ok (MWrapper v')
  | MWrapper _, _ => Raise TypeError
  | _, _ => Raise AttributeError
  end.

(** Whether [m] is an instance of the message type [d]. *)
Definition msg_is_instance (d : Descriptor) (m : Msg) : bool :=
  match d_well_known d, m with
  | None, MStruct _ => true
  | Some WK_Date, MDate _ => true
  | Some WK_Timestamp, MTimestamp _ => true
  | Some WK_TimeOfDay, MTimeOfDay _ => true
  | Some w, MWrapper _ =>
      match w with
      | WK_Date | WK_Timestamp | WK_TimeOfDay => false
      | _ => true
      end
  | _, _ => false
  end.

(** [getattr(message, name).append(value)]: a repeated scalar field checks
    the value, a repeated message field takes a copy of a message of its
    element type; [None] is refused by both. *)
Definition msg_append (fld : FieldDescriptor) (value : Obj) (m : Msg) : Result Msg :=
  match m with
  | MStruct fields =>
      let? fields' :=
        update_assoc (f_name fld)
          (fun slot : Slot =>
             match snd slot with
             | OList items =>
                 match f_message_type fld, value with
                 | Some d, OMsg x =>
                     if msg_is_instance d x
                     then Ok (fst slot, OList (items ++ [OMsg x]))
                     else Raise TypeError
                 | Some _, _ => Raise TypeError
                 | None, OVal v =>
                     let? v' := check_value (f_type fld) v in
                     Ok (fst slot, OList (items ++ [OVal v']))
                 | None, _ => Raise TypeError
                 end
             | _ => Raise AttributeError
             end) fields in
      Ok (MStruct fields')
  | _ => Raise AttributeError
  end.

(** Put [key -> v] in a map container: an existing key keeps its place. *)
Fixpoint set_entry {V} (key : PyVal) (v : V) (entries : list (PyVal * V))
  : list (PyVal * V) :=
  match entries with
  | [] => [(key, v)]
  | (k, x) :: rest =>
      if PyVal_eqb k key then (k, v) :: rest else (k, x) :: set_entry key v rest
  end.

(** The key of a map access, checked against the key type. *)
Definition check_key (key_type : FieldType) (key : Obj) : Result PyVal :=
  match key with
  | OVal k => check_value key_type k
  | _ => Raise TypeError
  end.

(** [getattr(message, name)[key] = value] on a map with scalar values. *)
Definition msg_map_setitem (name : string) (key_type value_type : FieldType)
    (key value : Obj) (m : Msg) : Result Msg :=
  match m with
  | MStruct fields =>
      let? fields' :=
        update_assoc name
          (fun slot : Slot =>
             match snd slot with
             | OMap entries =>
                 let? k := check_key key_type key in
                 match value with
                 | OVal v =>
                     let? v' := check_value value_type v in
                     Ok (fst slot, OMap (set_entry k (OVal v') entries))
                 | _ => Raise TypeError
                 end
             | _ => Raise AttributeError
             end) fields in
      Ok (MStruct fields')
  | _ => Raise AttributeError
  end.

(** The entry that [getattr(message, name)[key]] creates in a map with
    message values when the key is new. *)
Definition msg_map_create (name : string) (k : PyVal) (default : Msg) (m : Msg)
  : Result Msg :=
  match m with
  | MStruct fields =>
      let? fields' :=
        update_assoc name
          (fun slot : Slot =>
             match snd slot with
             | OMap entries =>
                 match lookup_entry k entries with
                 | Some _ => Ok slot
                 | None => Ok (fst slot, OMap (entries ++ [(k, OMsg default)]))
                 end
             | _ => Raise AttributeError
             end) fields in
      Ok (MStruct fields')
  | _ => Raise AttributeError
  end.

(** [getattr(message, name)[key]] on a map with message values: the entry is
    looked up and, when missing, created with a default message; the result
    refers to the message in the map.  Reading an entry that exists writes
    nothing. *)
Definition map_getitem (message : Ref) (name : string) (key_type : FieldType)
    (default : Msg) (key : Obj) : M Ref :=
  do k <- mlift (check_key key_type key);
  let entry := ref_child message (SEntry name k) in
  fun h =>
    match heap_lookup entry h with
    | Some _ => Ok (entry, h)
    | None =>
        match heap_modify message (msg_map_create name k default) h with
        | Ok (_, h') => Ok (entry, h')
        | Raise e => Raise e
        end
    end.

Definition merge_scalar (src dst : Z) : Z := if src =? 0 then dst else src.

(** [dst.MergeFrom(src)] for the temporal messages the decoders create: the
    fields [src] has set overwrite those of [dst]. *)
Definition MergeFrom (src : Obj) (dst : Msg) : Result Msg :=
  match dst, src with
  | MDate d, OMsg (MDate s) =>
      Ok (MDate {| year := merge_scalar (year s) (year d);
                   month := merge_scalar (month s) (month d);
                   day := merge_scalar (day s) (day d) |})
  | MTimestamp d, OMsg (MTimestamp s) =>
      Ok (MTimestamp {| ts_seconds := merge_scalar (ts_seconds s) (ts_seconds d);
                        ts_nanos := merge_scalar (ts_nanos s) (ts_nanos d) |})
  | MTimeOfDay d, OMsg (MTimeOfDay s) =>
      Ok (MTimeOfDay {| hours := merge_scalar (hours s) (hours d);
                        minutes := merge_scalar (minutes s) (minutes d);
                        seconds := merge_scalar (seconds s) (seconds d);
                        nanos := merge_scalar (nanos s) (nanos d) |})
  | _, _ => Raise TypeError
  end.

(** ** The array extractor (arrow_to_proto.py) *)

(** An element of an array, as iteration yields it. *)
Record Scalar : Type := MkScalar { sc_type : DataType; sc_value : option PyVal }.

(** [scalar.is_valid] *)
Definition is_valid (scalar : Scalar) : bool :=
  match sc_value scalar with Some _ => true | None => false end.

(** [scalar.as_py()]: [None] for a null; a timestamp comes back as a
    [datetime], which no field of the codec accepts. *)
Definition as_py (scalar : Scalar) : Obj :=
  match sc_value scalar with
  | None => ONone
  | Some v =>
      match sc_type scalar with
      | timestamp _ _ => OVal PyOther
      | _ => OVal v
      end
  end.

(** [array.is_valid()] *)
Definition array_is_valid (a : Array) : list bool :=
  match a with
  | PrimitiveArray _ values =>
      map (fun v => match v with Some _ => true | None => false end) values
  | ListArray _ _ validity _ => validity
  | MapArray _ validity _ _ => validity
  | StructArray _ _ validity => validity
  end.

(** The elements of an array, in order; a row of a nested array is a scalar
    whose Python value is a list or a dict. *)
Definition array_scalars (a : Array) : list Scalar :=
  match a with
  | PrimitiveArray type values => map (MkScalar type) values
  | _ =>
      map (fun valid : bool =>
             MkScalar (array_type a) (if valid then Some PyOther else None))
          (array_is_valid a)
  end.

Definition wrap64 (z : Z) : Z := (z + 2 ^ 63) mod 2 ^ 64 - 2 ^ 63.

(** [_TIME_CONVERTER[array.type]] *)
Definition _TIME_CONVERTER (unit : TimeUnit) : Result Z :=
  match unit with
  | unit_ns => Ok 1
  | unit_us => Ok 1000
  | _ => Raise KeyError
  end.

(** [_prepare_array(array)]: a time64 column becomes an int64 column of
    nanoseconds; the multiplication is the unchecked one. *)
Definition _prepare_array (array : Array) : Result Array :=
  match array with
  | PrimitiveArray (time64 unit) values =>
      let? ratio := _TIME_CONVERTER unit in
      Ok (PrimitiveArray int64
            (map (fun slot =>
                    match slot with
                    | Some (PyInt z) => Some (PyInt (wrap64 (z * ratio)))
                    | other => other
                    end) values))
  | _ => Ok array
  end.

(** [_date_scalar_to_proto(scalar)] *)
Definition _date_scalar_to_proto (scalar : Scalar) : Result Obj :=
  match as_py scalar with
  | OVal (PyDate y m d) => Ok (OMsg (MDate (MkDate y m d)))
  | _ => Raise AttributeError
  end.

(** [_timestamp_scalar_to_proto(scalar)], on the scalar itself. *)
Definition timestamp_scalar_to_proto (scalar : Scalar) : Result Obj :=
  match sc_type scalar, sc_value scalar with
  | timestamp unit _, Some (PyInt value) =>
      Ok (OMsg (MTimestamp (_timestamp_scalar_to_proto value unit)))
  | timestamp _ _, _ => Raise TypeError
  | _, _ => Raise AttributeError
  end.

(** [_time_of_day_scalar_to_proto(scalar)], on the scalar itself; the
    [TimeOfDay] constructor refuses a field beyond 32 bits. *)
Definition time_of_day_scalar_to_proto (scalar : Scalar) : Result Obj :=
  match as_py scalar with
  | OVal (PyInt total_nanos) =>
      let t := _time_of_day_scalar_to_proto total_nanos in
      if in_range (- 2 ^ 31) (2 ^ 31) (hours t) then Ok (OMsg (MTimeOfDay t))
      else Raise ValueError
  | _ => Raise TypeError
  end.

(** [SPECIAL_TYPES.get(descriptor)] *)
Definition SPECIAL_TYPES (w : WellKnown) : option (Scalar -> Result Obj) :=
  match w with
  | WK_Timestamp => Some timestamp_scalar_to_proto
  | WK_Date => Some _date_scalar_to_proto
  | WK_TimeOfDay => Some time_of_day_scalar_to_proto
  | _ => None
  end.

(** [descriptor in NULLABLE_TYPES] *)
Definition NULLABLE_TYPES (w : WellKnown) : bool :=
  match w with
  | WK_BoolValue | WK_BytesValue | WK_DoubleValue | WK_FloatValue
  | WK_Int32Value | WK_Int64Value | WK_StringValue | WK_UInt32Value
  | WK_UInt64Value => true
  | WK_Date | WK_Timestamp | WK_TimeOfDay => false
  end.

(** [field_descriptor.message_type in SPECIAL_TYPES], with the extractor. *)
Definition special_type (fld : FieldDescriptor) : option (Scalar -> Result Obj) :=
  match f_message_type fld with
  | Some d =>
      match d_well_known d with
      | Some w => SPECIAL_TYPES w
      | None => None
      end
  | None => None
  end.

(** [field_descriptor.message_type in NULLABLE_TYPES], with the wrapper. *)
Definition nullable_type (fld : FieldDescriptor) : option WellKnown :=
  match f_message_type fld with
  | Some d =>
      match d_well_known d with
      | Some w => if NULLABLE_TYPES w then Some w else None
      | None => None
      end
  | None => None
  end.

Definition is_some {A} (o : option A) : bool :=
  match o with Some _ => true | None => false end.

(** [is_custom_field(field_descriptor)] *)
Definition is_custom_field (fld : FieldDescriptor) : bool :=
  FieldType_eqb (f_type fld) TYPE_MESSAGE
  && negb (is_some (special_type fld))
  && negb (is_some (nullable_type fld)).

(** [OffsetToSize(array)] *)
Fixpoint sizes_from (current_offset : Z) (rest : list Z) : list Z :=
  match rest with
  | [] => []
  | offset :: rest' => (offset - current_offset) :: sizes_from offset rest'
  end.

Definition OffsetToSize (offsets : list Z) : Result (list Z) :=
  match offsets with
  | [] => Raise IndexError
  | first :: rest => Ok (sizes_from first rest)
  end.

(** [array.offsets] *)
Definition array_offsets (a : Array) : Result (list Z) :=
  match a with
  | ListArray _ offsets _ _ => Ok offsets
  | MapArray offsets _ _ _ => Ok offsets
  | _ => Raise AttributeError
  end.

(** [array.values]: the children of a list array, the entries of a map
    array as a struct of keys and items. *)
Definition array_values (a : Array) : Result Array :=
  match a with
  | ListArray _ _ _ values => Ok values
  | MapArray _ _ keys items =>
      Ok (StructArray
            [field "key" (array_type keys) false;
             field "value" (array_type items) true]
            [keys; items] (repeat true (array_len keys)))
  | _ => Raise AttributeError
  end.

(** [array.keys] of a map array *)
Definition array_keys (a : Array) : Result Array :=
  match a with
  | MapArray _ _ keys _ => Ok keys
  | _ => Raise AttributeError
  end.

(** [array.field(index)] of a struct array *)
Definition array_field (a : Array) (index : nat) : Result Array :=
  match a with
  | StructArray _ children _ =>
      match nth_error children index with
      | Some child => Ok child
      | None => Raise IndexError
      end
  | _ => Raise AttributeError
  end.

(** [struct_type.get_field_index(name)], [None] for the -1 of a miss. *)
Fixpoint get_field_index (fields : list Field) (name : string) : option nat :=
  match fields with
  | [] => None
  | f :: rest =>
      if String.eqb (field_name f) name then Some O
      else match get_field_index rest name with
           | Some i => Some (S i)
           | None => None
           end
  end.

(** [convert_scalar] *)
Definition convert_scalar (scalar : Scalar) : Result Obj := Ok (as_py scalar).

(** [enum_descriptor.values_by_name.get(name)]: the number of the value. *)
Fixpoint values_by_name (values : list (string * Z)) (name : string) : option Z :=
  match values with
  | [] => None
  | (n, number) :: rest =>
      if String.eqb n name then Some number else values_by_name rest name
  end.

(** [convert_enum] of [get_converter]: the lookup is by name, text or bytes;
    anything else, an integer included, finds nothing. *)
Definition convert_enum (enum_descriptor : EnumDescriptor) (scalar : Scalar)
  : Result Obj :=
  match as_py scalar with
  | OVal (PyStr name) | OVal (PyBytes name) =>
      match values_by_name (enum_values enum_descriptor) name with
      | Some number => Ok (OVal (PyInt number))
      | None => Ok ONone
      end
  | _ => Ok ONone
  end.

(** [get_converter(field_descriptor)] *)
Definition get_converter (fld : FieldDescriptor)
  : Result (Scalar -> Result Obj) :=
  match f_type fld with
  | TYPE_ENUM =>
      match f_enum_type fld with
      | Some e => Ok (convert_enum e)
      | None => Ok (fun _ => Raise AttributeError)
      end
  | TYPE_MESSAGE =>
      if is_some (nullable_type fld) then Ok convert_scalar
      else match special_type fld with
           | Some extractor => Ok extractor
           | None => Raise KeyError
           end
  | _ => Ok convert_scalar
  end.

(** The iterables of messages the extractor passes down: a list of message
    objects, the sub-messages of a singular field (a throw-away message where
    the row is null), or the elements of a repeated message field. *)
Inductive MsgIter : Type :=
| Messages (refs : list Ref)
| OptionalNestedIterable (parents : MsgIter) (field_descriptor : FieldDescriptor)
    (validity_mask : list bool)
| RepeatedNestedIterable (parents : MsgIter) (field_descriptor : FieldDescriptor).

(** [len(getattr(message, name))] of a repeated field *)
Definition heap_len (message : Ref) (name : string) (h : Heap) : Result nat :=
  match heap_lookup message h with
  | Some (MStruct fields) =>
      match assoc fields name with
      | Some (_, OList items) => Ok (length items)
      | _ => Raise AttributeError
      end
  | _ => Raise AttributeError
  end.

(** One pass over an iterable: the message objects it yields, in order.
    Each pass over an [OptionalNestedIterable] creates its own throw-away
    message. *)
Fixpoint iterate (it : MsgIter) : M (list Ref) :=
  match it with
  | Messages refs => mret refs
  | OptionalNestedIterable parents fld validity_mask =>
      match f_message_type fld with
      | None => mraise AttributeError
      | Some d =>
          do fake_message <- heap_alloc (default_msg d);
          do refs <- iterate parents;
          mret (map (fun pv : Ref * bool =>
                       if snd pv then ref_child (fst pv) (SField (f_name fld))
                       else fake_message)
                    (combine refs validity_mask))
      end
  | RepeatedNestedIterable parents fld =>
      do refs <- iterate parents;
      do children <-
        mmapM (fun parent : Ref =>
                 fun h =>
                   match heap_len parent (f_name fld) h with
                   | Ok n =>
                       Ok (map (fun i => ref_child parent (SItem (f_name fld) i))
                             (seq 0 n), h)
                   | Raise e => Raise e
                   end) refs;
      mret (concat children)
  end.

(** [PlainAssigner.__call__(scalar)] with [self.message = message] *)
Definition PlainAssigner_call (fld : FieldDescriptor)
    (converter : Scalar -> Result Obj) (message : Ref) (scalar : Scalar) : M unit :=
  if is_valid scalar then
    do value <- mlift (converter scalar);
    match value with
    | ONone => mret tt
    | _ =>
        match nullable_type fld with
        | Some w =>
            heap_modify (ref_child message (SField (f_name fld)))
              (msg_set_value w value)
        | None => heap_modify message (msg_setattr fld value)
        end
    end
  else mret tt.

(** The assigners that [AppendAssigner], [MapKeyAssigner] and
    [MapItemAssigner] yield: message [i], [sizes[i]] times over. *)
Fixpoint repeat_refs (refs : list Ref) (sizes : list Z) : list Ref :=
  match refs, sizes with
  | r :: refs', size :: sizes' => repeat r (Z.to_nat size) ++ repeat_refs refs' sizes'
  | _, _ => []
  end.

(** [zip(self.messages, self.sizes)] asks for a size only after it got a
    message. *)
Definition assigner_targets (refs : list Ref) (offsets : list Z)
  : Result (list Ref) :=
  match refs with
  | [] => Ok []
  | _ =>
      let? sizes := OffsetToSize offsets in
      Ok (repeat_refs refs sizes)
  end.

(** [_extract_repeated_primitive_assigner(array, field_descriptor, messages)] *)
Definition _extract_repeated_primitive_assigner (array : Array)
    (fld : FieldDescriptor) (messages : MsgIter) : M unit :=
  do offsets <- mlift (array_offsets array);
  do converter <- mlift (get_converter fld);
  do values <- mlift (array_values array);
  do values <- mlift (_prepare_array values);
  do refs <- iterate messages;
  do targets <- mlift (assigner_targets refs offsets);
  mfor (combine targets (array_scalars values))
    (fun tv : Ref * Scalar =>
       do value <- mlift (converter (snd tv));
       heap_modify (fst tv) (msg_append fld value)).

(** [_extract_repeated_message(array, field_descriptor, messages)];
    [extract_children] is [_extract_array_messages] at the element type. *)
Definition _extract_repeated_message (array : Array) (fld : FieldDescriptor)
    (messages : MsgIter) (extract_children : Array -> MsgIter -> M unit) : M unit :=
  match array, f_message_type fld with
  | ListArray _ offsets _ values, Some d =>
      let child := OMsg (default_msg d) in
      do refs <- iterate messages;
      do targets <- mlift (assigner_targets refs offsets);
      mfor (combine targets (array_scalars values))
        (fun tv : Ref * Scalar => heap_modify (fst tv) (msg_append fld child)) ;;
      extract_children values (RepeatedNestedIterable messages fld)
  | ListArray _ _ _ _, None => mraise AttributeError
  | _, _ => mraise AssertionError
  end.

(** [_extract_map_field(array, field_descriptor, messages)]; [key_type] and
    [value_type] are the [key] and [value] fields of the entry type, and
    [extract_values] is the loop over the fields of the value message, which
    is that of [_extract_array_messages]. *)
Definition _extract_map_field (array : Array) (fld : FieldDescriptor)
    (messages : MsgIter) (key_type value_type : Result FieldDescriptor)
    (extract_values : Array -> MsgIter -> M unit) : M unit :=
  match array with
  | MapArray offsets _ keys items =>
      do value_type <- mlift value_type;
      if is_custom_field value_type then
        do key_type <- mlift key_type;
        do converter <- mlift (get_converter key_type);
        do refs <- iterate messages;
        do targets <- mlift (assigner_targets refs offsets);
        do values <-
          mmapM (fun tk : Ref * Scalar =>
                   do key <- mlift (converter (snd tk));
                   match f_message_type value_type with
                   | Some vd =>
                       map_getitem (fst tk) (f_name fld) (f_type key_type)
                         (default_msg vd) key
                   | None => mraise AttributeError
                   end)
                (combine targets (array_scalars keys));
        extract_values items (Messages values)
      else
        do key_type <- mlift key_type;
        do key_converter <- mlift (get_converter key_type);
        do value_converter <- mlift (get_converter value_type);
        do items <- mlift (_prepare_array items);
        do refs <- iterate messages;
        do targets <- mlift (assigner_targets refs offsets);
        mfor (combine targets (combine (array_scalars keys) (array_scalars items)))
          (fun tkv : Ref * (Scalar * Scalar) =>
             let attribute := fst tkv in
             let key := fst (snd tkv) in
             let value := snd (snd tkv) in
             do k <- mlift (key_converter key);
             do v <- (if is_valid value then mlift (value_converter value)
                      else mret ONone);
             if FieldType_eqb (f_type value_type) TYPE_MESSAGE then
               (* _merge_assign *)
               match f_message_type value_type with
               | Some vd =>
                   do entry <- map_getitem attribute (f_name fld)
                                 (f_type key_type) (default_msg vd) k;
                   match v with
                   | ONone => mret tt
                   | _ => heap_modify entry (MergeFrom v)
                   end
               | None => mraise AttributeError
               end
             else
               (* _direct_assign *)
               heap_modify attribute
                 (msg_map_setitem (f_name fld) (f_type key_type)
                    (f_type value_type) k v))
  | _ => mraise AssertionError
  end.

(** [_extract_struct_field(array, field_descriptor, messages)];
    [extract_children] is [_extract_array_messages] at the field's type. *)
Definition _extract_struct_field (array : Array) (fld : FieldDescriptor)
    (messages : MsgIter) (extract_children : Array -> MsgIter -> M unit) : M unit :=
  let nested_list := OptionalNestedIterable messages fld (array_is_valid array) in
  extract_children array nested_list.

(** The special-type branch of [_extract_field]. *)
Definition extract_special (array : Array) (fld : FieldDescriptor)
    (messages : MsgIter) (extractor : Scalar -> Result Obj) : M unit :=
  do refs <- iterate messages;
  mfor (combine refs (array_scalars array))
    (fun mv : Ref * Scalar =>
       if is_valid (snd mv) then
         do value <- mlift (extractor (snd mv));
         heap_modify (ref_child (fst mv) (SField (f_name fld))) (MergeFrom value)
       else mret tt).

(** The last branch of [_extract_field]: a [PlainAssigner] over the rows. *)
Definition extract_plain (array : Array) (fld : FieldDescriptor)
    (messages : MsgIter) : M unit :=
  do converter <- mlift (get_converter fld);
  do refs <- iterate messages;
  mfor (combine refs (array_scalars array))
    (fun mv : Ref * Scalar =>
       if is_valid (snd mv) then PlainAssigner_call fld converter (fst mv) (snd mv)
       else mret tt).

(** [_extract_array_messages] and [_extract_field] (with
    [_extract_repeated_field] inlined), by recursion on the descriptor tree. *)
Fixpoint _extract_array_messages (message_descriptor : Descriptor)
    (array : Array) (messages : MsgIter) {struct message_descriptor} : M unit :=
  match message_descriptor with
  | MkDescriptor _ _ _ descriptor_fields =>
      match array with
      | StructArray struct_fields _ _ =>
          (fix each_field (fs : list FieldDescriptor) : M unit :=
             match fs with
             | [] => mret tt
             | fld :: rest =>
                 match get_field_index struct_fields (f_name fld) with
                 | Some index =>
                     do child <- mlift (array_field array index);
                     _extract_field fld child messages
                 | None => mret tt
                 end ;;
                 each_field rest
             end) descriptor_fields
      | _ => mraise AssertionError
      end
  end
with _extract_field (fld : FieldDescriptor) (array : Array) (messages : MsgIter)
    {struct fld} : M unit :=
  match fld with
  | MkFieldDescriptor _ type label message_type _ _ =>
      let extract_children : Array -> MsgIter -> M unit :=
        match message_type with
        | Some d => _extract_array_messages d
        | None => fun _ _ => mraise AttributeError
        end in
      do array <- mlift (_prepare_array array);
      if Label_eqb label LABEL_REPEATED then
        (* _extract_repeated_field *)
        if is_custom_field fld then
          if is_map_field fld then
            match message_type with
            | Some (MkDescriptor _ _ _ es) =>
                _extract_map_field array fld messages
                  (match fields_by_name es "key" with
                   | Some k => Ok k
                   | None => Raise KeyError
                   end)
                  (match fields_by_name es "value" with
                   | Some v => Ok v
                   | None => Raise KeyError
                   end)
                  ((fix value_children (es : list FieldDescriptor)
                      : Array -> MsgIter -> M unit :=
                      match es with
                      | [] => fun _ _ => mraise KeyError
                      | e :: es' =>
                          if String.eqb (f_name e) "value" then
                            match e with
                            | MkFieldDescriptor _ _ _ (Some vd) _ _ =>
                                _extract_array_messages vd
                            | _ => fun _ _ => mraise AttributeError
                            end
                          else value_children es'
                      end) es)
            | None => mraise AttributeError
            end
          else _extract_repeated_message array fld messages extract_children
        else _extract_repeated_primitive_assigner array fld messages
      else
        match special_type fld with
        | Some extractor => extract_special array fld messages extractor
        | None =>
            if FieldType_eqb type TYPE_MESSAGE && negb (is_some (nullable_type fld))
            then _extract_struct_field array fld messages extract_children
            else extract_plain array fld messages
        end
  end.

(** [record_batch[name]] *)
Definition record_batch_column (record_batch : RecordBatch) (name : string)
  : Result Array :=
  match get_field_index (schema record_batch) name with
  | Some index =>
      match nth_error (columns record_batch) index with
      | Some column => Ok column
      | None => Raise KeyError
      end
  | None => Raise KeyError
  end.

(** [_extract_record_batch_messages(record_batch, message_descriptor, messages)] *)
Definition _extract_record_batch_messages (record_batch : RecordBatch)
    (message_descriptor : Descriptor) (messages : MsgIter) : M unit :=
  mfor (d_fields message_descriptor)
    (fun fld =>
       if is_some (get_field_index (schema record_batch) (f_name fld)) then
         do column <- mlift (record_batch_column record_batch (f_name fld));
         _extract_field fld column messages
       else mret tt).

(** [record_batch_to_messages(record_batch, message_type)]: the messages are
    the first [num_rows] objects of the store. *)
Definition record_batch_to_messages (record_batch : RecordBatch)
    (message_type : Descriptor) : Result (list Msg) :=
  let n := num_rows record_batch in
  let messages := repeat (default_msg message_type) n in
  let refs := map (fun i => MkRef i []) (seq 0 n) in
  match _extract_record_batch_messages record_batch message_type (Messages refs)
          messages with
  | Ok (_, h) => Ok (firstn n h)
  | Raise e => Raise e
  end.

(** ** Derived forms used in the statements *)

(** [_proto_field_to_array] at the field [name] of a map entry type, or the
    [KeyError] of [fields_by_name[name]]. *)
Definition entry_to_array (entry : Descriptor) (name : string)
    (config : ProtarrowConfig) : Result (list Obj -> Result Array) :=
  match fields_by_name (d_fields entry) name with
  | Some e => Ok (fun rs => _proto_field_to_array e rs None config)
  | None => Raise KeyError
  end.

(** The body of the loop of [_message_to_array]: the array of one field. *)
Definition field_to_array (fld : FieldDescriptor) (records : list Obj)
    (config : ProtarrowConfig) : Result Array :=
  let? field_values := NestedIterable records (f_name fld) in
  if is_map_field fld then
    match f_message_type fld with
    | Some entry =>
        _proto_map_to_array field_values
          (entry_to_array entry "key" config) (entry_to_array entry "value" config)
    | None => Raise AttributeError
    end
  else if Label_eqb (f_label fld) LABEL_REPEATED then
    _repeated_proto_to_array field_values fld
      (fun rs => _proto_field_to_array fld rs None config)
  else
    let? mask := _proto_field_validity_mask records fld in
    _proto_field_to_array fld field_values mask config.

(** The field of the struct type and the array, for one field. *)
Definition field_to_column (records : list Obj) (config : ProtarrowConfig)
    (fld : FieldDescriptor) : Result (Field * Array) :=
  let? array := field_to_array fld records config in
  Ok (field (f_name fld) (array_type array) (_proto_field_nullable fld true), array).

(** ** Message types and messages used as concrete inputs *)

Definition scalar_field (name : string) (type : FieldType) : FieldDescriptor :=
  MkFieldDescriptor name type LABEL_OPTIONAL None None false.

Definition repeated_scalar_field (name : string) (type : FieldType) : FieldDescriptor :=
  MkFieldDescriptor name type LABEL_REPEATED None None false.

Definition message_field (name : string) (d : Descriptor) : FieldDescriptor :=
  MkFieldDescriptor name TYPE_MESSAGE LABEL_OPTIONAL (Some d) None true.

Definition repeated_message_field (name : string) (d : Descriptor) : FieldDescriptor :=
  MkFieldDescriptor name TYPE_MESSAGE LABEL_REPEATED (Some d) None false.

Definition enum_field (name : string) (label : Label) (e : EnumDescriptor)
  : FieldDescriptor :=
  MkFieldDescriptor name TYPE_ENUM label None (Some e) false.

Definition Timestamp_DESCRIPTOR : Descriptor :=
  MkDescriptor "google.protobuf.Timestamp" (Some WK_Timestamp) false
    [scalar_field "seconds" TYPE_INT64; scalar_field "nanos" TYPE_INT32].

Definition Int32Value_DESCRIPTOR : Descriptor :=
  MkDescriptor "google.protobuf.Int32Value" (Some WK_Int32Value) false
    [scalar_field "value" TYPE_INT32].



(** [message WithRepeated { repeated int32 repeated_int32 = 1; }] *)
Definition WithRepeated : Descriptor :=
  MkDescriptor "WithRepeated" None false
    [repeated_scalar_field "repeated_int32" TYPE_INT32].

(** The nullability of the column of a field, as the builder stamps it. *)
Definition column_nullable (fld : FieldDescriptor) : bool :=
  FieldType_eqb (f_type fld) TYPE_MESSAGE || Label_eqb (f_label fld) LABEL_REPEATED.

(** The offsets of a list or map column of [n] rows over [children] child
    slots, as section 8 wants them: [n+1] of them, starting at 0, never
    decreasing, ending at the number of children. *)
Definition offsets_well_formed (offsets : list Z) (n children : nat) : Prop :=
  length offsets = S n
  /\ nth 0 offsets 0 = 0
  /\ (forall i, (i < n)%nat -> nth i offsets 0 <= nth (S i) offsets 0)
  /\ nth n offsets 0 = Z.of_nat children.

(** Every list and map array inside [a], at any depth, has well-formed
    offsets. *)
Fixpoint all_offsets_well_formed (a : Array) : Prop :=
  match a with
  | PrimitiveArray _ _ => True
  | ListArray _ offsets validity values =>
      offsets_well_formed offsets (length validity) (array_len values)
      /\ all_offsets_well_formed values
  | MapArray offsets validity keys items =>
      offsets_well_formed offsets (length validity) (array_len keys)
      /\ array_len items = array_len keys
      /\ all_offsets_well_formed keys
      /\ all_offsets_well_formed items
  | StructArray _ children _ =>
      (fix each (cs : list Array) : Prop :=
         match cs with
         | [] => True
         | c :: cs' => all_offsets_well_formed c /\ each cs'
         end) children
  end.

(** The offsets that start at [start] and advance by each size in turn. *)
Fixpoint running_offsets (start : Z) (sizes : list Z) : list Z :=
  match sizes with
  | [] => [start]
  | size :: rest => start :: running_offsets (start + size) rest
  end.

Fixpoint sum_sizes (sizes : list Z) : Z :=
  match sizes with
  | [] => 0
  | size :: rest => size + sum_sizes rest
  end.

(** [message Empty {}], as [google.protobuf.Empty] is. *)
Definition Empty : Descriptor := MkDescriptor "Empty" None false [].

(** A message type without any column that could carry a row count: all its
    fields, if any, are singular sub-messages of such types. *)
Fixpoint hollow (d : Descriptor) : bool :=
  match d with
  | MkDescriptor _ _ _ fs =>
      (fix each (fs : list FieldDescriptor) : bool :=
         match fs with
         | [] => true
         | f :: rest => hollow_field f && each rest
         end) fs
  end
with hollow_field (f : FieldDescriptor) : bool :=
  match f with
  | MkFieldDescriptor _ type label message_type _ _ =>
      match message_type with
      | Some d =>
          FieldType_eqb type TYPE_MESSAGE
          && negb (d_map_entry d)
          && negb (Label_eqb label LABEL_REPEATED)
          && negb (is_some (d_well_known d))
          && hollow d
      | None => false
      end
  end.

(** In every struct array inside [a], at any depth, the children have as many
    rows as the struct. *)
Fixpoint struct_children_aligned (a : Array) : Prop :=
  match a with
  | PrimitiveArray _ _ => True
  | ListArray _ _ _ values => struct_children_aligned values
  | MapArray _ _ keys items =>
      struct_children_aligned keys /\ struct_children_aligned items
  | StructArray _ children validity =>
      (fix each (cs : list Array) : Prop :=
         match cs with
         | [] => True
         | c :: cs' =>
             (array_len c = length validity /\ struct_children_aligned c)
             /\ each cs'
         end) children
  end.

(** [_extract_array_messages] at the message type of a field. *)
Definition extract_children (fld : FieldDescriptor) : Array -> MsgIter -> M unit :=
  match f_message_type fld with
  | Some d => _extract_array_messages d
  | None => fun _ _ => mraise AttributeError
  end.

(** [descriptor.fields_by_name[name]], or its [KeyError]. *)
Definition entry_field (entry : Descriptor) (name : string) : Result FieldDescriptor :=
  match fields_by_name (d_fields entry) name with
  | Some f => Ok f
  | None => Raise KeyError
  end.

(** The loop of [_extract_map_field] over the fields of the value message of
    a map entry type. *)
Definition value_children (entry : Descriptor) : Array -> MsgIter -> M unit :=
  match fields_by_name (d_fields entry) "value" with
  | Some v => extract_children v
  | None => fun _ _ => mraise KeyError
  end.

(** The body of the loop of [_extract_array_messages]. *)
Definition extract_child (struct_fields : list Field) (array : Array)
    (messages : MsgIter) (fld : FieldDescriptor) : M unit :=
  match get_field_index struct_fields (f_name fld) with
  | Some index =>
      do child <- mlift (array_field array index);
      _extract_field fld child messages
  | None => mret tt
  end.

(** The name a path step goes through. *)
Definition step_name (s : Step) : string :=
  match s with
  | SField name | SItem name _ | SEntry name _ => name
  end.

(** The slot of field [name] in the [i]-th root of the store. *)
Definition slot (h : Heap) (i : nat) (name : string) : option Slot :=
  match nth_error h i with
  | Some (MStruct fields) => assoc fields name
  | _ => None
  end.

(** The slot of field [name] of a message. *)
Definition mslot (m : Msg) (name : string) : option Slot :=
  match m with
  | MStruct fields => assoc fields name
  | _ => None
  end.

(** What a computation leaves alone: the store only grows, and of the first
    [n] objects no field other than [g] changes. *)
Definition frame (n : nat) (g : string) (h h' : Heap) : Prop :=
  (length h <= length h')%nat
  /\ forall i name, (i < n)%nat -> name <> g -> slot h' i name = slot h i name.

(** A reference that is not to one of the first [n] objects themselves: to a
    later object, or below field [g] of one of them. *)
Definition under (n : nat) (g : string) (r : Ref) : Prop :=
  (n <= ref_root r)%nat
  \/ exists s p, ref_path r = s :: p /\ step_name s = g.

(** A reference the extraction of field [fld] may write through. *)
Definition ref_ok (n : nat) (g : string) (fld : FieldDescriptor) (r : Ref) : Prop :=
  under n g r \/ (ref_path r = [] /\ f_name fld = g).

Definition framed {A} (n : nat) (g : string) (c : M A) : Prop :=
  forall h x h', (n <= length h)%nat -> c h = Ok (x, h') -> frame n g h h'.

(** A mutation of a message that writes field [g] only. *)
Definition writes_only (g : string) (f : Msg -> Result Msg) : Prop :=
  forall m m', f m = Ok m' ->
               forall name, name <> g -> mslot m' name = mslot m name.

Definition it_under (n : nat) (g : string) (it : MsgIter) : Prop :=
  forall h refs h', (n <= length h)%nat -> iterate it h = Ok (refs, h') ->
                    Forall (under n g) refs.

Definition it_ok (n : nat) (g : string) (fld : FieldDescriptor) (it : MsgIter) : Prop :=
  forall h refs h', (n <= length h)%nat -> iterate it h = Ok (refs, h') ->
                    Forall (ref_ok n g fld) refs.

(** The references to the [n] messages [record_batch_to_messages] allocates. *)
Definition root_refs (n : nat) : list Ref := map (fun i => MkRef i []) (seq 0 n).

(** The body of the loop of [_extract_record_batch_messages]. *)
Definition extract_column (record_batch : RecordBatch) (messages : MsgIter)
    (fld : FieldDescriptor) : M unit :=
  if is_some (get_field_index (schema record_batch) (f_name fld)) then
    do column <- mlift (record_batch_column record_batch (f_name fld));
    _extract_field fld column messages
  else mret tt.

(** The shape of an array: well-formed offsets throughout, and as many rows
    as there were records, or none when it is a struct without columns. *)
Definition built_ok (records : list Obj) (a : Array) : Prop :=
  all_offsets_well_formed a
  /\ (array_len a = length records \/ array_len a = O).

(** The rows of a built array: those of the records, or none for a hollow
    type; and its structs are aligned with their children. *)
Definition rows_ok (is_hollow : bool) (records : list Obj) (a : Array) : Prop :=
  struct_children_aligned a
  /\ array_len a = if is_hollow then O else length records.

(** Whether [_proto_field_to_array] builds, for this field, the struct array
    of a hollow type. *)
Definition hollow_struct_field (f : FieldDescriptor) : bool :=
  match f_message_type f with
  | Some d =>
      FieldType_eqb (f_type f) TYPE_MESSAGE
      && negb (is_some (d_well_known d)) && hollow d
  | None => false
  end.

(** Row by row: [G scalar message] for each message and the scalar of its
    row, as long as there are both; the first exception wins. *)
Fixpoint zip_rows (G : Scalar -> Msg -> Result Msg) (msgs : list Msg)
    (scalars : list Scalar) : Result (list Msg) :=
  match msgs, scalars with
  | m :: msgs', sc :: scalars' =>
      let? m' := G sc m in
      let? rest := zip_rows G msgs' scalars' in
      Ok (m' :: rest)
  | _, _ => Ok msgs
  end.

(** What [PlainAssigner] does to the message of a row. *)
Definition plain_row (fld : FieldDescriptor) (converter : Scalar -> Result Obj)
    (scalar : Scalar) (m : Msg) : Result Msg :=
  if is_valid scalar then
    let? value := converter scalar in
    match value with
    | ONone => Ok m
    | _ =>
        match nullable_type fld with
        | Some w => modify_at [SField (f_name fld)] (msg_set_value w value) m
        | None => msg_setattr fld value m
        end
    end
  else Ok m.

(** What the special-type branch of [_extract_field] does to the message of
    a row. *)
Definition special_row (fld : FieldDescriptor) (extractor : Scalar -> Result Obj)
    (scalar : Scalar) (m : Msg) : Result Msg :=
  if is_valid scalar then
    let? value := extractor scalar in
    modify_at [SField (f_name fld)] (MergeFrom value) m
  else Ok m.

(** [enum Color { RED = 0; GREEN = 1; }] *)
Definition Color : EnumDescriptor := MkEnumDescriptor [("RED", 0); ("GREEN", 1)].

(** [message WithEnum { Color color = 1; repeated Color colors = 2; }] *)
Definition WithEnum : Descriptor :=
  MkDescriptor "WithEnum" None false
    [enum_field "color" LABEL_OPTIONAL Color; enum_field "colors" LABEL_REPEATED Color].

(** [message WithWrapper { google.protobuf.Int32Value wrapped_int32 = 1;
    int32 int32_value = 2; }] *)
Definition WithWrapper : Descriptor :=
  MkDescriptor "WithWrapper" None false
    [message_field "wrapped_int32" Int32Value_DESCRIPTOR;
     scalar_field "int32_value" TYPE_INT32].

(** ** Flat message types *)

(** A field of a flat message type: singular, and a scalar or an enum with
    distinct value names, in both cases without presence (so outside any
    oneof), or a well-known message (wrapper or temporal). *)
Definition flat_field (fld : FieldDescriptor) : Prop :=
  f_label fld <> LABEL_REPEATED
  /\ match f_type fld with
     | TYPE_MESSAGE =>
         exists sub w, f_message_type fld = Some sub
                       /\ d_well_known sub = Some w /\ d_map_entry sub = false
     | TYPE_ENUM =>
         f_message_type fld = None /\ f_has_presence fld = false
         /\ exists e, f_enum_type fld = Some e /\ NoDup (map fst (enum_values e))
     | _ => f_message_type fld = None /\ f_has_presence fld = false
     end.

(** A temporal value as the codec can carry it when the field is present: a
    normalised Timestamp, a TimeOfDay with minutes, seconds and nanos in range
    and hours within 32 bits, a Date with a year. *)
Definition temporal_ok (m : Msg) : Prop :=
  match m with
  | MTimestamp t => 0 <= ts_nanos t < 1000000000
  | MTimeOfDay t =>
      - 2 ^ 31 <= hours t < 2 ^ 31 /\ 0 <= minutes t < 60
      /\ 0 <= seconds t < 60 /\ 0 <= nanos t < 1000000000
  | MDate d => year d <> 0
  | _ => True
  end.

(** What protobuf keeps in a field of a flat type: a scalar; an enum number
    within 32 bits; or a well-known message, at its default when the field is
    not present. *)
Definition flat_slot (fld : FieldDescriptor) (s : Slot) : Prop :=
  match f_type fld with
  | TYPE_MESSAGE =>
      match f_message_type fld with
      | Some sub =>
          exists m, snd s = OMsg m
                    /\ if fst s then temporal_ok m else m = default_msg sub
      | None => False
      end
  | TYPE_ENUM => exists n, s = (false, OVal (PyInt n)) /\ - 2 ^ 31 <= n < 2 ^ 31
  | _ => exists v, s = (false, OVal v)
  end.

(** A message of a flat type: its fields in the order of the descriptor. *)
Definition flat_message (d : Descriptor) (m : Msg) : Prop :=
  exists fields,
    m = MStruct fields
    /\ Forall2 (fun fld kv => fst kv = f_name fld /\ flat_slot fld (snd kv))
         (d_fields d) fields.

(** What decoding one row does to the slot of a singular field that is not a
    sub-message of a custom type: the special-type branch of [_extract_field]
    merges into the sub-message, [PlainAssigner] sets the wrapper's value or
    the field itself. *)
Definition decode_slot (fld : FieldDescriptor) (scalar : Scalar) (s : Slot)
  : Result Slot :=
  match special_type fld with
  | Some extractor =>
      if is_valid scalar then
        let? value := extractor scalar in
        let? v := on_msg (MergeFrom value) (snd s) in
        Ok (true, v)
      else Ok s
  | None =>
      let? converter := get_converter fld in
      if is_valid scalar then
        let? value := converter scalar in
        match value with
        | ONone => Ok s
        | _ =>
            match nullable_type fld with
            | Some w =>
                let? v := on_msg (msg_set_value w value) (snd s) in
                Ok (true, v)
            | None =>
                match snd s, value with
                | OVal _, OVal v =>
                    let? v' := check_value (f_type fld) v in
                    Ok (f_has_presence fld || fst s, OVal v')
                | OVal _, _ => Raise TypeError
                | _, _ => Raise AttributeError
                end
            end
        end
      else Ok s
  end.

(** The same on the message of the row. *)
Definition decode_row (fld : FieldDescriptor) (scalar : Scalar) (m : Msg)
  : Result Msg :=
  match special_type fld with
  | Some extractor => special_row fld extractor scalar m
  | None =>
      let? converter := get_converter fld in
      plain_row fld converter scalar m
  end.

(** The scalar of a row of a primitive column of type [ty] after
    [_prepare_array]: a time64 element has become an int64 one. *)
Definition prepared_scalar (ty : DataType) (el : option PyVal) : Scalar :=
  match ty with
  | time64 unit =>
      MkScalar int64
        (match el with
         | Some (PyInt z) =>
             Some (PyInt (wrap64 (z * match _TIME_CONVERTER unit with
                                      | Ok ratio => ratio
                                      | Raise _ => 1
                                      end)))
         | other => other
         end)
  | _ => MkScalar ty el
  end.

(** The allocated messages [h] while the columns are decoded one after the
    other: the fields [done] hold what the messages [ms] hold, the fields
    [todo] are still at their default. *)
Definition decoded_upto (done todo : list FieldDescriptor) (names : list string)
    (ms h : list Msg) : Prop :=
  length h = length ms
  /\ forall i F,
       nth_error ms i = Some (MStruct F) ->
       exists fields,
         nth_error h i = Some (MStruct fields)
         /\ map fst fields = names
         /\ (forall f, In f done -> assoc fields (f_name f) = assoc F (f_name f))
         /\ (forall f, In f todo ->
                       assoc fields (f_name f) = Some (default_slot f)).

(** [message Reading { int32 id = 1; Color color = 2;
    google.protobuf.Int32Value level = 3; google.protobuf.Timestamp at = 4; }] *)
Definition Reading : Descriptor :=
  MkDescriptor "Reading" None false
    [scalar_field "id" TYPE_INT32; enum_field "color" LABEL_OPTIONAL Color;
     message_field "level" Int32Value_DESCRIPTOR;
     message_field "at" Timestamp_DESCRIPTOR].

(** Two readings: one with every field set, one with the sub-messages
    absent. *)
Definition readings : list Msg :=
  [MStruct [("id", (false, OVal (PyInt 7)));
            ("color", (false, OVal (PyInt 1)));
            ("level", (true, OMsg (MWrapper (PyInt 0))));
            ("at", (true, OMsg (MTimestamp (MkTimestamp (-1) 999999999))))];
   MStruct [("id", (false, OVal (PyInt 0)));
            ("color", (false, OVal (PyInt 0)));
            ("level", (false, OMsg (MWrapper (PyInt 0))));
            ("at", (false, OMsg (MTimestamp (MkTimestamp 0 0))))]].

(** The default configuration with enums stored as numbers. *)
Definition config_int32 : ProtarrowConfig :=
  {| enum_type := int32; timestamp_unit := unit_ns;
     timestamp_tz := "UTC"; time_unit := unit_ns |}.


(** * Properties *)

Unset Implicit Arguments.

(** ** Scalar codecs *)

Lemma PyVal_eqb_spec (a b : PyVal) : reflect (a = b) (PyVal_eqb a b).
Proof.
  destruct a, b; simpl; try (constructor; congruence).
  - destruct (Z.eqb_spec z z0); constructor; congruence.
  - destruct (Bool.eqb_spec b0 b); constructor; congruence.
  - destruct (Z.eqb_spec bits bits0); constructor; congruence.
  - destruct (String.eqb_spec s s0); constructor; congruence.
  - destruct (String.eqb_spec s s0); constructor; congruence.
  - destruct (Z.eqb_spec year0 year1), (Z.eqb_spec month0 month1),
      (Z.eqb_spec day0 day1); simpl; constructor; congruence.
Qed.

Lemma PyVal_eqb_refl (a : PyVal) : PyVal_eqb a a = true.
Proof. destruct (PyVal_eqb_spec a a); congruence. Qed.

(** The quotient and remainder of [a * b + c] by [b], for [0 <= c < b]. *)
Lemma div_mul_add (a b c : Z) :
  0 <= c < b -> (a * b + c) / b = a /\ (a * b + c) mod b = c.
Proof.
  intros H. split.
  - rewrite Z.add_comm, Z.div_add by lia. rewrite Z.div_small by lia. lia.
  - rewrite Z.add_comm, Z.mod_add by lia. apply Z.mod_small. lia.
Qed.

(** C7.  The TimeOfDay scalar codec: the encoder computes
    [((hours*60+minutes)*60+seconds)*1e9 + nanos], the decoder splits a
    nanosecond count with [/3.6e12], [/6e10 mod 60], [/1e9 mod 60] and
    [mod 1e9], and decoding what was encoded gives back every TimeOfDay with
    hours in [0,24), minutes and seconds in [0,60) and nanos in [0,1e9). *)
Theorem time_of_day_round_trip (t : TimeOfDay) :
  0 <= hours t < 24 -> 0 <= minutes t < 60 -> 0 <= seconds t < 60 ->
  0 <= nanos t < 1000000000 ->
  _time_of_day_to_nanos t
    = ((hours t * 60 + minutes t) * 60 + seconds t) * 1000000000 + nanos t
  /\ (forall n : Z,
        _time_of_day_scalar_to_proto n
        = {| hours := n / 3600000000000;
             minutes := (n / 60000000000) mod 60;
             seconds := (n / 1000000000) mod 60;
             nanos := n mod 1000000000 |})
  /\ _time_of_day_scalar_to_proto (_time_of_day_to_nanos t) = t.
Proof.
  intros Hh Hm Hs Hn. split; [reflexivity|]. split; [reflexivity|].
  destruct t as [h m s n]; simpl in *.
  unfold _time_of_day_scalar_to_proto, _time_of_day_to_nanos; simpl.
  set (T := ((h * 60 + m) * 60 + s) * 1000000000 + n).
  assert (Hnanos : T mod 1000000000 = n /\ T / 1000000000 = (h * 60 + m) * 60 + s).
  { destruct (div_mul_add ((h * 60 + m) * 60 + s) 1000000000 n) as [A B]; [lia|].
    split; assumption. }
  destruct Hnanos as [Hnanos Hq].
  assert (Hsec : ((h * 60 + m) * 60 + s) mod 60 = s)
    by (apply (div_mul_add (h * 60 + m) 60 s); lia).
  assert (Hmin : T / 60000000000 = h * 60 + m).
  { replace T with ((h * 60 + m) * 60000000000 + (s * 1000000000 + n))
      by (unfold T; ring).
    apply (div_mul_add (h * 60 + m) 60000000000 (s * 1000000000 + n)). lia. }
  assert (Hhour : T / 3600000000000 = h).
  { replace T with (h * 3600000000000 + (m * 60000000000 + s * 1000000000 + n))
      by (unfold T; ring).
    apply (div_mul_add h 3600000000000 (m * 60000000000 + s * 1000000000 + n)).
    lia. }
  rewrite Hnanos, Hq, Hsec, Hmin, Hhour.
  replace ((h * 60 + m) mod 60) with m
    by (symmetry; apply (div_mul_add h 60 m); lia).
  reflexivity.
Qed.

Lemma time_of_day_round_trip_witness :
  _time_of_day_scalar_to_proto
    (_time_of_day_to_nanos (MkTimeOfDay 23 59 58 999999999))
  = MkTimeOfDay 23 59 58 999999999.
Proof.
  apply (time_of_day_round_trip (MkTimeOfDay 23 59 58 999999999)); simpl; lia.
Defined.

(** ** Timestamps *)

Lemma in_range_true (lo hi z : Z) : lo <= z < hi -> in_range lo hi z = true.
Proof.
  intros H. unfold in_range. apply andb_true_intro. split.
  - apply Z.leb_le. lia.
  - apply Z.ltb_lt. lia.
Qed.

Lemma in_range_iff (lo hi z : Z) : in_range lo hi z = true <-> lo <= z < hi.
Proof.
  unfold in_range. rewrite andb_true_iff, Z.leb_le, Z.ltb_lt. reflexivity.
Qed.


(** ** Induction on descriptor trees *)

Section DescriptorInduction.
Variable Pd : Descriptor -> Prop.
Variable Pf : FieldDescriptor -> Prop.
Hypothesis Hd : forall n w m fs, Forall Pf fs -> Pd (MkDescriptor n w m fs).
Hypothesis Hf : forall name t l mt e hp,
    (forall d, mt = Some d -> Pd d) -> Pf (MkFieldDescriptor name t l mt e hp).

Fixpoint Descriptor_tree_ind (d : Descriptor) : Pd d :=
  match d with
  | MkDescriptor n w m fs =>
      Hd n w m fs
        ((fix each (fs : list FieldDescriptor) : Forall Pf fs :=
            match fs with
            | [] => Forall_nil Pf
            | f :: fs' => Forall_cons f (Field_tree_ind f) (each fs')
            end) fs)
  end
with Field_tree_ind (f : FieldDescriptor) : Pf f :=
  match f with
  | MkFieldDescriptor name t l mt e hp =>
      Hf name t l mt e hp
        (match mt as o return forall d, o = Some d -> Pd d with
         | Some d' =>
             fun d H =>
               match H in _ = o
                     return match o with Some x => Pd x | None => True end
               with eq_refl => Descriptor_tree_ind d' end
         | None => fun d H => match H with end
         end)
  end.

Lemma Descriptor_tree_both (d : Descriptor) :
  Pd d /\ Forall Pf (d_fields d).
Proof.
  split; [apply Descriptor_tree_ind|].
  destruct d as [n w m fs]. simpl.
  induction fs; constructor; auto using Field_tree_ind.
Qed.
End DescriptorInduction.

(** ** The builder, field by field *)

Lemma rbind_ok {A B} (r : Result A) (k : A -> Result B) (b : B) :
  rbind r k = Ok b -> exists a, r = Ok a /\ k a = Ok b.
Proof. destruct r; simpl; [eauto|discriminate]. Qed.

Lemma _message_to_array_eq (d : Descriptor) (records : list Obj)
    (validity_mask : option (list bool)) (config : ProtarrowConfig) :
  _message_to_array d records validity_mask config
  = let? columns := rmapM (field_to_column records config) (d_fields d) in
    StructArray_from_arrays (map snd columns) (map fst columns)
      (struct_validity validity_mask).
Proof.
  destruct d as [n w m fs]. cbn [_message_to_array d_fields].
  match goal with
  | |- rbind ?a _ = rbind ?b _ => assert (E : a = b); [|rewrite E; reflexivity]
  end.
  induction fs as [|fld rest IH]; [reflexivity|].
  cbn [rmapM]. rewrite <- IH. clear IH.
  unfold field_to_column at 1. unfold field_to_array.
  destruct (NestedIterable records (f_name fld)) as [field_values|]; [|reflexivity].
  cbn [rbind].
  destruct (is_map_field fld) eqn:Hmap.
  - destruct fld as [name t l [[n' w' m' es]|] e hp]; [|reflexivity].
    cbn [f_message_type].
    assert (Hentry : forall nm,
      (fix entry_field (name0 : string) (es0 : list FieldDescriptor) {struct es0}
         : Result (list Obj -> Result Array) :=
         match es0 with
         | [] => Raise KeyError
         | e0 :: es' =>
             if String.eqb (f_name e0) name0
             then Ok (fun rs => _proto_field_to_array e0 rs None config)
             else entry_field name0 es'
         end) nm es
      = entry_to_array (MkDescriptor n' w' m' es) nm config).
    { clear Hmap. intros nm. unfold entry_to_array. cbn [d_fields].
      induction es as [|e0 es IHes]; [reflexivity|].
      cbn [fields_by_name]. destruct (String.eqb (f_name e0) nm); [reflexivity|].
      apply IHes. }
    rewrite !Hentry.
    destruct (_proto_map_to_array field_values _ _); reflexivity.
  - destruct (Label_eqb (f_label fld) LABEL_REPEATED).
    + destruct (_repeated_proto_to_array field_values fld _); reflexivity.
    + destruct (_proto_field_validity_mask records fld); [|reflexivity].
      cbn [rbind].
      destruct (_proto_field_to_array fld field_values _ config); reflexivity.
Qed.

Lemma _proto_field_to_array_eq (fld : FieldDescriptor) (records : list Obj)
    (validity_mask : option (list bool)) (config : ProtarrowConfig) :
  _proto_field_to_array fld records validity_mask config
  = match f_type fld with
    | TYPE_MESSAGE =>
        match f_message_type fld with
        | None => Raise AttributeError
        | Some d =>
            match d_well_known d with
            | None => _message_to_array d records validity_mask config
            | Some w =>
                records_to_array records validity_mask
                  (_PROTO_DESCRIPTOR_TO_ARROW_CONVERTER w) ONone
                  (_PROTO_DESCRIPTOR_TO_PYARROW w)
            end
        end
    | TYPE_ENUM =>
        match f_enum_type fld with
        | None => Raise AttributeError
        | Some e =>
            let? converter := get_enum_converter (enum_type config) e in
            records_to_array records validity_mask converter
              (default_value (f_type fld) (f_label fld) (f_enum_type fld))
              (enum_type config)
        end
    | _ =>
        match _PROTO_PRIMITIVE_TYPE_TO_PYARROW (f_type fld) with
        | None => Raise RuntimeError
        | Some pa_type =>
            records_to_array records validity_mask (fun x => Ok x)
              (default_value (f_type fld) (f_label fld) (f_enum_type fld)) pa_type
        end
    end.
Proof. destruct fld as [name t l mt e hp]. destruct t; reflexivity. Qed.

Lemma rmapM_Forall2 {A B} (f : A -> Result B) (l : list A) (l' : list B) :
  rmapM f l = Ok l' -> Forall2 (fun x y => f x = Ok y) l l'.
Proof.
  revert l'. induction l as [|x l IH]; intros l' H; simpl in H.
  - injection H as <-. constructor.
  - apply rbind_ok in H as [y [Hy H]]. apply rbind_ok in H as [ys [Hys H]].
    injection H as <-. constructor; auto.
Qed.

Lemma rmapM_length {A B} (f : A -> Result B) (l : list A) (l' : list B) :
  rmapM f l = Ok l' -> length l' = length l.
Proof.
  intros H. apply rmapM_Forall2 in H. symmetry. eapply Forall2_length; eauto.
Qed.

(** What [StructArray.from_arrays] returns when it returns. *)
Lemma StructArray_from_arrays_inv (arrays : list Array) (fields : list Field)
    (validity : option (list bool)) (a : Array) :
  StructArray_from_arrays arrays fields validity = Ok a ->
  (arrays = [] /\ a = StructArray [] [] [])
  \/ (arrays <> [] /\ length arrays = length fields
      /\ exists v, a = StructArray fields arrays v
         /\ Forall (fun c => array_len c = length v) arrays
         /\ match validity with Some m => v = m | None => v = repeat true (length v) end).
Proof.
  unfold StructArray_from_arrays. destruct arrays as [|first rest]; intros H.
  - left. injection H as <-. auto.
  - right. split; [discriminate|].
    destruct (Nat.eqb (length (first :: rest)) (length fields)) eqn:Hlen;
      [|discriminate].
    apply Nat.eqb_eq in Hlen. split; [assumption|]. cbn [negb] in H.
    destruct (forallb _ (first :: rest)) eqn:Hall; [|discriminate].
    cbn [negb] in H. rewrite forallb_forall in Hall.
    assert (Hlens : forall n, n = array_len first ->
              Forall (fun c => array_len c = n) (first :: rest)).
    { intros n ->. apply Forall_forall. intros c Hc.
      apply Nat.eqb_eq. apply Hall. assumption. }
    destruct validity as [m|].
    + destruct (Nat.eqb (length m) (array_len first)) eqn:Hm; [|discriminate].
      apply Nat.eqb_eq in Hm. injection H as <-. exists m.
      split; [reflexivity|]. split; [apply Hlens; congruence|reflexivity].
    + injection H as <-. exists (repeat true (array_len first)).
      rewrite repeat_length. split; [reflexivity|]. split; [apply Hlens|]; reflexivity.
Qed.

(** What [messages_to_record_batch] returns when it returns: one column per
    field of the descriptor, built by [field_to_column]. *)
Lemma messages_to_record_batch_inv (records : list Msg) (d : Descriptor)
    (config : ProtarrowConfig) (batch : RecordBatch) :
  messages_to_record_batch records d config = Ok batch ->
  exists cols,
    rmapM (field_to_column (map OMsg records) config) (d_fields d) = Ok cols
    /\ schema batch = map fst cols
    /\ columns batch = map snd cols
    /\ Forall (fun c => array_len (snd c) = num_rows batch) cols
    /\ (cols = [] -> num_rows batch = O).
Proof.
  unfold messages_to_record_batch. intros H.
  apply rbind_ok in H as [a [Ha Hb]].
  rewrite _message_to_array_eq in Ha.
  apply rbind_ok in Ha as [cols [Hcols Ha]].
  exists cols. split; [assumption|].
  apply StructArray_from_arrays_inv in Ha as [[Hnil ->]|[Hne [Hlen [v [-> [Hall _]]]]]].
  - destruct cols; [|discriminate]. injection Hb as <-. simpl. auto.
  - injection Hb as <-. simpl. repeat split; auto.
    + rewrite Forall_map in Hall. assumption.
    + intros ->. contradiction.
Qed.

(** ** Column nullability *)

Lemma field_to_column_field (records : list Obj) (config : ProtarrowConfig)
    (fld : FieldDescriptor) (c : Field * Array) :
  field_to_column records config fld = Ok c ->
  field_name (fst c) = f_name fld
  /\ field_nullable (fst c) = column_nullable fld
  /\ field_type (fst c) = array_type (snd c)
  /\ field_to_array fld records config = Ok (snd c).
Proof.
  unfold field_to_column. intros H. apply rbind_ok in H as [a [Ha H]].
  injection H as <-. simpl. unfold _proto_field_nullable, column_nullable. auto.
Qed.

(** X3.  In the schema of every record batch that
    [messages_to_record_batch] produces there is one column per field of the
    descriptor, named after it, and it is nullable exactly when the field is
    message-typed or repeated: the columns of singular sub-message and wrapper
    fields and of all repeated fields, maps included, are nullable, and those
    of singular primitive scalar and enum fields are not. *)
Theorem column_nullability_policy (records : list Msg) (d : Descriptor)
    (config : ProtarrowConfig) (batch : RecordBatch) :
  messages_to_record_batch records d config = Ok batch ->
  Forall2
    (fun fld column =>
       field_name column = f_name fld
       /\ field_nullable column = column_nullable fld
       /\ (f_type fld = TYPE_MESSAGE -> field_nullable column = true)
       /\ (f_label fld = LABEL_REPEATED -> field_nullable column = true)
       /\ (f_type fld <> TYPE_MESSAGE -> f_label fld <> LABEL_REPEATED ->
           field_nullable column = false))
    (d_fields d) (schema batch).
Proof.
  intros H. apply messages_to_record_batch_inv in H as [cols [Hcols [-> _]]].
  apply rmapM_Forall2 in Hcols.
  induction Hcols as [|fld c fs cs Hc _ IH]; simpl; constructor; [|assumption].
  apply field_to_column_field in Hc as [Hn [Hnull _]].
  split; [assumption|]. split; [assumption|]. rewrite Hnull.
  unfold column_nullable. repeat split.
  - intros ->. reflexivity.
  - intros ->. apply orb_true_r.
  - intros Ht Hl. destruct (f_type fld), (f_label fld); try reflexivity; congruence.
Qed.

Lemma column_nullability_policy_witness :
  exists batch,
    messages_to_record_batch
      [MStruct [("repeated_int32", (false, OList [OVal (PyInt 1)]))]]
      WithRepeated default_config = Ok batch
    /\ Forall2 (fun fld column => field_nullable column = column_nullable fld)
         (d_fields WithRepeated) (schema batch).
Proof.
  eexists. split; [vm_compute; reflexivity|].
  eapply Forall2_impl;
    [|apply (column_nullability_policy
               [MStruct [("repeated_int32", (false, OList [OVal (PyInt 1)]))]]
               WithRepeated default_config); vm_compute; reflexivity].
  intros fld column H. apply H.
Defined.

(** The column of a repeated primitive field is nullable in the schema of the
    record batch. *)
Lemma repeated_column_is_nullable :
  exists batch,
    messages_to_record_batch
      [MStruct [("repeated_int32", (false, OList [OVal (PyInt 1)]))]]
      WithRepeated default_config = Ok batch
    /\ map field_nullable (schema batch) = [true]
    /\ map field_nullable (schema batch) <> [false].
Proof.
  eexists. split; [vm_compute; reflexivity|]. simpl. split; [reflexivity|discriminate].
Qed.

(** ** Offsets *)

Lemma running_offsets_length (sizes : list Z) (start : Z) :
  length (running_offsets start sizes) = S (length sizes).
Proof.
  revert start. induction sizes as [|s r IH]; intros start; simpl; [reflexivity|].
  rewrite IH. reflexivity.
Qed.

Lemma running_offsets_head (sizes : list Z) (start : Z) :
  nth 0 (running_offsets start sizes) 0 = start.
Proof. destruct sizes; reflexivity. Qed.

Lemma running_offsets_step (sizes : list Z) (start : Z) (i : nat) :
  Forall (fun s => 0 <= s) sizes -> (i < length sizes)%nat ->
  nth i (running_offsets start sizes) 0 <= nth (S i) (running_offsets start sizes) 0.
Proof.
  intros Hpos. revert start i.
  induction Hpos as [|s r Hs _ IH]; intros start i Hi; simpl in Hi; [lia|].
  destruct i as [|i].
  - cbn [running_offsets nth]. rewrite running_offsets_head. lia.
  - cbn [running_offsets nth]. apply (IH (start + s) i). lia.
Qed.

Lemma running_offsets_last (sizes : list Z) (start : Z) :
  nth (length sizes) (running_offsets start sizes) 0 = start + sum_sizes sizes.
Proof.
  revert start. induction sizes as [|s r IH]; intros start; simpl; [lia|].
  rewrite IH. lia.
Qed.

Lemma running_offsets_well_formed (sizes : list Z) (children : nat) :
  Forall (fun s => 0 <= s) sizes ->
  sum_sizes sizes = Z.of_nat children ->
  offsets_well_formed (running_offsets 0 sizes) (length sizes) children.
Proof.
  intros Hpos Hsum. repeat split.
  - apply running_offsets_length.
  - apply running_offsets_head.
  - intros i Hi. apply running_offsets_step; assumption.
  - rewrite running_offsets_last. lia.
Qed.

Lemma clean_offsets_some (l : list Z) : clean_offsets (map Some l) = l.
Proof. induction l as [|z l IH]; simpl; [reflexivity|]. rewrite IH. reflexivity. Qed.

Lemma removelast_length {A} (l : list A) :
  length (removelast l) = pred (length l).
Proof.
  induction l as [|x l IH]; [reflexivity|].
  destruct l as [|y l]; [reflexivity|].
  change (removelast (x :: y :: l)) with (x :: removelast (y :: l)).
  cbn [length]. rewrite IH. reflexivity.
Qed.

Lemma offsets_validity_length (offsets : list (option Z)) :
  length (offsets_validity offsets) = pred (length offsets).
Proof.
  unfold offsets_validity. rewrite length_map. apply removelast_length.
Qed.

(** The sizes [_get_offsets] sees, for records that are all containers. *)
Lemma _get_offsets_from_running (records : list Obj) (sizes : list Z) (start : Z) :
  Forall2 (fun r s => py_len r = Ok s) records sizes ->
  _get_offsets_from start records = Ok (map Some (running_offsets start sizes)).
Proof.
  intros H. revert start. induction H as [|r s rs ss Hr _ IH]; intros start.
  - reflexivity.
  - cbn [_get_offsets_from running_offsets map].
    destruct r; try discriminate; rewrite Hr; cbn [rbind]; rewrite IH; reflexivity.
Qed.

Lemma FlattenedIterable_sizes (records items : list Obj) :
  FlattenedIterable records = Ok items ->
  exists sizes,
    Forall2 (fun r s => py_len r = Ok s) records sizes
    /\ Forall (fun s => 0 <= s) sizes
    /\ sum_sizes sizes = Z.of_nat (length items).
Proof.
  revert items. induction records as [|r rs IH]; intros items H; simpl in H.
  - injection H as <-. exists []. repeat constructor.
  - apply rbind_ok in H as [children [Hc H]].
    apply rbind_ok in H as [others [Ho H]]. injection H as <-.
    destruct (IH others Ho) as [sizes [H2 [Hpos Hsum]]].
    exists (Z.of_nat (length children) :: sizes). repeat split.
    + constructor; [|assumption].
      destruct r; try discriminate; injection Hc as <-; simpl;
        rewrite ?length_map; reflexivity.
    + constructor; [lia|assumption].
    + simpl. rewrite Hsum, length_app. lia.
Qed.

Lemma MapKeyIterable_sizes (records keys : list Obj) :
  MapKeyIterable records = Ok keys ->
  exists sizes,
    Forall2 (fun r s => py_len r = Ok s) records sizes
    /\ Forall (fun s => 0 <= s) sizes
    /\ sum_sizes sizes = Z.of_nat (length keys).
Proof.
  revert keys. induction records as [|r rs IH]; intros keys H; simpl in H.
  - injection H as <-. exists []. repeat constructor.
  - destruct r as [| | | |entries]; try discriminate.
    apply rbind_ok in H as [others [Ho H]]. injection H as <-.
    destruct (IH others Ho) as [sizes [H2 [Hpos Hsum]]].
    exists (Z.of_nat (length entries) :: sizes). repeat split.
    + constructor; [reflexivity|assumption].
    + constructor; [lia|assumption].
    + simpl. rewrite Hsum, length_app, length_map. lia.
Qed.

Lemma running_offsets_hd (sizes : list Z) (start : Z) :
  hd 0 (running_offsets start sizes) = start.
Proof. destruct sizes; reflexivity. Qed.

Lemma running_offsets_last_elt (sizes : list Z) (start : Z) :
  last (running_offsets start sizes) 0 = start + sum_sizes sizes.
Proof.
  revert start. induction sizes as [|s r IH]; intros start.
  - simpl. lia.
  - cbn [running_offsets sum_sizes].
    assert (E : forall x l, l <> [] -> last (x :: l) 0 = last l 0)
      by (intros x [|y l] Hl; [contradiction|reflexivity]).
    rewrite E; [rewrite IH; lia|]. destruct r; discriminate.
Qed.

Lemma fields_by_name_In (fs : list FieldDescriptor) (name : string)
    (f : FieldDescriptor) :
  fields_by_name fs name = Some f -> In f fs /\ f_name f = name.
Proof.
  induction fs as [|g fs IH]; simpl; [discriminate|].
  destruct (String.eqb_spec (f_name g) name) as [E|N].
  - intros H. injection H as <-. auto.
  - intros H. destruct (IH H). auto.
Qed.

Lemma records_to_array_inv (records : list Obj) (mask : option (list bool))
    (converter : Obj -> Result Obj) (null_value : Obj) (pa_type : DataType)
    (a : Array) :
  records_to_array records mask converter null_value pa_type = Ok a ->
  exists values slots,
    convert_records 0 records mask converter null_value = Ok values
    /\ rmapM (pa_element pa_type) values = Ok slots
    /\ a = PrimitiveArray pa_type slots
    /\ length slots = length records.
Proof.
  unfold records_to_array, pa_array. intros H.
  apply rbind_ok in H as [values [Hv H]]. apply rbind_ok in H as [slots [Hs H]].
  injection H as <-. exists values, slots. repeat split; auto.
  rewrite (rmapM_length _ _ _ Hs).
  clear Hs. revert Hv. generalize O. revert values.
  induction records as [|r rs IH]; intros values i Hv; simpl in Hv.
  - injection Hv as <-. reflexivity.
  - apply rbind_ok in Hv as [v [_ Hv]]. apply rbind_ok in Hv as [vs [Hvs Hv]].
    injection Hv as <-. simpl. f_equal. eapply IH; eauto.
Qed.

Lemma list_array_built_ok (records field_values items : list Obj)
    (offsets : list (option Z)) (values a : Array) (type : DataType) :
  length field_values = length records ->
  _get_offsets field_values = Ok offsets ->
  FlattenedIterable field_values = Ok items ->
  built_ok items values ->
  ListArray_from_arrays offsets values type = Ok a ->
  built_ok records a.
Proof.
  intros Hlen Hoff Hitems [Hwf Hrows] Ha.
  destruct (FlattenedIterable_sizes _ _ Hitems) as [sizes [H2 [Hpos Hsum]]].
  unfold _get_offsets in Hoff.
  rewrite (_get_offsets_from_running _ _ 0 H2) in Hoff. injection Hoff as <-.
  unfold ListArray_from_arrays in Ha.
  destruct (map Some (running_offsets 0 sizes)) eqn:E.
  { destruct sizes; discriminate. }
  rewrite <- E in Ha. clear E.
  rewrite clean_offsets_some in Ha.
  destruct (offsets_fit _ _) eqn:Hfit; [|discriminate]. injection Ha as <-.
  unfold offsets_fit in Hfit. apply Z.leb_le in Hfit.
  rewrite running_offsets_last_elt, running_offsets_hd in Hfit.
  assert (Hn : length (offsets_validity (map Some (running_offsets 0 sizes)))
               = length sizes).
  { rewrite offsets_validity_length, length_map, running_offsets_length.
    reflexivity. }
  split.
  - cbn [all_offsets_well_formed]. split; [|assumption]. rewrite Hn.
    apply running_offsets_well_formed; [assumption|]. lia.
  - left. cbn [array_len]. rewrite Hn, <- Hlen.
    symmetry. eapply Forall2_length; eauto.
Qed.

Lemma map_array_built_ok (records field_values keys_in : list Obj)
    (offsets : list (option Z)) (keys items a : Array) :
  length field_values = length records ->
  _get_offsets field_values = Ok offsets ->
  MapKeyIterable field_values = Ok keys_in ->
  built_ok keys_in keys ->
  all_offsets_well_formed items ->
  MapArray_from_arrays offsets keys items = Ok a ->
  built_ok records a.
Proof.
  intros Hlen Hoff Hkeys [Hwf Hrows] Hitems Ha.
  destruct (MapKeyIterable_sizes _ _ Hkeys) as [sizes [H2 [Hpos Hsum]]].
  unfold _get_offsets in Hoff.
  rewrite (_get_offsets_from_running _ _ 0 H2) in Hoff. injection Hoff as <-.
  unfold MapArray_from_arrays in Ha.
  destruct (map Some (running_offsets 0 sizes)) eqn:E.
  { destruct sizes; discriminate. }
  rewrite <- E in Ha. clear E.
  rewrite clean_offsets_some in Ha.
  destruct (Nat.eqb (array_len keys) (array_len items)) eqn:Heq; [|discriminate].
  apply Nat.eqb_eq in Heq. cbn [andb] in Ha.
  destruct (offsets_fit _ _) eqn:Hfit; [|discriminate]. injection Ha as <-.
  unfold offsets_fit in Hfit. apply Z.leb_le in Hfit.
  rewrite running_offsets_last_elt, running_offsets_hd in Hfit.
  assert (Hn : length (offsets_validity (map Some (running_offsets 0 sizes)))
               = length sizes).
  { rewrite offsets_validity_length, length_map, running_offsets_length.
    reflexivity. }
  split.
  - cbn [all_offsets_well_formed]. rewrite Hn.
    split; [|split; [congruence|split; assumption]].
    apply running_offsets_well_formed; [assumption|]. lia.
  - left. cbn [array_len]. rewrite Hn, <- Hlen.
    symmetry. eapply Forall2_length; eauto.
Qed.

(** Induction on descriptor trees where, at a descriptor, the property of a
    field comes with that of the fields of its message type (the [key] and
    [value] of a map entry). *)
Lemma Descriptor_deep_ind (Pd : Descriptor -> Prop) (Pf : FieldDescriptor -> Prop) :
  (forall d,
      Forall (fun f => Pf f /\ forall e, f_message_type f = Some e ->
                                         Forall Pf (d_fields e)) (d_fields d) ->
      Pd d) ->
  (forall f, (forall d, f_message_type f = Some d -> Pd d) -> Pf f) ->
  forall d, Pd d /\ Forall Pf (d_fields d).
Proof.
  intros Hd Hf.
  apply (Descriptor_tree_both
           (fun d => Pd d /\ Forall Pf (d_fields d))
           (fun f => Pf f /\ forall e, f_message_type f = Some e ->
                                       Forall Pf (d_fields e))).
  - intros n w m fs Hfs. split.
    + apply Hd. exact Hfs.
    + simpl. eapply Forall_impl; [|exact Hfs]. intros f [H _]. exact H.
  - intros name t l mt e hp IH. split.
    + apply Hf. intros d Hd'. apply IH. exact Hd'.
    + intros d Hd'. apply IH. exact Hd'.
Qed.

Lemma field_to_array_built_ok (fld : FieldDescriptor) (records : list Obj)
    (config : ProtarrowConfig) (a : Array) :
  (forall rs mask cfg b,
      _proto_field_to_array fld rs mask cfg = Ok b -> built_ok rs b) ->
  (forall e, f_message_type fld = Some e ->
     Forall (fun f => forall rs mask cfg b,
                 _proto_field_to_array f rs mask cfg = Ok b -> built_ok rs b)
       (d_fields e)) ->
  field_to_array fld records config = Ok a ->
  built_ok records a.
Proof.
  intros Hfld Hentry H. unfold field_to_array in H.
  apply rbind_ok in H as [field_values [Hfv H]].
  assert (Hlen : length field_values = length records)
    by (eapply rmapM_length; exact Hfv).
  destruct (is_map_field fld).
  - destruct (f_message_type fld) as [entry|] eqn:Hmt; [|discriminate].
    specialize (Hentry entry eq_refl). rewrite Forall_forall in Hentry.
    unfold _proto_map_to_array in H.
    apply rbind_ok in H as [key_to_array [Hk H]].
    apply rbind_ok in H as [value_to_array [Hv H]].
    apply rbind_ok in H as [offsets [Hoff H]].
    apply rbind_ok in H as [key_records [Hkr H]].
    apply rbind_ok in H as [keys [Hkeys H]].
    apply rbind_ok in H as [value_records [Hvr H]].
    apply rbind_ok in H as [values [Hvalues H]].
    unfold entry_to_array in Hk, Hv.
    destruct (fields_by_name (d_fields entry) "key") as [kf|] eqn:Hkf;
      [|discriminate].
    destruct (fields_by_name (d_fields entry) "value") as [vf|] eqn:Hvf;
      [|discriminate].
    injection Hk as <-. injection Hv as <-.
    apply fields_by_name_In in Hkf as [Hkf _]. apply fields_by_name_In in Hvf as [Hvf _].
    apply (Hentry kf Hkf) in Hkeys. apply (Hentry vf Hvf) in Hvalues.
    eapply map_array_built_ok; eauto. apply Hvalues.
  - destruct (Label_eqb (f_label fld) LABEL_REPEATED).
    + unfold _repeated_proto_to_array in H.
      apply rbind_ok in H as [offsets [Hoff H]].
      apply rbind_ok in H as [items [Hitems H]].
      apply rbind_ok in H as [array [Harray H]].
      apply Hfld in Harray.
      eapply list_array_built_ok; eauto.
    + apply rbind_ok in H as [mask [_ H]]. apply Hfld in H.
      destruct H as [Hwf Hrows]. split; [assumption|]. rewrite <- Hlen. assumption.
Qed.

Lemma all_offsets_well_formed_struct (fields : list Field) (children : list Array)
    (validity : list bool) :
  all_offsets_well_formed (StructArray fields children validity)
  <-> Forall all_offsets_well_formed children.
Proof.
  cbn [all_offsets_well_formed].
  induction children as [|c cs IH].
  - split; [constructor|trivial].
  - split.
    + intros [Hc Hcs]. constructor; [assumption|]. apply IH. assumption.
    + intros H. inversion H; subst. split; [assumption|]. apply IH. assumption.
Qed.

Lemma builder_built_ok (d : Descriptor) :
  (forall rs mask cfg b, _message_to_array d rs mask cfg = Ok b -> built_ok rs b)
  /\ Forall (fun f => forall rs mask cfg b,
                 _proto_field_to_array f rs mask cfg = Ok b -> built_ok rs b)
       (d_fields d).
Proof.
  apply (Descriptor_deep_ind
           (fun d => forall rs mask cfg b,
                _message_to_array d rs mask cfg = Ok b -> built_ok rs b)
           (fun f => forall rs mask cfg b,
                _proto_field_to_array f rs mask cfg = Ok b -> built_ok rs b)).
  - clear d. intros d Hfs rs mask cfg b H.
    rewrite _message_to_array_eq in H.
    apply rbind_ok in H as [cols [Hcols H]].
    assert (Hchildren : Forall (built_ok rs) (map snd cols)).
    { apply rmapM_Forall2 in Hcols. clear H.
      induction Hcols as [|f c fs cs Hc _ IH]; [constructor|].
      inversion Hfs as [|? ? [Hf He] Hrest]; subst.
      simpl. constructor; [|apply IH; assumption].
      apply field_to_column_field in Hc as [_ [_ [_ Hc]]].
      eapply field_to_array_built_ok; eauto. }
    apply StructArray_from_arrays_inv in H
      as [[_ ->]|[Hne [_ [v [-> [Hlens _]]]]]].
    + split; [exact I|]. right. reflexivity.
    + split.
      * apply all_offsets_well_formed_struct.
        eapply Forall_impl; [|exact Hchildren]. intros c [Hc _]. exact Hc.
      * cbn [array_len]. destruct (map snd cols) as [|c cs]; [contradiction|].
        apply Forall_inv in Hlens. apply Forall_inv in Hchildren.
        destruct Hchildren as [_ Hrows]. rewrite <- Hlens. exact Hrows.
  - clear d. intros f IH rs mask cfg b H.
    rewrite _proto_field_to_array_eq in H.
    assert (Hprim : forall conv nv ty,
               records_to_array rs mask conv nv ty = Ok b -> built_ok rs b).
    { intros conv nv ty Hb.
      apply records_to_array_inv in Hb as [vs [slots [_ [_ [-> Hl]]]]].
      split; [exact I|]. left. exact Hl. }
    destruct (f_type f);
      try (destruct (_PROTO_PRIMITIVE_TYPE_TO_PYARROW _); [|discriminate];
           eapply Hprim; eassumption).
    + destruct (f_message_type f) as [d|]; [|discriminate].
      destruct (d_well_known d); [eapply Hprim; eassumption|].
      eapply IH; [reflexivity|eassumption].
    + destruct (f_enum_type f); [|discriminate].
      apply rbind_ok in H as [conv [_ H]]. eapply Hprim; eassumption.
Qed.

(** X4.  In a record batch that [messages_to_record_batch] produces, every
    list and map array, at any nesting level, has [n+1] offsets for its [n]
    rows, the first of them 0, each no greater than the next, and the last
    equal to the length of the child array; for a column of the batch itself
    [n] is the number of rows of the batch. *)
Theorem offsets_well_formedness (records : list Msg) (d : Descriptor)
    (config : ProtarrowConfig) (batch : RecordBatch) :
  messages_to_record_batch records d config = Ok batch ->
  Forall all_offsets_well_formed (columns batch)
  /\ (forall type offsets validity values,
        In (ListArray type offsets validity values) (columns batch) ->
        offsets_well_formed offsets (num_rows batch) (array_len values))
  /\ (forall offsets validity keys items,
        In (MapArray offsets validity keys items) (columns batch) ->
        offsets_well_formed offsets (num_rows batch) (array_len keys)
        /\ array_len items = array_len keys).
Proof.
  intros H.
  assert (Hall : Forall all_offsets_well_formed (columns batch)).
  { unfold messages_to_record_batch in H. apply rbind_ok in H as [a [Ha Hb]].
    apply (proj1 (builder_built_ok d)) in Ha. destruct Ha as [Ha _].
    destruct a; try discriminate. injection Hb as <-. simpl.
    apply all_offsets_well_formed_struct in Ha. exact Ha. }
  apply messages_to_record_batch_inv in H as [cols [_ [_ [Hcols [Hlens _]]]]].
  rewrite Hcols in *. rewrite Forall_forall in Hall.
  rewrite Forall_forall in Hlens.
  split; [apply Forall_forall; exact Hall|]. split.
  - intros type offsets validity values Hin.
    pose proof (Hall _ Hin) as [Hwf _].
    apply in_map_iff in Hin as [c [Hc Hin]]. apply Hlens in Hin.
    rewrite Hc in Hin. simpl in Hin. rewrite <- Hin. exact Hwf.
  - intros offsets validity keys items Hin.
    pose proof (Hall _ Hin) as [Hwf [Hlen _]].
    apply in_map_iff in Hin as [c [Hc Hin]]. apply Hlens in Hin.
    rewrite Hc in Hin. simpl in Hin. rewrite <- Hin. split; assumption.
Qed.

(** Scenario S3: offsets [0, 3, 3] over the children [1, 2, 3]. *)
Lemma offsets_well_formedness_witness :
  exists batch,
    messages_to_record_batch
      [MStruct [("repeated_int32",
                 (false, OList [OVal (PyInt 1); OVal (PyInt 2); OVal (PyInt 3)]))];
       MStruct [("repeated_int32", (false, OList []))]]
      WithRepeated default_config = Ok batch
    /\ columns batch
       = [ListArray (list_ (field "item" int32 false)) [0; 3; 3] [true; true]
            (PrimitiveArray int32
               [Some (PyInt 1); Some (PyInt 2); Some (PyInt 3)])]
    /\ Forall all_offsets_well_formed (columns batch).
Proof.
  eexists. split; [vm_compute; reflexivity|]. split; [reflexivity|].
  apply (offsets_well_formedness
           [MStruct [("repeated_int32",
                      (false, OList [OVal (PyInt 1); OVal (PyInt 2); OVal (PyInt 3)]))];
            MStruct [("repeated_int32", (false, OList []))]]
           WithRepeated default_config).
  vm_compute. reflexivity.
Defined.

(** ** Row counts of what the builder returns *)

Lemma hollow_fields (d : Descriptor) :
  hollow d = forallb hollow_field (d_fields d).
Proof.
  destruct d as [n w m fs]. cbn [hollow d_fields].
  induction fs as [|f fs IH]; [reflexivity|]. cbn [forallb]. rewrite <- IH. reflexivity.
Qed.

Lemma hollow_field_eq (f : FieldDescriptor) :
  hollow_field f
  = match f_message_type f with
    | Some d =>
        FieldType_eqb (f_type f) TYPE_MESSAGE
        && negb (d_map_entry d)
        && negb (Label_eqb (f_label f) LABEL_REPEATED)
        && negb (is_some (d_well_known d))
        && hollow d
    | None => false
    end.
Proof. destruct f as [name t l [d|] e hp]; reflexivity. Qed.

Lemma struct_children_aligned_struct (fields : list Field) (children : list Array)
    (validity : list bool) :
  struct_children_aligned (StructArray fields children validity)
  <-> Forall (fun c => array_len c = length validity /\ struct_children_aligned c)
        children.
Proof.
  cbn [struct_children_aligned].
  induction children as [|c cs IH].
  - split; [constructor|trivial].
  - split.
    + intros [Hc Hcs]. constructor; [assumption|]. apply IH. assumption.
    + intros H. inversion H; subst. split; [assumption|]. apply IH. assumption.
Qed.

Lemma FieldType_eqb_eq (a b : FieldType) : FieldType_eqb a b = true <-> a = b.
Proof. destruct a, b; simpl; split; intros H; congruence. Qed.

Lemma Label_eqb_eq (a b : Label) : Label_eqb a b = true <-> a = b.
Proof. destruct a, b; simpl; split; intros H; congruence. Qed.

Lemma list_array_rows (records items : list Obj) (offsets : list (option Z))
    (values a : Array) (type : DataType) :
  _get_offsets records = Ok offsets ->
  FlattenedIterable records = Ok items ->
  ListArray_from_arrays offsets values type = Ok a ->
  array_len a = length records
  /\ exists offs validity, a = ListArray type offs validity values.
Proof.
  intros Hoff Hitems Ha.
  destruct (FlattenedIterable_sizes _ _ Hitems) as [sizes [H2 _]].
  unfold _get_offsets in Hoff.
  rewrite (_get_offsets_from_running _ _ 0 H2) in Hoff. injection Hoff as <-.
  unfold ListArray_from_arrays in Ha.
  destruct (map Some (running_offsets 0 sizes)) eqn:E.
  { destruct sizes; discriminate. }
  rewrite <- E in Ha. clear E.
  destruct (offsets_fit _ _); [|discriminate]. injection Ha as <-.
  split; [|eauto]. cbn [array_len].
  rewrite offsets_validity_length, length_map, running_offsets_length.
  simpl. symmetry. eapply Forall2_length; eauto.
Qed.

Lemma map_array_rows (records keys_in : list Obj) (offsets : list (option Z))
    (keys items a : Array) :
  _get_offsets records = Ok offsets ->
  MapKeyIterable records = Ok keys_in ->
  MapArray_from_arrays offsets keys items = Ok a ->
  array_len a = length records
  /\ exists offs validity, a = MapArray offs validity keys items.
Proof.
  intros Hoff Hkeys Ha.
  destruct (MapKeyIterable_sizes _ _ Hkeys) as [sizes [H2 _]].
  unfold _get_offsets in Hoff.
  rewrite (_get_offsets_from_running _ _ 0 H2) in Hoff. injection Hoff as <-.
  unfold MapArray_from_arrays in Ha.
  destruct (map Some (running_offsets 0 sizes)) eqn:E.
  { destruct sizes; discriminate. }
  rewrite <- E in Ha. clear E.
  destruct (_ && _); [|discriminate]. injection Ha as <-.
  split; [|eauto]. cbn [array_len].
  rewrite offsets_validity_length, length_map, running_offsets_length.
  simpl. symmetry. eapply Forall2_length; eauto.
Qed.

Lemma field_to_array_rows (fld : FieldDescriptor) (records : list Obj)
    (config : ProtarrowConfig) (a : Array) :
  (forall rs mask cfg b,
      _proto_field_to_array fld rs mask cfg = Ok b ->
      rows_ok (hollow_struct_field fld) rs b) ->
  (forall e, f_message_type fld = Some e ->
     Forall (fun f => forall rs mask cfg b,
                 _proto_field_to_array f rs mask cfg = Ok b ->
                 rows_ok (hollow_struct_field f) rs b)
       (d_fields e)) ->
  field_to_array fld records config = Ok a ->
  rows_ok (hollow_field fld) records a.
Proof.
  intros Hfld Hentry H. unfold field_to_array in H.
  apply rbind_ok in H as [field_values [Hfv H]].
  assert (Hlen : length field_values = length records)
    by (eapply rmapM_length; exact Hfv).
  rewrite hollow_field_eq.
  destruct (is_map_field fld) eqn:Hmap.
  - unfold is_map_field in Hmap.
    destruct (f_message_type fld) as [entry|] eqn:Hmt; [|discriminate].
    rewrite Hmap. rewrite andb_false_r. cbn [andb].
    specialize (Hentry entry eq_refl). rewrite Forall_forall in Hentry.
    unfold _proto_map_to_array in H.
    apply rbind_ok in H as [key_to_array [Hk H]].
    apply rbind_ok in H as [value_to_array [Hv H]].
    apply rbind_ok in H as [offsets [Hoff H]].
    apply rbind_ok in H as [key_records [Hkr H]].
    apply rbind_ok in H as [keys [Hkeys H]].
    apply rbind_ok in H as [value_records [Hvr H]].
    apply rbind_ok in H as [values [Hvalues H]].
    unfold entry_to_array in Hk, Hv.
    destruct (fields_by_name (d_fields entry) "key") as [kf|] eqn:Hkf;
      [|discriminate].
    destruct (fields_by_name (d_fields entry) "value") as [vf|] eqn:Hvf;
      [|discriminate].
    injection Hk as <-. injection Hv as <-.
    apply fields_by_name_In in Hkf as [Hkf _]. apply fields_by_name_In in Hvf as [Hvf _].
    apply (Hentry kf Hkf) in Hkeys. apply (Hentry vf Hvf) in Hvalues.
    destruct (map_array_rows _ _ _ _ _ _ Hoff Hkr H) as [Hrows [offs [val ->]]].
    split; [|congruence]. cbn [struct_children_aligned].
    split; [apply Hkeys|apply Hvalues].
  - destruct (Label_eqb (f_label fld) LABEL_REPEATED) eqn:Hrep.
    + assert (Hh : match f_message_type fld with
                   | Some d =>
                       FieldType_eqb (f_type fld) TYPE_MESSAGE
                       && negb (d_map_entry d) && negb true
                       && negb (is_some (d_well_known d)) && hollow d
                   | None => false
                   end = false).
      { destruct (f_message_type fld); [|reflexivity].
        rewrite andb_false_r. reflexivity. }
      rewrite Hh. clear Hh.
      unfold _repeated_proto_to_array in H.
      apply rbind_ok in H as [offsets [Hoff H]].
      apply rbind_ok in H as [items [Hitems H]].
      apply rbind_ok in H as [array [Harray H]].
      apply Hfld in Harray.
      destruct (list_array_rows _ _ _ _ _ _ Hoff Hitems H) as [Hrows [offs [val ->]]].
      split; [|congruence]. cbn [struct_children_aligned]. apply Harray.
    + apply rbind_ok in H as [mask [_ H]]. apply Hfld in H.
      unfold hollow_struct_field in H. unfold is_map_field in Hmap.
      destruct (f_message_type fld) as [d|].
      * rewrite Hmap. cbn [negb]. rewrite !andb_true_r.
        destruct H as [Hal Hrows]. split; [assumption|].
        rewrite Hrows, Hlen. reflexivity.
      * destruct H as [Hal Hrows]. split; [assumption|].
        rewrite Hrows, Hlen. reflexivity.
Qed.

Lemma struct_rows (rs : list Obj) (fields : list FieldDescriptor)
    (cols : list (Field * Array)) (n : nat) :
  Forall2 (fun f c => rows_ok (hollow_field f) rs (snd c)) fields cols ->
  Forall (fun c => array_len (snd c) = n) cols ->
  cols <> [] ->
  n = if forallb hollow_field fields then O else length rs.
Proof.
  induction 1 as [|f c fs cs [_ Hc] Hrest IH]; intros Hlens Hne; [contradiction|].
  inversion Hlens as [|? ? Hn Hlens']; subst. cbn [forallb].
  destruct cs as [|c' cs].
  - inversion Hrest; subst. cbn [forallb]. rewrite andb_true_r. exact Hc.
  - specialize (IH Hlens' ltac:(discriminate)).
    destruct (hollow_field f), (forallb hollow_field fs); cbn [andb]; congruence.
Qed.

Lemma builder_rows (d : Descriptor) :
  (forall rs mask cfg b,
      _message_to_array d rs mask cfg = Ok b -> rows_ok (hollow d) rs b)
  /\ Forall (fun f => forall rs mask cfg b,
                 _proto_field_to_array f rs mask cfg = Ok b ->
                 rows_ok (hollow_struct_field f) rs b)
       (d_fields d).
Proof.
  apply (Descriptor_deep_ind
           (fun d => forall rs mask cfg b,
                _message_to_array d rs mask cfg = Ok b -> rows_ok (hollow d) rs b)
           (fun f => forall rs mask cfg b,
                _proto_field_to_array f rs mask cfg = Ok b ->
                rows_ok (hollow_struct_field f) rs b)).
  - clear d. intros d Hfs rs mask cfg b H.
    rewrite _message_to_array_eq in H.
    apply rbind_ok in H as [cols [Hcols H]].
    assert (Hchildren :
              Forall2 (fun f c => rows_ok (hollow_field f) rs (snd c))
                (d_fields d) cols).
    { apply rmapM_Forall2 in Hcols. clear H.
      induction Hcols as [|f c fs cs Hc _ IH]; [constructor|].
      inversion Hfs as [|? ? [Hf He] Hrest]; subst.
      constructor; [|apply IH; assumption].
      apply field_to_column_field in Hc as [_ [_ [_ Hc]]].
      eapply field_to_array_rows; eauto. }
    rewrite hollow_fields.
    apply StructArray_from_arrays_inv in H
      as [[Hnil ->]|[Hne [_ [v [-> [Hlens _]]]]]].
    + destruct cols; [|discriminate]. inversion Hchildren; subst.
      split; [exact I|reflexivity].
    + rewrite Forall_map in Hlens. split.
      * apply struct_children_aligned_struct. rewrite Forall_map.
        assert (Hal : Forall (fun c => struct_children_aligned (snd c)) cols).
        { clear - Hchildren.
          induction Hchildren as [|f c fs cs [Hc _] _ IH]; constructor; auto. }
        rewrite Forall_forall in *. intros c Hin. split; auto.
      * cbn [array_len]. eapply struct_rows; eauto.
        intros ->. apply Hne. reflexivity.
  - clear d. intros f IH rs mask cfg b H.
    rewrite _proto_field_to_array_eq in H.
    assert (Hprim : forall conv nv ty,
               records_to_array rs mask conv nv ty = Ok b -> rows_ok false rs b).
    { intros conv nv ty Hb.
      apply records_to_array_inv in Hb as [vs [slots [_ [_ [-> Hl]]]]].
      split; [exact I|exact Hl]. }
    unfold hollow_struct_field.
    destruct (f_type f) eqn:Ht;
      try (destruct (_PROTO_PRIMITIVE_TYPE_TO_PYARROW _); [|discriminate];
           destruct (f_message_type f); cbn [FieldType_eqb andb];
           eapply Hprim; eassumption).
    + destruct (f_message_type f) as [d|]; [|discriminate].
      destruct (d_well_known d).
      * cbn [is_some negb andb]. rewrite andb_false_r. cbn [andb].
        eapply Hprim; eassumption.
      * cbn [FieldType_eqb is_some negb andb]. eapply IH; [reflexivity|eassumption].
    + destruct (f_enum_type f); [|discriminate].
      apply rbind_ok in H as [conv [_ H]].
      destruct (f_message_type f); cbn [FieldType_eqb andb]; eapply Hprim; eassumption.
Qed.

(** ** The extractor, field by field *)

Lemma _extract_array_messages_eq (d : Descriptor) (array : Array)
    (messages : MsgIter) :
  _extract_array_messages d array messages
  = match array with
    | StructArray struct_fields _ _ =>
        mfor (d_fields d) (extract_child struct_fields array messages)
    | _ => mraise AssertionError
    end.
Proof.
  destruct d as [n w m fs]. cbn [_extract_array_messages d_fields].
  destruct array; try reflexivity.
  induction fs as [|fld rest IH]; [reflexivity|].
  cbn [mfor]. rewrite <- IH. reflexivity.
Qed.

Lemma _extract_field_eq (fld : FieldDescriptor) (array : Array)
    (messages : MsgIter) :
  _extract_field fld array messages
  = do array <- mlift (_prepare_array array);
    if Label_eqb (f_label fld) LABEL_REPEATED then
      if is_custom_field fld then
        if is_map_field fld then
          match f_message_type fld with
          | Some entry =>
              _extract_map_field array fld messages
                (entry_field entry "key") (entry_field entry "value")
                (value_children entry)
          | None => mraise AttributeError
          end
        else _extract_repeated_message array fld messages (extract_children fld)
      else _extract_repeated_primitive_assigner array fld messages
    else
      match special_type fld with
      | Some extractor => extract_special array fld messages extractor
      | None =>
          if FieldType_eqb (f_type fld) TYPE_MESSAGE
             && negb (is_some (nullable_type fld))
          then _extract_struct_field array fld messages (extract_children fld)
          else extract_plain array fld messages
      end.
Proof.
  destruct fld as [name t l mt e hp].
  cbn [_extract_field f_label f_type f_message_type].
  destruct mt as [[n' w' m' es]|]; [|reflexivity].
  assert (Hv :
    (fix value_children (es0 : list FieldDescriptor) : Array -> MsgIter -> M unit :=
       match es0 with
       | [] => fun _ _ => mraise KeyError
       | e0 :: es' =>
           if String.eqb (f_name e0) "value" then
             match e0 with
             | MkFieldDescriptor _ _ _ (Some vd) _ _ => _extract_array_messages vd
             | _ => fun _ _ => mraise AttributeError
             end
           else value_children es'
       end) es
    = value_children (MkDescriptor n' w' m' es)).
  { unfold value_children. cbn [d_fields].
    induction es as [|e0 es IH]; [reflexivity|].
    cbn [fields_by_name]. destruct (String.eqb (f_name e0) "value"); [|exact IH].
    destruct e0 as [? ? ? [vd|] ? ?]; reflexivity. }
  rewrite Hv. reflexivity.
Qed.

(** ** What an extraction leaves alone *)

Lemma frame_refl (n : nat) (g : string) (h : Heap) : frame n g h h.
Proof. split; [lia|reflexivity]. Qed.

Lemma frame_trans (n : nat) (g : string) (h1 h2 h3 : Heap) :
  frame n g h1 h2 -> frame n g h2 h3 -> frame n g h1 h3.
Proof.
  intros [L1 S1] [L2 S2]. split; [lia|].
  intros i name Hi Hn. rewrite S2, S1 by assumption. reflexivity.
Qed.

Lemma mbind_ok {A B} (c : M A) (k : A -> M B) (h h' : Heap) (b : B) :
  mbind c k h = Ok (b, h') ->
  exists a h1, c h = Ok (a, h1) /\ k a h1 = Ok (b, h').
Proof.
  unfold mbind. destruct (c h) as [[a h1]|]; [eauto|discriminate].
Qed.

Lemma mlift_ok {A} (r : Result A) (h h' : Heap) (a : A) :
  mlift r h = Ok (a, h') -> r = Ok a /\ h' = h.
Proof.
  unfold mlift. destruct r; [|discriminate]. intros H. injection H as <- <-. auto.
Qed.

Lemma framed_ret {A} (n : nat) (g : string) (a : A) : framed n g (mret a).
Proof. intros h x h' _ H. injection H as _ <-. apply frame_refl. Qed.

Lemma framed_raise {A} (n : nat) (g : string) (e : Exception) :
  framed n g (@mraise A e).
Proof. intros h x h' _ H. discriminate. Qed.

Lemma framed_lift {A} (n : nat) (g : string) (r : Result A) : framed n g (mlift r).
Proof. intros h x h' _ H. apply mlift_ok in H as [_ ->]. apply frame_refl. Qed.

Lemma framed_bind {A B} (n : nat) (g : string) (c : M A) (k : A -> M B) :
  framed n g c -> (forall a, framed n g (k a)) -> framed n g (mbind c k).
Proof.
  intros Hc Hk h x h' Hn H. apply mbind_ok in H as [a [h1 [H1 H2]]].
  pose proof (Hc _ _ _ Hn H1) as F1.
  eapply frame_trans; [exact F1|]. eapply Hk; [|exact H2]. destruct F1. lia.
Qed.

Lemma framed_mfor {A} (n : nat) (g : string) (l : list A) (body : A -> M unit) :
  Forall (fun x => framed n g (body x)) l -> framed n g (mfor l body).
Proof.
  induction 1 as [|x l Hx _ IH]; cbn [mfor]; [apply framed_ret|].
  apply framed_bind; [exact Hx|]. intros _. exact IH.
Qed.

Lemma framed_mmapM {A B} (n : nat) (g : string) (l : list A) (f : A -> M B) :
  Forall (fun x => framed n g (f x)) l -> framed n g (mmapM f l).
Proof.
  induction 1 as [|x l Hx _ IH]; cbn [mmapM]; [apply framed_ret|].
  apply framed_bind; [exact Hx|]. intros y.
  apply framed_bind; [exact IH|]. intros ys. apply framed_ret.
Qed.

Lemma framed_if {A} (n : nat) (g : string) (b : bool) (c1 c2 : M A) :
  framed n g c1 -> framed n g c2 -> framed n g (if b then c1 else c2).
Proof. destruct b; auto. Qed.

Lemma nth_error_replace_nth {A} (l : list A) (i j : nat) (x : A) :
  nth_error (replace_nth i x l) j
  = if Nat.eqb i j then
      match nth_error l j with Some _ => Some x | None => None end
    else nth_error l j.
Proof.
  revert i j. induction l as [|y l IH]; intros i j.
  - destruct i, j; simpl; try reflexivity. destruct (Nat.eqb i j); reflexivity.
  - destruct i, j; simpl; try reflexivity. apply IH.
Qed.

Lemma replace_nth_length {A} (l : list A) (i : nat) (x : A) :
  length (replace_nth i x l) = length l.
Proof.
  revert i. induction l as [|y l IH]; intros [|i]; simpl; auto.
Qed.

Lemma update_assoc_other {V} (g : string) (f : V -> Result V)
    (l l' : list (string * V)) (name : string) :
  update_assoc g f l = Ok l' -> name <> g -> assoc l' name = assoc l name.
Proof.
  revert l'. induction l as [|[k v] l IH]; intros l' H Hn; simpl in H;
    [discriminate|].
  destruct (String.eqb_spec k g) as [E|N].
  - apply rbind_ok in H as [v' [_ H]]. injection H as <-. simpl.
    destruct (String.eqb_spec k name); [congruence|reflexivity].
  - apply rbind_ok in H as [l'' [Hl H]]. injection H as <-. simpl.
    rewrite (IH _ Hl Hn). reflexivity.
Qed.

Lemma modify_at_other (p : Path) (s : Step) (f : Msg -> Result Msg) (m m' : Msg)
    (name : string) :
  modify_at (s :: p) f m = Ok m' -> name <> step_name s ->
  mslot m' name = mslot m name.
Proof.
  cbn [modify_at]. destruct m as [| | | |fields]; try discriminate.
  intros H Hn. apply rbind_ok in H as [fields' [Hf H]]. injection H as <-.
  cbn [mslot]. destruct s; cbn [step_name] in Hn;
    eapply update_assoc_other; eauto.
Qed.

Lemma heap_modify_ok (r : Ref) (f : Msg -> Result Msg) (h h' : Heap) (x : unit) :
  heap_modify r f h = Ok (x, h') ->
  exists m m', nth_error h (ref_root r) = Some m
               /\ modify_at (ref_path r) f m = Ok m'
               /\ h' = replace_nth (ref_root r) m' h.
Proof.
  unfold heap_modify. destruct (nth_error h (ref_root r)) as [m|]; [|discriminate].
  intros H. apply rbind_ok in H as [m' [Hm H]]. injection H as <-. eauto.
Qed.

Lemma slot_replace_nth (h : Heap) (r i : nat) (m m' : Msg) (name : string) :
  nth_error h r = Some m ->
  (r = i -> mslot m' name = mslot m name) ->
  slot (replace_nth r m' h) i name = slot h i name.
Proof.
  intros Hr Hm. unfold slot. rewrite nth_error_replace_nth.
  destruct (Nat.eqb_spec r i) as [E|N]; [|reflexivity].
  subst i. rewrite Hr. specialize (Hm eq_refl).
  unfold mslot in Hm. destruct m', m; simpl in *; congruence.
Qed.

Lemma framed_heap_modify (n : nat) (g : string) (r : Ref) (f : Msg -> Result Msg) :
  under n g r \/ (ref_path r = [] /\ writes_only g f) ->
  framed n g (heap_modify r f).
Proof.
  intros Hr h x h' Hn H. apply heap_modify_ok in H as [m [m' [Hm [Hmod ->]]]].
  split; [rewrite replace_nth_length; lia|].
  intros i name Hi Hname. apply (slot_replace_nth _ _ _ _ _ _ Hm). intros E. subst i.
  destruct Hr as [[Hroot|[s [p [Hp Hs]]]]|[Hp Hw]].
  - lia.
  - rewrite Hp in Hmod. eapply modify_at_other; eauto. congruence.
  - rewrite Hp in Hmod. cbn [modify_at] in Hmod. eapply Hw; eauto.
Qed.

Lemma framed_heap_alloc (n : nat) (g : string) (m : Msg) :
  framed n g (heap_alloc m).
Proof.
  intros h x h' Hn H. unfold heap_alloc in H. injection H as _ <-.
  split; [rewrite length_app; lia|].
  intros i name Hi _. unfold slot. rewrite nth_error_app1 by lia. reflexivity.
Qed.

Lemma writes_only_update (g : string) (f : Slot -> Result Slot) :
  writes_only g
    (fun m => match m with
              | MStruct fields =>
                  let? fields' := update_assoc g f fields in Ok (MStruct fields')
              | _ => Raise AttributeError
              end).
Proof.
  intros m m' H name Hn. destruct m as [| | | |fields]; try discriminate.
  apply rbind_ok in H as [fields' [Hf H]]. injection H as <-.
  cbn [mslot]. eapply update_assoc_other; eauto.
Qed.

Lemma writes_only_setattr (fld : FieldDescriptor) (v : Obj) :
  writes_only (f_name fld) (msg_setattr fld v).
Proof. apply writes_only_update. Qed.

Lemma writes_only_append (fld : FieldDescriptor) (v : Obj) :
  writes_only (f_name fld) (msg_append fld v).
Proof. apply writes_only_update. Qed.

Lemma writes_only_map_setitem (name : string) (kt vt : FieldType) (k v : Obj) :
  writes_only name (msg_map_setitem name kt vt k v).
Proof. apply writes_only_update. Qed.

Lemma writes_only_map_create (name : string) (k : PyVal) (default : Msg) :
  writes_only name (msg_map_create name k default).
Proof. apply writes_only_update. Qed.

Lemma under_ref_ok (n : nat) (g : string) (fld : FieldDescriptor) (r : Ref) :
  under n g r -> ref_ok n g fld r.
Proof. intros H. left. exact H. Qed.

Lemma ref_child_under (n : nat) (g : string) (fld : FieldDescriptor) (r : Ref)
    (s : Step) :
  ref_ok n g fld r -> step_name s = f_name fld -> under n g (ref_child r s).
Proof.
  intros [[Hroot|[s0 [p [Hp Hs0]]]]|[Hp Hg]] Hs; unfold ref_child.
  - left. exact Hroot.
  - right. cbn [ref_path]. rewrite Hp. exists s0, (p ++ [s]). auto.
  - right. cbn [ref_path]. rewrite Hp. exists s, []. split; [reflexivity|congruence].
Qed.

Lemma framed_modify_field (n : nat) (g : string) (fld : FieldDescriptor) (r : Ref)
    (f : Msg -> Result Msg) :
  ref_ok n g fld r -> writes_only (f_name fld) f -> framed n g (heap_modify r f).
Proof.
  intros [Hu|[Hp Hg]] Hw; apply framed_heap_modify; [left; exact Hu|].
  right. split; [exact Hp|]. rewrite <- Hg. exact Hw.
Qed.

Lemma framed_map_getitem (n : nat) (g : string) (fld : FieldDescriptor) (r : Ref)
    (kt : FieldType) (default : Msg) (key : Obj) :
  ref_ok n g fld r -> framed n g (map_getitem r (f_name fld) kt default key).
Proof.
  intros Hr. unfold map_getitem.
  apply framed_bind; [apply framed_lift|]. intros k h x h' Hn H.
  destruct (heap_lookup _ h).
  - injection H as _ <-. apply frame_refl.
  - destruct (heap_modify r (msg_map_create (f_name fld) k default) h)
      as [[u h1]|] eqn:Hm; [|discriminate].
    injection H as _ <-.
    eapply (framed_modify_field n g fld r); eauto. apply writes_only_map_create.
Qed.

Lemma map_getitem_ref (r : Ref) (name : string) (kt : FieldType) (default : Msg)
    (key : Obj) (h h' : Heap) (entry : Ref) :
  map_getitem r name kt default key h = Ok (entry, h') ->
  exists k, entry = ref_child r (SEntry name k).
Proof.
  unfold map_getitem. intros H. apply mbind_ok in H as [k [h1 [Hk H]]].
  exists k. destruct (heap_lookup _ h1).
  - injection H as <- _. reflexivity.
  - destruct (heap_modify _ _ h1) as [[u h2]|]; [|discriminate].
    injection H as <- _. reflexivity.
Qed.

(** One pass over an iterable only adds throw-away messages to the store. *)
Lemma framed_iterate (n : nat) (g : string) (it : MsgIter) :
  framed n g (iterate it).
Proof.
  induction it as [refs|parents IH fld mask|parents IH fld]; cbn [iterate].
  - apply framed_ret.
  - destruct (f_message_type fld); [|apply framed_raise].
    apply framed_bind; [apply framed_heap_alloc|]. intros fake.
    apply framed_bind; [exact IH|]. intros refs. apply framed_ret.
  - apply framed_bind; [exact IH|]. intros refs.
    apply framed_bind; [|intros; apply framed_ret].
    apply framed_mmapM. apply Forall_forall. intros r _ h x h' Hn H.
    destruct (heap_len r (f_name fld) h); [|discriminate].
    injection H as _ <-. apply frame_refl.
Qed.

Lemma mmapM_ok_Forall {A B} (P : B -> Prop) (f : A -> M B) (l : list A)
    (h h' : Heap) (ys : list B) :
  (forall x h1 y h2, In x l -> f x h1 = Ok (y, h2) -> P y) ->
  mmapM f l h = Ok (ys, h') -> Forall P ys.
Proof.
  revert h h' ys. induction l as [|x l IH]; intros h h' ys Hf H; cbn [mmapM] in H.
  - injection H as <- _. constructor.
  - apply mbind_ok in H as [y [h1 [Hy H]]].
    apply mbind_ok in H as [ys' [h2 [Hys H]]]. injection H as <- _.
    constructor.
    + eapply Hf; [left; reflexivity|exact Hy].
    + eapply IH; [|exact Hys]. intros. eapply Hf; [right|]; eassumption.
Qed.

Lemma it_under_optional (n : nat) (g : string) (fld : FieldDescriptor)
    (parents : MsgIter) (mask : list bool) :
  it_ok n g fld parents ->
  it_under n g (OptionalNestedIterable parents fld mask).
Proof.
  intros Hp h refs h' Hn H. cbn [iterate] in H.
  destruct (f_message_type fld) as [d|]; [|discriminate].
  apply mbind_ok in H as [fake [h1 [Hfake H]]].
  apply mbind_ok in H as [prefs [h2 [Hprefs H]]]. injection H as <- _.
  unfold heap_alloc in Hfake. injection Hfake as <- <-.
  assert (Hn1 : (n <= length (h ++ [default_msg d]))%nat)
    by (rewrite length_app; lia).
  pose proof (Hp _ _ _ Hn1 Hprefs) as Hok.
  apply Forall_forall. intros r Hr. apply in_map_iff in Hr as [[p v] [<- Hin]].
  apply in_combine_l in Hin. rewrite Forall_forall in Hok.
  cbn [fst snd]. destruct v.
  - eapply ref_child_under; [apply Hok; exact Hin|reflexivity].
  - left. cbn [ref_root]. exact Hn.
Qed.

Lemma it_under_repeated (n : nat) (g : string) (fld : FieldDescriptor)
    (parents : MsgIter) :
  it_ok n g fld parents ->
  it_under n g (RepeatedNestedIterable parents fld).
Proof.
  intros Hp h refs h' Hn H. cbn [iterate] in H.
  apply mbind_ok in H as [prefs [h1 [Hprefs H]]].
  apply mbind_ok in H as [children [h2 [Hch H]]]. injection H as <- _.
  pose proof (Hp _ _ _ Hn Hprefs) as Hok. rewrite Forall_forall in Hok.
  assert (Hall : Forall (Forall (under n g)) children).
  { eapply (mmapM_ok_Forall (Forall (under n g))); [|exact Hch].
    intros r ha cs hb Hin Hr. cbn beta in Hr.
    destruct (heap_len r (f_name fld) ha); [|discriminate].
    injection Hr as <- _. apply Forall_forall. intros c Hc.
    apply in_map_iff in Hc as [i [<- _]].
    eapply ref_child_under; [apply Hok; exact Hin|reflexivity]. }
  clear - Hall. induction Hall as [|c cs Hc _ IH]; cbn [concat]; [constructor|].
  apply Forall_app. split; assumption.
Qed.

Lemma it_under_ok (n : nat) (g : string) (fld : FieldDescriptor) (it : MsgIter) :
  it_under n g it -> it_ok n g fld it.
Proof.
  intros H h refs h' Hn Hi. eapply Forall_impl; [|eapply H; eauto].
  intros r. apply under_ref_ok.
Qed.

Lemma framed_bind_iterate {B} (n : nat) (g : string) (fld : FieldDescriptor)
    (it : MsgIter) (k : list Ref -> M B) :
  it_ok n g fld it ->
  (forall refs, Forall (ref_ok n g fld) refs -> framed n g (k refs)) ->
  framed n g (mbind (iterate it) k).
Proof.
  intros Hit Hk h x h' Hn H. apply mbind_ok in H as [refs [h1 [Hi H]]].
  pose proof (framed_iterate n g it _ _ _ Hn Hi) as F1.
  eapply frame_trans; [exact F1|].
  eapply Hk; [eapply Hit; eauto| |exact H]. destruct F1. lia.
Qed.

Lemma Forall_combine_l {A B} (P : A -> Prop) (Q : A * B -> Prop) (l : list A)
    (l' : list B) :
  Forall P l -> (forall a b, P a -> Q (a, b)) -> Forall Q (combine l l').
Proof.
  intros H HQ. apply Forall_forall. intros [a b] Hin.
  apply HQ. rewrite Forall_forall in H. apply H.
  eapply in_combine_l; eauto.
Qed.

Lemma repeat_refs_Forall (P : Ref -> Prop) (refs : list Ref) (sizes : list Z) :
  Forall P refs -> Forall P (repeat_refs refs sizes).
Proof.
  intros H. revert sizes. induction H as [|r refs Hr _ IH]; intros sizes.
  - constructor.
  - destruct sizes as [|size sizes]; cbn [repeat_refs]; [constructor|].
    apply Forall_app. split; [|apply IH].
    apply Forall_forall. intros x Hx. apply repeat_spec in Hx. subst. exact Hr.
Qed.

Lemma assigner_targets_Forall (P : Ref -> Prop) (refs targets : list Ref)
    (offsets : list Z) :
  Forall P refs -> assigner_targets refs offsets = Ok targets -> Forall P targets.
Proof.
  intros H Ht. unfold assigner_targets in Ht. destruct refs as [|r refs].
  - injection Ht as <-. constructor.
  - apply rbind_ok in Ht as [sizes [_ Ht]]. injection Ht as <-.
    apply (repeat_refs_Forall P (r :: refs) sizes). exact H.
Qed.

Lemma framed_bind_targets {B} (n : nat) (g : string) (fld : FieldDescriptor)
    (refs : list Ref) (offsets : list Z) (k : list Ref -> M B) :
  Forall (ref_ok n g fld) refs ->
  (forall targets, Forall (ref_ok n g fld) targets -> framed n g (k targets)) ->
  framed n g (mbind (mlift (assigner_targets refs offsets)) k).
Proof.
  intros Hrefs Hk h x h' Hn H. apply mbind_ok in H as [targets [h1 [Ht H]]].
  apply mlift_ok in Ht as [Ht ->].
  eapply Hk; [eapply assigner_targets_Forall; eauto|exact Hn|exact H].
Qed.

Lemma framed_extract_special (n : nat) (g : string) (fld : FieldDescriptor)
    (array : Array) (it : MsgIter) (extractor : Scalar -> Result Obj) :
  it_ok n g fld it -> framed n g (extract_special array fld it extractor).
Proof.
  intros Hit. unfold extract_special.
  apply (framed_bind_iterate n g fld); [exact Hit|]. intros refs Hrefs.
  apply framed_mfor. eapply Forall_combine_l; [exact Hrefs|].
  intros r sc Hr. cbn [fst snd]. apply framed_if; [|apply framed_ret].
  apply framed_bind; [apply framed_lift|]. intros v.
  apply framed_heap_modify. left. eapply ref_child_under; [exact Hr|reflexivity].
Qed.

Lemma framed_PlainAssigner_call (n : nat) (g : string) (fld : FieldDescriptor)
    (converter : Scalar -> Result Obj) (r : Ref) (sc : Scalar) :
  ref_ok n g fld r -> framed n g (PlainAssigner_call fld converter r sc).
Proof.
  intros Hr. unfold PlainAssigner_call. apply framed_if; [|apply framed_ret].
  apply framed_bind; [apply framed_lift|]. intros v.
  assert (Hw : framed n g
                 match nullable_type fld with
                 | Some w =>
                     heap_modify (ref_child r (SField (f_name fld)))
                       (msg_set_value w v)
                 | None => heap_modify r (msg_setattr fld v)
                 end).
  { destruct (nullable_type fld).
    - apply framed_heap_modify. left.
      eapply ref_child_under; [exact Hr|reflexivity].
    - apply (framed_modify_field n g fld); [exact Hr|apply writes_only_setattr]. }
  destruct v; try exact Hw. apply framed_ret.
Qed.

Lemma framed_extract_plain (n : nat) (g : string) (fld : FieldDescriptor)
    (array : Array) (it : MsgIter) :
  it_ok n g fld it -> framed n g (extract_plain array fld it).
Proof.
  intros Hit. unfold extract_plain.
  apply framed_bind; [apply framed_lift|]. intros converter.
  apply (framed_bind_iterate n g fld); [exact Hit|]. intros refs Hrefs.
  apply framed_mfor. eapply Forall_combine_l; [exact Hrefs|].
  intros r sc Hr. cbn [fst snd]. apply framed_if; [|apply framed_ret].
  apply framed_PlainAssigner_call. exact Hr.
Qed.

Lemma framed_extract_repeated_primitive (n : nat) (g : string)
    (fld : FieldDescriptor) (array : Array) (it : MsgIter) :
  it_ok n g fld it ->
  framed n g (_extract_repeated_primitive_assigner array fld it).
Proof.
  intros Hit. unfold _extract_repeated_primitive_assigner.
  apply framed_bind; [apply framed_lift|]. intros offsets.
  apply framed_bind; [apply framed_lift|]. intros converter.
  apply framed_bind; [apply framed_lift|]. intros values0.
  apply framed_bind; [apply framed_lift|]. intros values.
  apply (framed_bind_iterate n g fld); [exact Hit|]. intros refs Hrefs.
  apply (framed_bind_targets n g fld); [exact Hrefs|]. intros targets Ht.
  apply framed_mfor. eapply Forall_combine_l; [exact Ht|].
  intros r sc Hr. cbn [fst snd].
  apply framed_bind; [apply framed_lift|]. intros v.
  apply (framed_modify_field n g fld); [exact Hr|apply writes_only_append].
Qed.

Lemma framed_extract_repeated_message (n : nat) (g : string)
    (fld : FieldDescriptor) (array : Array) (it : MsgIter)
    (children : Array -> MsgIter -> M unit) :
  it_ok n g fld it ->
  (forall arr it', it_under n g it' -> framed n g (children arr it')) ->
  framed n g (_extract_repeated_message array fld it children).
Proof.
  intros Hit Hch. unfold _extract_repeated_message.
  destruct array; try apply framed_raise.
  destruct (f_message_type fld); [|apply framed_raise].
  apply (framed_bind_iterate n g fld); [exact Hit|]. intros refs Hrefs.
  apply (framed_bind_targets n g fld); [exact Hrefs|]. intros targets Ht.
  apply framed_bind.
  - apply framed_mfor. eapply Forall_combine_l; [exact Ht|].
    intros r sc Hr. cbn [fst snd].
    apply (framed_modify_field n g fld); [exact Hr|apply writes_only_append].
  - intros _. apply Hch. apply it_under_repeated. exact Hit.
Qed.

Lemma framed_extract_struct_field (n : nat) (g : string)
    (fld : FieldDescriptor) (array : Array) (it : MsgIter)
    (children : Array -> MsgIter -> M unit) :
  it_ok n g fld it ->
  (forall arr it', it_under n g it' -> framed n g (children arr it')) ->
  framed n g (_extract_struct_field array fld it children).
Proof.
  intros Hit Hch. unfold _extract_struct_field.
  apply Hch. apply it_under_optional. exact Hit.
Qed.

Lemma framed_bind_post {A B} (n : nat) (g : string) (Q : A -> Prop) (c : M A)
    (k : A -> M B) :
  framed n g c ->
  (forall h x h', c h = Ok (x, h') -> Q x) ->
  (forall x, Q x -> framed n g (k x)) ->
  framed n g (mbind c k).
Proof.
  intros Hc HQ Hk h x h' Hn H. apply mbind_ok in H as [a [h1 [H1 H2]]].
  pose proof (Hc _ _ _ Hn H1) as F1.
  eapply frame_trans; [exact F1|].
  eapply Hk; [eapply HQ; exact H1| |exact H2]. destruct F1. lia.
Qed.

Lemma it_under_messages (n : nat) (g : string) (refs : list Ref) :
  Forall (under n g) refs -> it_under n g (Messages refs).
Proof. intros H h rs h' _ Hi. injection Hi as <- _. exact H. Qed.

Lemma framed_extract_map_field (n : nat) (g : string)
    (fld : FieldDescriptor) (array : Array) (it : MsgIter)
    (key_type value_type : Result FieldDescriptor)
    (children : Array -> MsgIter -> M unit) :
  it_ok n g fld it ->
  (forall arr it', it_under n g it' -> framed n g (children arr it')) ->
  framed n g (_extract_map_field array fld it key_type value_type children).
Proof.
  intros Hit Hch. unfold _extract_map_field.
  destruct array; try apply framed_raise.
  apply framed_bind; [apply framed_lift|]. intros vt.
  destruct (is_custom_field vt).
  - apply framed_bind; [apply framed_lift|]. intros kt.
    apply framed_bind; [apply framed_lift|]. intros converter.
    apply (framed_bind_iterate n g fld); [exact Hit|]. intros refs Hrefs.
    apply (framed_bind_targets n g fld); [exact Hrefs|]. intros targets Ht.
    apply (framed_bind_post n g (Forall (under n g))).
    + apply framed_mmapM. eapply Forall_combine_l; [exact Ht|].
      intros r sc Hr. cbn [fst snd].
      apply framed_bind; [apply framed_lift|]. intros key.
      destruct (f_message_type vt); [|apply framed_raise].
      apply framed_map_getitem. exact Hr.
    + intros h values h' Hv.
      eapply (mmapM_ok_Forall (under n g)); [|exact Hv].
      intros [r sc] h1 y h2 Hin Hy. cbn [fst snd] in Hy.
      apply mbind_ok in Hy as [key [h3 [_ Hy]]].
      destruct (f_message_type vt); [|discriminate].
      apply map_getitem_ref in Hy as [k ->].
      eapply ref_child_under; [|reflexivity].
      rewrite Forall_forall in Ht. apply Ht. eapply in_combine_l; eauto.
    + intros values Hvalues. apply Hch. apply it_under_messages. exact Hvalues.
  - apply framed_bind; [apply framed_lift|]. intros kt.
    apply framed_bind; [apply framed_lift|]. intros kc.
    apply framed_bind; [apply framed_lift|]. intros vc.
    apply framed_bind; [apply framed_lift|]. intros items'.
    apply (framed_bind_iterate n g fld); [exact Hit|]. intros refs Hrefs.
    apply (framed_bind_targets n g fld); [exact Hrefs|]. intros targets Ht.
    apply framed_mfor. eapply Forall_combine_l; [exact Ht|].
    intros r [ksc vsc] Hr. cbn [fst snd].
    apply framed_bind; [apply framed_lift|]. intros k.
    apply framed_bind;
      [destruct (is_valid vsc); [apply framed_lift|apply framed_ret]|].
    intros v. apply framed_if.
    + destruct (f_message_type vt); [|apply framed_raise].
      apply (framed_bind_post n g (under n g)).
      * apply framed_map_getitem. exact Hr.
      * intros h e h' He. apply map_getitem_ref in He as [k' ->].
        eapply ref_child_under; [exact Hr|reflexivity].
      * intros e He.
        assert (Hm : framed n g (heap_modify e (MergeFrom v)))
          by (apply framed_heap_modify; left; exact He).
        destruct v; try exact Hm. apply framed_ret.
    + apply (framed_modify_field n g fld); [exact Hr|apply writes_only_map_setitem].
Qed.

(** Induction on descriptor trees for the extractor, which at a map field
    goes on in the message type of the [value] field of the entry type. *)
Lemma Descriptor_extract_ind (Pd : Descriptor -> Prop) (Pf : FieldDescriptor -> Prop) :
  (forall d, Forall Pf (d_fields d) -> Pd d) ->
  (forall f,
      (forall d, f_message_type f = Some d ->
                 Pd d /\ Forall (fun v => forall vd, f_message_type v = Some vd -> Pd vd)
                           (d_fields d)) ->
      Pf f) ->
  forall d, Pd d /\ Forall Pf (d_fields d).
Proof.
  intros Hd Hf d.
  destruct (Descriptor_tree_both
              (fun d => Pd d
                        /\ Forall Pf (d_fields d)
                        /\ Forall (fun v => forall vd, f_message_type v = Some vd -> Pd vd)
                             (d_fields d))
              (fun f => Pf f /\ forall vd, f_message_type f = Some vd -> Pd vd)) with (d := d)
    as [[H1 [H2 _]] _]; [| |auto].
  - intros n w m fs Hfs. cbn [d_fields].
    assert (HPf : Forall Pf fs)
      by (eapply Forall_impl; [|exact Hfs]; intros f [H _]; exact H).
    split; [apply Hd; exact HPf|]. split; [exact HPf|].
    eapply Forall_impl; [|exact Hfs]. intros f [_ H]. exact H.
  - intros name t l mt e hp IH. split.
    + apply Hf. cbn [f_message_type]. intros d' Hd'.
      destruct (IH d' Hd') as [H1 [_ H3]]. auto.
    + cbn [f_message_type]. intros vd Hvd. apply IH. exact Hvd.
Qed.

(** The frame of the extractor: what [_extract_field] does for a field below
    [g] of the first [n] objects of the store, or for field [g] itself of
    those objects, leaves their other fields as they were. *)
Lemma extractor_framed (d : Descriptor) :
  (forall n g arr it, it_under n g it ->
                      framed n g (_extract_array_messages d arr it))
  /\ Forall (fun f => forall n g arr it, it_ok n g f it ->
                                          framed n g (_extract_field f arr it))
       (d_fields d).
Proof.
  apply (Descriptor_extract_ind
           (fun d => forall n g arr it, it_under n g it ->
                                        framed n g (_extract_array_messages d arr it))
           (fun f => forall n g arr it, it_ok n g f it ->
                                        framed n g (_extract_field f arr it))).
  - clear d. intros d Hfs n g arr it Hit.
    rewrite _extract_array_messages_eq. destruct arr; try apply framed_raise.
    apply framed_mfor. eapply Forall_impl; [|exact Hfs].
    intros f Hf. unfold extract_child.
    destruct (get_field_index fields (f_name f)); [|apply framed_ret].
    apply framed_bind; [apply framed_lift|]. intros child.
    apply Hf. apply it_under_ok. exact Hit.
  - clear d. intros f IH n g arr it Hit.
    rewrite _extract_field_eq.
    apply framed_bind; [apply framed_lift|]. intros array.
    assert (Hch : forall arr' it', it_under n g it' ->
                                   framed n g (extract_children f arr' it')).
    { intros arr' it' Hit'. unfold extract_children.
      destruct (f_message_type f) as [d|]; [|apply framed_raise].
      apply (proj1 (IH d eq_refl)). exact Hit'. }
    repeat apply framed_if.
    + destruct (f_message_type f) as [entry|]; [|apply framed_raise].
      apply framed_extract_map_field; [exact Hit|].
      intros arr' it' Hit'. unfold value_children.
      destruct (fields_by_name (d_fields entry) "value") as [v|] eqn:Hv;
        [|apply framed_raise].
      apply fields_by_name_In in Hv as [Hv _].
      destruct (IH entry eq_refl) as [_ Hvs]. rewrite Forall_forall in Hvs.
      unfold extract_children.
      destruct (f_message_type v) as [vd|] eqn:Hvd; [|apply framed_raise].
      apply (Hvs v Hv vd Hvd). exact Hit'.
    + apply framed_extract_repeated_message; assumption.
    + apply framed_extract_repeated_primitive. exact Hit.
    + destruct (special_type f).
      * apply framed_extract_special. exact Hit.
      * apply framed_if.
        -- apply framed_extract_struct_field; assumption.
        -- apply framed_extract_plain. exact Hit.
Qed.

(** ** The top-level extraction, column by column *)

Lemma it_ok_roots (n : nat) (fld : FieldDescriptor) :
  it_ok n (f_name fld) fld (Messages (root_refs n)).
Proof.
  intros h refs h' _ H. injection H as <- _. apply Forall_forall.
  intros r Hr. apply in_map_iff in Hr as [i [<- _]]. right. auto.
Qed.

Lemma framed_extract_column (rb : RecordBatch) (n : nat) (fld : FieldDescriptor) :
  (forall n g arr it, it_ok n g fld it -> framed n g (_extract_field fld arr it)) ->
  framed n (f_name fld) (extract_column rb (Messages (root_refs n)) fld).
Proof.
  intros Hf. unfold extract_column. apply framed_if; [|apply framed_ret].
  apply framed_bind; [apply framed_lift|]. intros column.
  apply Hf. apply it_ok_roots.
Qed.

Lemma extract_columns_preserve (rb : RecordBatch) (n : nat)
    (fields : list FieldDescriptor) (name : string) (h h' : Heap) (x : unit) :
  Forall (fun f => forall n g arr it, it_ok n g f it ->
                                      framed n g (_extract_field f arr it)) fields ->
  ~ In name (map f_name fields) ->
  (n <= length h)%nat ->
  mfor fields (extract_column rb (Messages (root_refs n))) h = Ok (x, h') ->
  (length h <= length h')%nat
  /\ forall i, (i < n)%nat -> slot h' i name = slot h i name.
Proof.
  intros Hfs. revert h. induction Hfs as [|f fs Hf _ IH]; intros h Hnot Hn H.
  - injection H as _ <-. auto.
  - cbn [mfor] in H. apply mbind_ok in H as [u [h1 [H1 H2]]].
    destruct (framed_extract_column rb n f Hf _ _ _ Hn H1) as [L1 S1].
    cbn [map In] in Hnot.
    destruct (IH h1) as [L2 S2]; [tauto|lia|exact H2|].
    split; [lia|]. intros i Hi. rewrite S2, S1; auto.
Qed.

Lemma record_batch_to_messages_ok (rb : RecordBatch) (d : Descriptor)
    (ms : list Msg) :
  record_batch_to_messages rb d = Ok ms ->
  exists h,
    mfor (d_fields d) (extract_column rb (Messages (root_refs (num_rows rb))))
      (repeat (default_msg d) (num_rows rb)) = Ok (tt, h)
    /\ ms = firstn (num_rows rb) h.
Proof.
  unfold record_batch_to_messages, _extract_record_batch_messages.
  fold (root_refs (num_rows rb)).
  change (fun fld : FieldDescriptor =>
            if is_some (get_field_index (schema rb) (f_name fld))
            then do column <- mlift (record_batch_column rb (f_name fld));
                 _extract_field fld column (Messages (root_refs (num_rows rb)))
            else mret tt)
    with (extract_column rb (Messages (root_refs (num_rows rb)))).
  destruct (mfor _ _ _) as [[[] h]|]; [|discriminate].
  intros H. injection H as <-. eauto.
Qed.

(** [record_batch_to_messages] returns as many messages as the batch has
    rows. *)
Lemma record_batch_to_messages_length (rb : RecordBatch) (d : Descriptor)
    (ms : list Msg) :
  record_batch_to_messages rb d = Ok ms -> length ms = num_rows rb.
Proof.
  intros H. apply record_batch_to_messages_ok in H as [h [Hh ->]].
  assert (Hn : (num_rows rb <= length (repeat (default_msg d) (num_rows rb)))%nat)
    by (rewrite repeat_length; lia).
  assert (Hnot : ~ In "" (map f_name ([] : list FieldDescriptor))) by (intros []).
  assert (L : (num_rows rb <= length h)%nat).
  { clear Hnot. revert Hn Hh. generalize (repeat (default_msg d) (num_rows rb)).
    generalize (proj2 (extractor_framed d)).
    induction 1 as [|f fs Hf _ IH]; intros h0 Hn H.
    - injection H as <-. exact Hn.
    - cbn [mfor] in H. apply mbind_ok in H as [u [h1 [H1 H2]]].
      destruct (framed_extract_column rb _ f Hf _ _ _ Hn H1) as [L1 _].
      apply (IH h1); [lia|exact H2]. }
  apply firstn_length_le. exact L.
Qed.

(** ** Row counts *)

(** X1.  The record batch [messages_to_record_batch] returns has one row per
    input message, unless the message type is hollow (no field at all, or
    singular sub-messages of hollow types only), in which case it has no row
    whatever the number of messages; every column has the rows of the batch,
    and inside the columns the children of every struct array have the rows
    of the struct. *)
Theorem record_batch_rows (records : list Msg) (d : Descriptor)
    (config : ProtarrowConfig) (batch : RecordBatch) :
  messages_to_record_batch records d config = Ok batch ->
  num_rows batch = (if hollow d then O else length records)
  /\ Forall (fun column => array_len column = num_rows batch
                           /\ struct_children_aligned column) (columns batch).
Proof.
  intros H. unfold messages_to_record_batch in H.
  apply rbind_ok in H as [a [Ha Hb]].
  apply (proj1 (builder_rows d)) in Ha. destruct Ha as [Hal Hrows].
  destruct a as [| | |fields children validity]; try discriminate.
  injection Hb as <-. cbn [num_rows columns]. cbn [array_len] in Hrows.
  rewrite length_map in Hrows. split; [exact Hrows|].
  apply struct_children_aligned_struct in Hal. exact Hal.
Qed.

Lemma record_batch_rows_witness :
  exists batch,
    messages_to_record_batch
      [MStruct [("repeated_int32", (false, OList [OVal (PyInt 1)]))];
       MStruct [("repeated_int32", (false, OList []))]]
      WithRepeated default_config = Ok batch
    /\ num_rows batch = 2%nat.
Proof.
  eexists. split; [vm_compute; reflexivity|].
  apply (record_batch_rows
           [MStruct [("repeated_int32", (false, OList [OVal (PyInt 1)]))];
            MStruct [("repeated_int32", (false, OList []))]]
           WithRepeated default_config).
  vm_compute. reflexivity.
Defined.

(** X2.  [record_batch_to_messages], when it returns, returns exactly
    [record_batch.num_rows] messages, whatever the columns hold. *)
Theorem decoded_message_count (rb : RecordBatch) (d : Descriptor) (ms : list Msg) :
  record_batch_to_messages rb d = Ok ms -> length ms = num_rows rb.
Proof. apply record_batch_to_messages_length. Qed.

Lemma decoded_message_count_witness :
  length [MStruct [("repeated_int32", (false, OList [OVal (PyInt 7)]))];
          MStruct [("repeated_int32", (false, OList []))]]
  = num_rows
      {| schema := [field "repeated_int32" (list_ (field "item" int32 false)) true];
         columns := [ListArray (list_ (field "item" int32 false)) [0; 1; 1]
                       [true; true] (PrimitiveArray int32 [Some (PyInt 7)])];
         num_rows := 2 |}.
Proof.
  apply (decoded_message_count _ WithRepeated). vm_compute. reflexivity.
Defined.

(** ** Columns the descriptor does not know *)

Lemma mfor_ext {A} (l : list A) (body body' : A -> M unit) :
  (forall x, In x l -> body x = body' x) -> mfor l body = mfor l body'.
Proof.
  induction l as [|x l IH]; intros H; [reflexivity|].
  cbn [mfor]. rewrite (H x (or_introl eq_refl)), IH; [reflexivity|].
  intros y Hy. apply H. right. exact Hy.
Qed.

Lemma get_field_index_bound (fields : list Field) (name : string) (i : nat) :
  get_field_index fields name = Some i -> (i < length fields)%nat.
Proof.
  revert i. induction fields as [|f fs IH]; intros i H; simpl in H; [discriminate|].
  destruct (String.eqb (field_name f) name).
  - injection H as <-. simpl. lia.
  - destruct (get_field_index fs name) as [j|]; [|discriminate].
    injection H as <-. specialize (IH j eq_refl). simpl. lia.
Qed.

Lemma get_field_index_app (fields : list Field) (extra : Field) (name : string) :
  field_name extra <> name ->
  get_field_index (fields ++ [extra]) name = get_field_index fields name.
Proof.
  intros Hne. induction fields as [|f fs IH]; simpl.
  - destruct (String.eqb_spec (field_name extra) name); [contradiction|reflexivity].
  - destruct (String.eqb (field_name f) name); [reflexivity|].
    rewrite IH. reflexivity.
Qed.

(** X5.  A column whose name is that of no field of the descriptor is ignored
    by [record_batch_to_messages]: a batch with such a column added decodes
    to what the batch without it decodes to, an exception included. *)
Theorem unknown_column_ignored (rb : RecordBatch) (d : Descriptor)
    (extra : Field) (column : Array) :
  length (schema rb) = length (columns rb) ->
  ~ In (field_name extra) (map f_name (d_fields d)) ->
  record_batch_to_messages
    {| schema := schema rb ++ [extra];
       columns := columns rb ++ [column];
       num_rows := num_rows rb |} d
  = record_batch_to_messages rb d.
Proof.
  intros Hlen Hnot. unfold record_batch_to_messages. cbn [num_rows].
  unfold _extract_record_batch_messages.
  match goal with
  | |- match mfor _ ?b1 _ with _ => _ end = match mfor _ ?b2 _ with _ => _ end =>
      rewrite (mfor_ext (d_fields d) b1 b2); [reflexivity|]
  end.
  intros fld Hfld. cbn [schema].
  assert (Hne : field_name extra <> f_name fld).
  { intros E. apply Hnot. rewrite E. apply in_map. exact Hfld. }
  rewrite (get_field_index_app _ _ _ Hne).
  destruct (get_field_index (schema rb) (f_name fld)) as [i|] eqn:Hi;
    [|reflexivity].
  cbn [is_some]. unfold record_batch_column. cbn [schema columns].
  rewrite (get_field_index_app _ _ _ Hne), Hi.
  apply get_field_index_bound in Hi.
  rewrite nth_error_app1 by lia. reflexivity.
Qed.

Lemma unknown_column_ignored_witness :
  record_batch_to_messages
    {| schema := [field "repeated_int32" (list_ (field "item" int32 false)) true]
                 ++ [field "other" int32 false];
       columns := [ListArray (list_ (field "item" int32 false)) [0; 1]
                     [true] (PrimitiveArray int32 [Some (PyInt 7)])]
                  ++ [PrimitiveArray int32 [Some (PyInt 1)]];
       num_rows := 1 |} WithRepeated
  = Ok [MStruct [("repeated_int32", (false, OList [OVal (PyInt 7)]))]].
Proof.
  etransitivity.
  - apply (unknown_column_ignored
             {| schema := [field "repeated_int32" (list_ (field "item" int32 false)) true];
                columns := [ListArray (list_ (field "item" int32 false)) [0; 1]
                              [true] (PrimitiveArray int32 [Some (PyInt 7)])];
                num_rows := 1 |} WithRepeated (field "other" int32 false)
             (PrimitiveArray int32 [Some (PyInt 1)])).
    + reflexivity.
    + vm_compute. intros [H|[]]. discriminate.
  - vm_compute. reflexivity.
Defined.

(** ** More on the scalar codecs *)

(** X6.  Whatever the stored value and the unit of the column,
    [_timestamp_scalar_to_proto] returns a normalised timestamp, with
    [0 <= nanos < 1e9], that stands for [value] times the nanoseconds of the
    unit: nothing is lost on decoding, negative values included. *)
Theorem timestamp_decode_normalised (value : Z) (unit : TimeUnit) :
  let t := _timestamp_scalar_to_proto value unit in
  0 <= ts_nanos t < 1000000000
  /\ ToNanoseconds t = value * _TIMESTAMP_CONVERTER unit.
Proof.
  unfold _timestamp_scalar_to_proto, FromNanoseconds, ToNanoseconds.
  cbn [ts_nanos ts_seconds].
  set (v := value * _TIMESTAMP_CONVERTER unit). split.
  - apply Z.mod_pos_bound. lia.
  - pose proof (Z.div_mod v 1000000000 ltac:(lia)). lia.
Qed.

(** X7.  [_time_of_day_scalar_to_proto] loses nothing either: for every
    nanosecond count its minutes and seconds are in [0, 60), its nanos in
    [0, 1e9), and [_time_of_day_to_nanos] gives the count back. *)
Theorem time_of_day_decode_exact (n : Z) :
  let t := _time_of_day_scalar_to_proto n in
  0 <= minutes t < 60 /\ 0 <= seconds t < 60 /\ 0 <= nanos t < 1000000000
  /\ _time_of_day_to_nanos t = n.
Proof.
  unfold _time_of_day_scalar_to_proto, _time_of_day_to_nanos.
  cbn [hours minutes seconds nanos].
  repeat split; try (apply Z.mod_pos_bound; lia).
  assert (H1 : n / 60000000000 = n / 1000000000 / 60)
    by (rewrite Z.div_div by lia; reflexivity).
  assert (H2 : n / 3600000000000 = n / 1000000000 / 60 / 60)
    by (rewrite !Z.div_div by lia; reflexivity).
  rewrite H1, H2.
  pose proof (Z.div_mod n 1000000000 ltac:(lia)).
  pose proof (Z.div_mod (n / 1000000000) 60 ltac:(lia)).
  pose proof (Z.div_mod (n / 1000000000 / 60) 60 ltac:(lia)).
  lia.
Qed.

Lemma sizes_from_running (sizes : list Z) (start : Z) :
  match running_offsets start sizes with
  | first :: rest => first = start /\ sizes_from first rest = sizes
  | [] => False
  end.
Proof.
  revert start. induction sizes as [|s r IH]; intros start.
  - simpl. auto.
  - cbn [running_offsets]. split; [reflexivity|].
    specialize (IH (start + s)).
    destruct (running_offsets (start + s) r) as [|f rest]; [contradiction|].
    destruct IH as [-> IH]. cbn [sizes_from]. rewrite IH. f_equal. lia.
Qed.

(** X8.  [OffsetToSize] undoes [_get_offsets]: from the offsets built for a
    sequence of repeated or map containers it yields their lengths, one per
    container and in order. *)
Theorem offsets_to_sizes (records : list Obj) (offsets : list (option Z))
    (sizes : list Z) :
  Forall2 (fun r s => py_len r = Ok s) records sizes ->
  _get_offsets records = Ok offsets ->
  OffsetToSize (clean_offsets offsets) = Ok sizes.
Proof.
  intros H2 Hoff. unfold _get_offsets in Hoff.
  rewrite (_get_offsets_from_running _ _ 0 H2) in Hoff. injection Hoff as <-.
  rewrite clean_offsets_some. unfold OffsetToSize.
  pose proof (sizes_from_running sizes 0) as Hs.
  destruct (running_offsets 0 sizes) as [|f rest]; [contradiction|].
  destruct Hs as [_ ->]. reflexivity.
Qed.

Lemma offsets_to_sizes_witness :
  OffsetToSize
    (clean_offsets [Some 0; Some 3; Some 3])
  = Ok [3; 0].
Proof.
  apply (offsets_to_sizes
           [OList [OVal (PyInt 1); OVal (PyInt 2); OVal (PyInt 3)]; OList []]).
  - repeat constructor.
  - reflexivity.
Defined.

(** X9.  [_prepare_array] is idempotent: what it returns it returns again
    unchanged, so preparing a column once or twice, as the repeated path
    does, makes no difference; a time64 column becomes an int64 column of
    the same length, and a time64 unit other than ns and us raises
    [KeyError]. *)
Theorem prepare_array_idempotent (array prepared : Array) :
  _prepare_array array = Ok prepared ->
  _prepare_array prepared = Ok prepared
  /\ array_len prepared = array_len array
  /\ (forall unit values, array = PrimitiveArray (time64 unit) values ->
        (unit = unit_ns \/ unit = unit_us) /\ array_type prepared = int64).
Proof.
  intros H. destruct array as [type values| | |];
    try (injection H as <-; repeat split; try reflexivity; discriminate).
  destruct type;
    try (injection H as <-; repeat split; try reflexivity; discriminate).
  cbn [_prepare_array] in H. apply rbind_ok in H as [ratio [Hr H]].
  injection H as <-. split; [reflexivity|].
  split; [cbn [array_len]; apply length_map|].
  intros u vs E. injection E as <- <-. split; [|reflexivity].
  destruct unit; try discriminate; auto.
Qed.

Lemma prepare_array_idempotent_witness :
  _prepare_array (PrimitiveArray int64 [Some (PyInt 5000)])
  = Ok (PrimitiveArray int64 [Some (PyInt 5000)]).
Proof.
  apply (prepare_array_idempotent
           (PrimitiveArray (time64 unit_us) [Some (PyInt 5)])).
  vm_compute. reflexivity.
Defined.

(** ** Enum and date codecs *)

Lemma values_by_number_In (vals : list (string * Z)) (n : Z) (name : string) :
  values_by_number vals n = Some name -> In name (map fst vals).
Proof.
  induction vals as [|[nm k] rest IH]; simpl; [discriminate|].
  destruct (k =? n).
  - intros H. injection H as <-. auto.
  - intros H. right. apply IH. exact H.
Qed.

Lemma values_by_number_name (vals : list (string * Z)) (n : Z) (name : string) :
  NoDup (map fst vals) ->
  values_by_number vals n = Some name -> values_by_name vals name = Some n.
Proof.
  induction vals as [|[nm k] rest IH]; simpl; [discriminate|].
  intros Hnd H. inversion Hnd as [|? ? Hnot Hnd']; subst.
  destruct (Z.eqb_spec k n) as [E|N].
  - injection H as <-. rewrite String.eqb_refl. congruence.
  - destruct (String.eqb_spec nm name) as [E'|N'].
    + subst. exfalso. apply Hnot. eapply values_by_number_In; eauto.
    + apply IH; assumption.
Qed.

(** X10.  With enum names stored as bytes or text, plain or dictionary
    encoded, the decoder of singular enum fields undoes the encoder: if
    [get_enum_converter] turns the number [n] into an element, [convert_enum]
    turns that element back into [n]; this holds for every enumeration whose
    value names are distinct. *)
Theorem enum_name_round_trip (e : EnumDescriptor) (data_type : DataType)
    (converter : Obj -> Result Obj) (n : Z) (x : Obj) :
  NoDup (map fst (enum_values e)) ->
  data_type = binary \/ data_type = string_
  \/ data_type = dictionary int32 binary \/ data_type = dictionary int32 string_ ->
  get_enum_converter data_type e = Ok converter ->
  converter (OVal (PyInt n)) = Ok x ->
  exists v, x = OVal v
            /\ convert_enum e (MkScalar data_type (Some v)) = Ok (OVal (PyInt n)).
Proof.
  intros Hnd Hty Hc Hx.
  destruct Hty as [-> | [-> | [-> | ->]]]; cbn in Hc; injection Hc as <-;
    cbn beta in Hx;
    destruct (values_by_number (enum_values e) n) as [name|] eqn:Hn;
    try discriminate; injection Hx as <-;
    eexists; (split; [reflexivity|]);
    unfold convert_enum; cbn [as_py sc_value sc_type];
    rewrite (values_by_number_name _ _ _ Hnd Hn); reflexivity.
Qed.

Lemma enum_name_round_trip_witness :
  exists v,
    OVal (PyBytes "B") = OVal v
    /\ convert_enum (MkEnumDescriptor [("A", 0); ("B", 1)])
         (MkScalar binary (Some v)) = Ok (OVal (PyInt 1)).
Proof.
  apply (enum_name_round_trip (MkEnumDescriptor [("A", 0); ("B", 1)]) binary
           (fun x => match x with
                     | OVal (PyInt n) =>
                         match values_by_number [("A", 0); ("B", 1)] n with
                         | Some name => Ok (OVal (PyBytes name))
                         | None => Raise KeyError
                         end
                     | _ => Raise KeyError
                     end) 1).
  - repeat constructor; simpl; intuition discriminate.
  - auto.
  - reflexivity.
  - reflexivity.
Defined.

(** X12.  The Date codec: a Date with [year = 0] is encoded as a null, one
    that [datetime.date] refuses (month or day out of range) raises, and any
    other Date is encoded as an element that [_date_scalar_to_proto] decodes
    to the same Date. *)
Theorem date_round_trip (d : Date) :
  (year d = 0 ->
   _PROTO_DESCRIPTOR_TO_ARROW_CONVERTER WK_Date (OMsg (MDate d)) = Ok ONone)
  /\ (year d <> 0 ->
      (_PROTO_DESCRIPTOR_TO_ARROW_CONVERTER WK_Date (OMsg (MDate d))
       = Raise ValueError
       /\ datetime_date (year d) (month d) (day d) = Raise ValueError)
      \/ exists v,
          _PROTO_DESCRIPTOR_TO_ARROW_CONVERTER WK_Date (OMsg (MDate d))
          = Ok (OVal v)
          /\ arrow_accepts date32 v = true
          /\ _date_scalar_to_proto (MkScalar date32 (Some v)) = Ok (OMsg (MDate d))).
Proof.
  destruct d as [y m dd]. cbn [year month day _PROTO_DESCRIPTOR_TO_ARROW_CONVERTER].
  split.
  - intros ->. reflexivity.
  - intros Hy. destruct (Z.eqb_spec y 0) as [E|_]; [contradiction|].
    unfold datetime_date. destruct (_ && _).
    + right. eexists. repeat split.
    + left. split; reflexivity.
Qed.

Lemma date_round_trip_witness :
  _PROTO_DESCRIPTOR_TO_ARROW_CONVERTER WK_Date (OMsg (MDate (MkDate 0 5 17)))
  = Ok ONone.
Proof. apply (date_round_trip (MkDate 0 5 17)). reflexivity. Defined.

(** ** Row-wise extraction into the allocated messages *)

Lemma replace_nth_app_r {A} (pre rest : list A) (x : A) (i : nat) :
  replace_nth (length pre + i) x (pre ++ rest) = pre ++ replace_nth i x rest.
Proof.
  induction pre as [|y pre IH]; [reflexivity|].
  cbn [length Nat.add app]. destruct rest as [|r rest'].
  - cbn [replace_nth]. rewrite IH. reflexivity.
  - cbn [replace_nth]. rewrite <- IH. reflexivity.
Qed.

Lemma rows_loop_from (G : Scalar -> Msg -> Result Msg)
    (body : Ref * Scalar -> M unit) :
  (forall i sc h m, nth_error h i = Some m ->
                    body (MkRef i [], sc) h
                    = match G sc m with
                      | Ok m' => Ok (tt, replace_nth i m' h)
                      | Raise e => Raise e
                      end) ->
  forall (scalars : list Scalar) (rows pre post : list Msg),
    mfor (combine (map (fun i => MkRef i []) (seq (length pre) (length rows)))
            scalars) body (pre ++ rows ++ post)
    = match zip_rows G rows scalars with
      | Ok rows' => Ok (tt, pre ++ rows' ++ post)
      | Raise e => Raise e
      end.
Proof.
  intros Hbody scalars rows. revert scalars.
  induction rows as [|m rows IH]; intros scalars pre post.
  - destruct scalars; reflexivity.
  - destruct scalars as [|sc scalars]; [reflexivity|].
    cbn [length seq map combine mfor zip_rows]. unfold mbind at 1.
    rewrite (Hbody (length pre) sc (pre ++ (m :: rows) ++ post) m).
    2:{ rewrite nth_error_app2 by lia. rewrite Nat.sub_diag. reflexivity. }
    destruct (G sc m) as [m'|e]; [|reflexivity]. cbn [rbind].
    replace (replace_nth (length pre) m' (pre ++ (m :: rows) ++ post))
      with ((pre ++ [m']) ++ rows ++ post).
    2:{ rewrite <- (Nat.add_0_r (length pre)) at 1.
        rewrite replace_nth_app_r. cbn [app replace_nth].
        rewrite <- app_assoc. reflexivity. }
    replace (S (length pre)) with (length (pre ++ [m']))
      by (rewrite length_app; simpl; lia).
    rewrite IH. destruct (zip_rows G rows scalars); [|reflexivity].
    cbn [rbind]. rewrite <- app_assoc. reflexivity.
Qed.

Lemma rows_loop (G : Scalar -> Msg -> Result Msg)
    (body : Ref * Scalar -> M unit) (n : nat) (scalars : list Scalar) (h : Heap) :
  (forall i sc h m, nth_error h i = Some m ->
                    body (MkRef i [], sc) h
                    = match G sc m with
                      | Ok m' => Ok (tt, replace_nth i m' h)
                      | Raise e => Raise e
                      end) ->
  (n <= length h)%nat ->
  mfor (combine (root_refs n) scalars) body h
  = match zip_rows G (firstn n h) scalars with
    | Ok rows' => Ok (tt, rows' ++ skipn n h)
    | Raise e => Raise e
    end.
Proof.
  intros Hbody Hn.
  pose proof (rows_loop_from G body Hbody scalars (firstn n h) [] (skipn n h)) as H.
  cbn [length app] in H. rewrite firstn_skipn in H.
  rewrite firstn_length_le in H by exact Hn. exact H.
Qed.

Lemma heap_modify_root (i : nat) (p : Path) (f : Msg -> Result Msg) (h : Heap)
    (m : Msg) :
  nth_error h i = Some m ->
  heap_modify (MkRef i p) f h
  = match modify_at p f m with
    | Ok m' => Ok (tt, replace_nth i m' h)
    | Raise e => Raise e
    end.
Proof.
  intros H. unfold heap_modify. cbn [ref_root ref_path]. rewrite H.
  destruct (modify_at p f m); reflexivity.
Qed.

Lemma replace_nth_same {A} (l : list A) (i : nat) (x : A) :
  nth_error l i = Some x -> replace_nth i x l = l.
Proof.
  revert i. induction l as [|y l IH]; intros [|i] H; simpl in *; try discriminate.
  - congruence.
  - rewrite IH by exact H. reflexivity.
Qed.

Lemma plain_body_row (fld : FieldDescriptor) (converter : Scalar -> Result Obj)
    (i : nat) (sc : Scalar) (h : Heap) (m : Msg) :
  nth_error h i = Some m ->
  (if is_valid sc then PlainAssigner_call fld converter (MkRef i []) sc
   else mret tt) h
  = match plain_row fld converter sc m with
    | Ok m' => Ok (tt, replace_nth i m' h)
    | Raise e => Raise e
    end.
Proof.
  intros Hm. unfold plain_row, PlainAssigner_call.
  destruct (is_valid sc);
    [|unfold mret; rewrite (replace_nth_same _ _ _ Hm); reflexivity].
  unfold mbind, mlift. destruct (converter sc) as [v|e]; [|reflexivity].
  cbn [rbind].
  assert (Hw : match nullable_type fld with
               | Some w =>
                   heap_modify (ref_child (MkRef i []) (SField (f_name fld)))
                     (msg_set_value w v)
               | None => heap_modify (MkRef i []) (msg_setattr fld v)
               end h
               = match match nullable_type fld with
                       | Some w =>
                           modify_at [SField (f_name fld)] (msg_set_value w v) m
                       | None => msg_setattr fld v m
                       end with
                 | Ok m' => Ok (tt, replace_nth i m' h)
                 | Raise e => Raise e
                 end).
  { destruct (nullable_type fld).
    - unfold ref_child. cbn [ref_root ref_path app].
      apply heap_modify_root. exact Hm.
    - rewrite (heap_modify_root i [] _ h m Hm). reflexivity. }
  destruct v; try exact Hw.
  unfold mret. rewrite (replace_nth_same _ _ _ Hm). reflexivity.
Qed.

(** [extract_plain] on the allocated messages works row by row. *)
Lemma extract_plain_rows (array : Array) (fld : FieldDescriptor) (n : nat)
    (h : Heap) :
  (n <= length h)%nat ->
  extract_plain array fld (Messages (root_refs n)) h
  = match get_converter fld with
    | Ok converter =>
        match zip_rows (plain_row fld converter) (firstn n h)
                (array_scalars array) with
        | Ok rows' => Ok (tt, rows' ++ skipn n h)
        | Raise e => Raise e
        end
    | Raise e => Raise e
    end.
Proof.
  intros Hn. unfold extract_plain. unfold mbind at 1. unfold mlift.
  destruct (get_converter fld) as [converter|e]; [|reflexivity].
  unfold mbind. cbn [iterate mret].
  apply (rows_loop (plain_row fld converter)
           (fun mv : Ref * Scalar =>
              if is_valid (snd mv)
              then PlainAssigner_call fld converter (fst mv) (snd mv)
              else mret tt)); [|exact Hn].
  intros i sc h0 m Hm. cbn [fst snd]. apply plain_body_row. exact Hm.
Qed.

(** ** One column among the others *)

Lemma extract_columns_split (rb : RecordBatch) (n : nat)
    (fields : list FieldDescriptor) (fld : FieldDescriptor) (h0 hN : Heap)
    (x : unit) :
  Forall (fun f => forall n g arr it, it_ok n g f it ->
                                      framed n g (_extract_field f arr it)) fields ->
  NoDup (map f_name fields) ->
  In fld fields ->
  (n <= length h0)%nat ->
  mfor fields (extract_column rb (Messages (root_refs n))) h0 = Ok (x, hN) ->
  exists h h',
    (n <= length h)%nat
    /\ (forall i, (i < n)%nat -> slot h i (f_name fld) = slot h0 i (f_name fld))
    /\ extract_column rb (Messages (root_refs n)) fld h = Ok (tt, h')
    /\ (forall i, (i < n)%nat -> slot hN i (f_name fld) = slot h' i (f_name fld)).
Proof.
  intros Hfs. revert h0.
  induction Hfs as [|f fs Hf Hrest IH]; intros h0 Hnd Hin Hn H; [contradiction|].
  cbn [map] in Hnd. inversion Hnd as [|? ? Hnot Hnd']; subst.
  cbn [mfor] in H. apply mbind_ok in H as [u [h1 [H1 H2]]].
  destruct (framed_extract_column rb n f Hf _ _ _ Hn H1) as [L1 S1].
  destruct Hin as [->|Hin].
  - exists h0, h1. destruct u. repeat split; auto.
    intros i Hi.
    destruct (extract_columns_preserve rb n fs (f_name fld) h1 hN x Hrest Hnot
                ltac:(lia) H2) as [_ S2].
    apply S2. exact Hi.
  - destruct (IH h1 Hnd' Hin ltac:(lia) H2) as [h [h' [Ln [Sa [Hb Sc]]]]].
    exists h, h'. repeat split; auto.
    intros i Hi. rewrite Sa by exact Hi. apply S1; [exact Hi|].
    intros E. apply Hnot. rewrite <- E. apply in_map. exact Hin.
Qed.

Lemma default_msg_fields (d : Descriptor) :
  d_well_known d = None ->
  default_msg d = MStruct (map (fun f => (f_name f, default_slot f)) (d_fields d)).
Proof.
  destruct d as [n w m fs]. cbn [d_well_known d_fields]. intros ->.
  cbn [default_msg]. f_equal.
Qed.

Lemma assoc_default_slots (fields : list FieldDescriptor) (fld : FieldDescriptor) :
  NoDup (map f_name fields) -> In fld fields ->
  assoc (map (fun f => (f_name f, default_slot f)) fields) (f_name fld)
  = Some (default_slot fld).
Proof.
  induction fields as [|f fs IH]; intros Hnd Hin; [contradiction|].
  cbn [map] in Hnd. inversion Hnd as [|? ? Hnot Hnd']; subst.
  cbn [map assoc]. destruct Hin as [->|Hin].
  - rewrite String.eqb_refl. reflexivity.
  - destruct (String.eqb_spec (f_name f) (f_name fld)) as [E|N].
    + exfalso. apply Hnot. rewrite E. apply in_map. exact Hin.
    + apply IH; assumption.
Qed.

Lemma slot_repeat (m : Msg) (n i : nat) (name : string) :
  (i < n)%nat -> slot (repeat m n) i name = mslot m name.
Proof.
  intros Hi. unfold slot.
  rewrite (nth_error_nth' _ m) by (rewrite repeat_length; exact Hi).
  rewrite nth_repeat. destruct m; reflexivity.
Qed.

Lemma slot_firstn (h : Heap) (n i : nat) (name : string) :
  (i < n)%nat -> slot (firstn n h) i name = slot h i name.
Proof.
  intros Hi. unfold slot. rewrite nth_error_firstn.
  destruct (Nat.ltb_spec i n); [reflexivity|lia].
Qed.

(** The extraction of the column of one field, isolated from that of the
    others: it starts from messages whose field is still at its default, and
    what it leaves in the field is what [record_batch_to_messages] returns. *)
Lemma column_in_isolation (rb : RecordBatch) (d : Descriptor) (ms : list Msg)
    (fld : FieldDescriptor) :
  d_well_known d = None ->
  NoDup (map f_name (d_fields d)) ->
  In fld (d_fields d) ->
  record_batch_to_messages rb d = Ok ms ->
  exists h h',
    (num_rows rb <= length h)%nat
    /\ (forall i, (i < num_rows rb)%nat ->
                  slot h i (f_name fld) = Some (default_slot fld))
    /\ extract_column rb (Messages (root_refs (num_rows rb))) fld h = Ok (tt, h')
    /\ (forall i, (i < num_rows rb)%nat ->
                  slot ms i (f_name fld) = slot h' i (f_name fld)).
Proof.
  intros Hwk Hnd Hin H.
  apply record_batch_to_messages_ok in H as [hN [HN ->]].
  assert (Hn0 : (num_rows rb <= length (repeat (default_msg d) (num_rows rb)))%nat)
    by (rewrite repeat_length; lia).
  destruct (extract_columns_split rb (num_rows rb) (d_fields d) fld _ hN tt
              (proj2 (extractor_framed d)) Hnd Hin Hn0 HN)
    as [h [h' [Ln [Sa [Hb Sc]]]]].
  exists h, h'. repeat split; auto.
  - intros i Hi. rewrite Sa by exact Hi. rewrite slot_repeat by exact Hi.
    rewrite (default_msg_fields d Hwk). cbn [mslot].
    apply assoc_default_slots; assumption.
  - intros i Hi. rewrite slot_firstn by exact Hi. apply Sc. exact Hi.
Qed.

(** X13.  A field of the descriptor for which the record batch has no column
    keeps its default in every decoded message: the field is neither set nor
    an error. *)
Theorem missing_column_keeps_default (rb : RecordBatch) (d : Descriptor)
    (ms : list Msg) (fld : FieldDescriptor) (i : nat) :
  d_well_known d = None ->
  NoDup (map f_name (d_fields d)) ->
  In fld (d_fields d) ->
  get_field_index (schema rb) (f_name fld) = None ->
  record_batch_to_messages rb d = Ok ms ->
  (i < num_rows rb)%nat ->
  slot ms i (f_name fld) = Some (default_slot fld).
Proof.
  intros Hwk Hnd Hin Hidx H Hi.
  destruct (column_in_isolation rb d ms fld Hwk Hnd Hin H)
    as [h [h' [Ln [Sa [Hb Sc]]]]].
  unfold extract_column in Hb. rewrite Hidx in Hb. cbn [is_some] in Hb.
  injection Hb as <-. rewrite Sc by exact Hi. apply Sa. exact Hi.
Qed.

Lemma missing_column_keeps_default_witness :
  slot [MStruct [("repeated_int32", (false, OList []))]] 0 "repeated_int32"
  = Some (default_slot (repeated_scalar_field "repeated_int32" TYPE_INT32)).
Proof.
  apply (missing_column_keeps_default
           {| schema := []; columns := []; num_rows := 1 |} WithRepeated
           [MStruct [("repeated_int32", (false, OList []))]]
           (repeated_scalar_field "repeated_int32" TYPE_INT32) 0).
  - reflexivity.
  - repeat constructor. intros [].
  - left. reflexivity.
  - reflexivity.
  - vm_compute. reflexivity.
  - simpl. lia.
Defined.

(** ** Singular enum and wrapper columns *)

Lemma zip_rows_nth (G : Scalar -> Msg -> Result Msg) (msgs rows' : list Msg)
    (scalars : list Scalar) (i : nat) (m : Msg) :
  zip_rows G msgs scalars = Ok rows' ->
  nth_error msgs i = Some m ->
  exists m', nth_error rows' i = Some m'
             /\ match nth_error scalars i with
                | Some sc => G sc m = Ok m'
                | None => m' = m
                end.
Proof.
  revert rows' scalars i.
  induction msgs as [|m0 msgs IH]; intros rows' scalars i H Hm.
  - destruct i; discriminate.
  - destruct scalars as [|sc scalars].
    + cbn [zip_rows] in H. injection H as <-. exists m. split; [exact Hm|].
      destruct i; reflexivity.
    + cbn [zip_rows] in H. apply rbind_ok in H as [m0' [H0 H]].
      apply rbind_ok in H as [rest [Hr H]]. injection H as <-.
      destruct i as [|i].
      * cbn [nth_error] in *. injection Hm as <-. exists m0'. auto.
      * cbn [nth_error] in *. eapply IH; eauto.
Qed.

Lemma update_assoc_same {V} (g : string) (f : V -> Result V)
    (l l' : list (string * V)) (v : V) :
  update_assoc g f l = Ok l' -> assoc l g = Some v ->
  exists v', f v = Ok v' /\ assoc l' g = Some v'.
Proof.
  revert l'. induction l as [|[k x] l IH]; intros l' H Hv; simpl in *;
    [discriminate|].
  destruct (String.eqb_spec k g) as [E|N].
  - injection Hv as ->. apply rbind_ok in H as [v' [Hf H]]. injection H as <-.
    exists v'. split; [exact Hf|]. simpl.
    destruct (String.eqb_spec k g); [reflexivity|contradiction].
  - apply rbind_ok in H as [l'' [Hl H]]. injection H as <-.
    destruct (IH _ Hl Hv) as [v' [Hf Ha]]. exists v'. split; [exact Hf|].
    simpl. destruct (String.eqb_spec k g); [contradiction|exact Ha].
Qed.

Lemma slot_app_l (rows rest : list Msg) (i : nat) (name : string) (m : Msg) :
  nth_error rows i = Some m -> slot (rows ++ rest) i name = mslot m name.
Proof.
  intros H. unfold slot. rewrite nth_error_app1 by (apply nth_error_Some; congruence).
  rewrite H. destruct m; reflexivity.
Qed.

Lemma slot_nth (h : Heap) (i : nat) (name : string) (s : Slot) :
  slot h i name = Some s ->
  exists fields, nth_error h i = Some (MStruct fields) /\ assoc fields name = Some s.
Proof.
  unfold slot. destruct (nth_error h i) as [[| | | |fields]|]; try discriminate.
  eauto.
Qed.

(** The rows of a singular, non-special, non-struct column, as decoded into
    the allocated messages. *)
Lemma plain_column_rows (fld : FieldDescriptor) (col col' : Array) (n : nat)
    (h h' : Heap) (i : nat) (s : Slot) :
  f_label fld <> LABEL_REPEATED ->
  special_type fld = None ->
  FieldType_eqb (f_type fld) TYPE_MESSAGE && negb (is_some (nullable_type fld))
  = false ->
  _prepare_array col = Ok col' ->
  (n <= length h)%nat -> (i < n)%nat ->
  slot h i (f_name fld) = Some s ->
  _extract_field fld col (Messages (root_refs n)) h = Ok (tt, h') ->
  exists converter fields m',
    get_converter fld = Ok converter
    /\ nth_error h i = Some (MStruct fields)
    /\ assoc fields (f_name fld) = Some s
    /\ slot h' i (f_name fld) = mslot m' (f_name fld)
    /\ match nth_error (array_scalars col') i with
       | Some sc => plain_row fld converter sc (MStruct fields) = Ok m'
       | None => m' = MStruct fields
       end.
Proof.
  intros Hlabel Hspecial Hstruct Hprep Hn Hi Hs H.
  rewrite _extract_field_eq in H. apply mbind_ok in H as [a [h1 [Ha H]]].
  apply mlift_ok in Ha as [Ha ->]. rewrite Hprep in Ha. injection Ha as <-.
  replace (Label_eqb (f_label fld) LABEL_REPEATED) with false in H
    by (destruct (f_label fld); try reflexivity; contradiction).
  rewrite Hspecial, Hstruct in H.
  rewrite (extract_plain_rows _ _ _ _ Hn) in H.
  destruct (get_converter fld) as [converter|]; [|discriminate].
  destruct (zip_rows _ _ _) as [rows'|] eqn:Hz; [|discriminate].
  injection H as <-.
  apply slot_nth in Hs as [fields [Hm Hf]].
  assert (Hm' : nth_error (firstn n h) i = Some (MStruct fields)).
  { rewrite nth_error_firstn. destruct (Nat.ltb_spec i n); [exact Hm|lia]. }
  destruct (zip_rows_nth _ _ _ _ _ _ Hz Hm') as [m' [Hr Hg]].
  exists converter, fields, m'. repeat split; auto.
  apply slot_app_l. exact Hr.
Qed.

Lemma extract_column_found (rb : RecordBatch) (msgs : MsgIter)
    (fld : FieldDescriptor) (col : Array) :
  record_batch_column rb (f_name fld) = Ok col ->
  extract_column rb msgs fld = _extract_field fld col msgs.
Proof.
  intros H. unfold extract_column. unfold record_batch_column in *.
  destruct (get_field_index (schema rb) (f_name fld)); [|discriminate].
  cbn [is_some]. destruct (nth_error (columns rb) n); [|discriminate].
  injection H as ->. reflexivity.
Qed.

Lemma nullable_type_inv (fld : FieldDescriptor) (w : WellKnown) :
  nullable_type fld = Some w ->
  exists d, f_message_type fld = Some d /\ d_well_known d = Some w
            /\ NULLABLE_TYPES w = true /\ special_type fld = None
            /\ exists v0, default_msg d = MWrapper v0.
Proof.
  unfold nullable_type, special_type.
  destruct (f_message_type fld) as [d|]; [|discriminate].
  destruct d as [nm [w'|] me fs]; cbn [d_well_known]; [|discriminate].
  destruct (NULLABLE_TYPES w') eqn:Hn; [|discriminate].
  intros H. injection H as ->. eexists. repeat split; try assumption.
  - destruct w; try discriminate; reflexivity.
  - destruct w; try discriminate; cbn; eauto.
Qed.

(** ** Repeated enum columns *)

Lemma update_assoc_applied {V} (g : string) (f : V -> Result V)
    (l l' : list (string * V)) :
  update_assoc g f l = Ok l' -> exists v v', f v = Ok v'.
Proof.
  revert l'. induction l as [|[k x] l IH]; intros l' H; simpl in H; [discriminate|].
  destruct (String.eqb k g).
  - apply rbind_ok in H as [v' [Hf _]]. eauto.
  - apply rbind_ok in H as [l'' [Hl _]]. eauto.
Qed.

Lemma update_nth_applied {A} (i : nat) (f : A -> Result A) (l l' : list A) :
  update_nth i f l = Ok l' -> exists v v', f v = Ok v'.
Proof.
  revert i l'. induction l as [|x l IH]; intros i l' H; [destruct i; discriminate|].
  destruct i as [|i]; cbn [update_nth] in H.
  - apply rbind_ok in H as [x' [Hf _]]. eauto.
  - apply rbind_ok in H as [l'' [Hl _]]. eauto.
Qed.

Lemma update_entry_applied {V} (key : PyVal) (f : V -> Result V)
    (l l' : list (PyVal * V)) :
  update_entry key f l = Ok l' -> exists v v', f v = Ok v'.
Proof.
  revert l'. induction l as [|[k x] l IH]; intros l' H; simpl in H; [discriminate|].
  destruct (PyVal_eqb k key).
  - apply rbind_ok in H as [v' [Hf _]]. eauto.
  - apply rbind_ok in H as [l'' [Hl _]]. eauto.
Qed.

Lemma on_msg_applied (f : Msg -> Result Msg) (o o' : Obj) :
  on_msg f o = Ok o' -> exists m m', f m = Ok m'.
Proof.
  destruct o; try discriminate. cbn [on_msg]. intros H.
  apply rbind_ok in H as [m' [Hf _]]. eauto.
Qed.

(** A mutation below a path succeeds only if the mutation itself does. *)
Lemma modify_at_applied (p : Path) (f : Msg -> Result Msg) (m m' : Msg) :
  modify_at p f m = Ok m' -> exists m0 m0', f m0 = Ok m0'.
Proof.
  revert m m'. induction p as [|s p IH]; intros m m' H; [cbn in H; eauto|].
  cbn [modify_at] in H. destruct m as [| | | |fields]; try discriminate.
  apply rbind_ok in H as [fields' [H _]].
  destruct s as [name|name i|name key];
    apply update_assoc_applied in H as [sl [sl' H]].
  - apply rbind_ok in H as [v [H _]]. apply on_msg_applied in H as [a [b H]].
    eapply IH; eauto.
  - destruct (snd sl); try discriminate. apply rbind_ok in H as [items' [H _]].
    apply update_nth_applied in H as [o [o' H]].
    apply on_msg_applied in H as [a [b H]]. eapply IH; eauto.
  - destruct (snd sl); try discriminate. apply rbind_ok in H as [entries' [H _]].
    apply update_entry_applied in H as [o [o' H]].
    apply on_msg_applied in H as [a [b H]]. eapply IH; eauto.
Qed.

Lemma msg_append_none (fld : FieldDescriptor) (m m' : Msg) :
  f_message_type fld = None -> msg_append fld ONone m = Ok m' -> False.
Proof.
  intros Hmt H. unfold msg_append in H. destruct m as [| | | |fields]; try discriminate.
  apply rbind_ok in H as [fields' [H _]].
  apply update_assoc_applied in H as [sl [sl' H]]. rewrite Hmt in H.
  destruct (snd sl); discriminate.
Qed.

Lemma mfor_ok_each {A} (l : list A) (body : A -> M unit) (h h' : Heap) (u : unit) :
  mfor l body h = Ok (u, h') ->
  Forall (fun x => exists h1 h2, body x h1 = Ok (tt, h2)) l.
Proof.
  revert h. induction l as [|x l IH]; intros h H; [constructor|].
  cbn [mfor] in H. apply mbind_ok in H as [[] [h1 [H1 H2]]].
  constructor; eauto.
Qed.

(** X16.  A repeated enum (or other repeated scalar) column is decoded
    strictly: [_extract_repeated_primitive_assigner] appends whatever the
    converter returns, so it can only return normally if every element it
    consumed was converted to a value; an element that converts to [None], as
    an enum name that matches no value does, is not skipped as in the
    singular case but makes the call raise. *)
Theorem repeated_scalar_strict (array : Array) (fld : FieldDescriptor)
    (messages : MsgIter) (h h' : Heap) (u : unit) :
  f_message_type fld = None ->
  _extract_repeated_primitive_assigner array fld messages h = Ok (u, h') ->
  exists offsets converter values values' refs h1 targets,
    array_offsets array = Ok offsets
    /\ get_converter fld = Ok converter
    /\ array_values array = Ok values
    /\ _prepare_array values = Ok values'
    /\ iterate messages h = Ok (refs, h1)
    /\ assigner_targets refs offsets = Ok targets
    /\ Forall (fun ts : Ref * Scalar =>
                 exists value, converter (snd ts) = Ok value /\ value <> ONone)
         (combine targets (array_scalars values')).
Proof.
  intros Hmt H. unfold _extract_repeated_primitive_assigner in H.
  apply mbind_ok in H as [offsets [h0 [Ho H]]]. apply mlift_ok in Ho as [Ho ->].
  apply mbind_ok in H as [converter [h0 [Hc H]]]. apply mlift_ok in Hc as [Hc ->].
  apply mbind_ok in H as [values [h0 [Hv H]]]. apply mlift_ok in Hv as [Hv ->].
  apply mbind_ok in H as [values' [h0 [Hp H]]]. apply mlift_ok in Hp as [Hp ->].
  apply mbind_ok in H as [refs [h1 [Hi H]]].
  apply mbind_ok in H as [targets [h2 [Ht H]]]. apply mlift_ok in Ht as [Ht ->].
  exists offsets, converter, values, values', refs, h1, targets.
  repeat split; auto.
  apply mfor_ok_each in H. eapply Forall_impl; [|exact H].
  intros [t sc] [ha [hb Hb]]. cbn [fst snd] in *.
  apply mbind_ok in Hb as [value [hc [Hval Hb]]]. apply mlift_ok in Hval as [Hval ->].
  exists value. split; [exact Hval|]. intros ->.
  apply heap_modify_ok in Hb as [m [m' [_ [Hb _]]]].
  apply modify_at_applied in Hb as [m0 [m0' Hb]].
  eapply msg_append_none; eauto.
Qed.

Lemma repeated_scalar_strict_witness :
  exists value,
    convert_enum Color (MkScalar binary (Some (PyBytes "GREEN"))) = Ok value
    /\ value <> ONone.
Proof.
  destruct (repeated_scalar_strict
              (ListArray (list_ (field "item" binary false)) [0; 1] [true]
                 (PrimitiveArray binary [Some (PyBytes "GREEN")]))
              (enum_field "colors" LABEL_REPEATED Color)
              (Messages [MkRef 0 []])
              [default_msg WithEnum]
              [MStruct [("color", (false, OVal (PyInt 0)));
                        ("colors", (false, OList [OVal (PyInt 1)]))]] tt)
    as [offsets [converter [values [values' [refs [h1 [targets
         [Ho [Hc [Hv [Hp [Hi [Ht Hall]]]]]]]]]]]]].
  - reflexivity.
  - vm_compute. reflexivity.
  - injection Ho as <-. injection Hc as <-. injection Hv as <-.
    injection Hp as <-. injection Hi as <- <-. injection Ht as <-.
    apply Forall_inv in Hall. exact Hall.
Defined.

(** Scenario: a repeated enum column with an element that names no value of
    the enumeration makes [record_batch_to_messages] raise [TypeError]. *)
Lemma repeated_enum_unknown_name_raises :
  record_batch_to_messages
    {| schema := [field "colors" (list_ (field "item" binary false)) true];
       columns := [ListArray (list_ (field "item" binary false)) [0; 2] [true]
                     (PrimitiveArray binary
                        [Some (PyBytes "GREEN"); Some (PyBytes "BLUE")])];
       num_rows := 1 |} WithEnum
  = Raise TypeError.
Proof. vm_compute. reflexivity. Qed.

(** ** Presence on the way out *)

Lemma HasField_getattr (m : Msg) (name : string) (has : bool) (fv : Obj) :
  HasField (OMsg m) name = Ok has -> getattr (OMsg m) name = Ok fv ->
  exists sub, fv = OMsg sub.
Proof.
  unfold HasField, getattr. destruct m as [| | | |fields]; try discriminate.
  destruct (assoc fields name) as [[b o]|]; [|discriminate].
  destruct o; try discriminate. intros _ H. injection H as <-. eauto.
Qed.

(** The rows of the column of a singular message-typed field that is
    converted element by element: row [i] is valid when [HasField] holds of
    record [i] and the converter did not return [None]. *)
Lemma mask_validity (name : string) (conv : Obj -> Result Obj) (ty : DataType)
    (records : list Msg) :
  forall (fvs : list Obj) (mask pre : list bool) (values : list Obj)
         (slots : list (option PyVal)),
    NestedIterable (map OMsg records) name = Ok fvs ->
    rmapM (fun record => match record with
                         | ONone => Ok false
                         | _ => HasField record name
                         end) (map OMsg records) = Ok mask ->
    convert_records (length pre) fvs (Some (pre ++ mask)) conv ONone = Ok values ->
    rmapM (pa_element ty) values = Ok slots ->
    Forall2
      (fun m valid =>
         exists has fv,
           HasField (OMsg m) name = Ok has
           /\ getattr (OMsg m) name = Ok fv
           /\ if has
              then exists value, conv fv = Ok value
                                 /\ (valid = true <-> value <> ONone)
              else valid = false)
      records
      (map (fun v : option PyVal => match v with Some _ => true | None => false end)
         slots).
Proof.
  unfold NestedIterable.
  induction records as [|m records IH]; intros fvs mask pre values slots Hf Hm Hc Hs.
  - cbn in Hf, Hm. injection Hf as <-. injection Hm as <-.
    cbn in Hc. injection Hc as <-. cbn in Hs. injection Hs as <-. constructor.
  - cbn [map rmapM] in Hf, Hm.
    apply rbind_ok in Hf as [fv [Hfv Hf]]. apply rbind_ok in Hf as [fvs' [Hfvs Hf]].
    injection Hf as <-.
    apply rbind_ok in Hm as [has [Hhas Hm]]. apply rbind_ok in Hm as [mask' [Hmask Hm]].
    injection Hm as <-.
    cbn [convert_records] in Hc.
    apply rbind_ok in Hc as [value [Hvalue Hc]].
    apply rbind_ok in Hc as [values' [Hvalues Hc]]. injection Hc as <-.
    cbn [rmapM] in Hs.
    apply rbind_ok in Hs as [s [Hslot Hs]]. apply rbind_ok in Hs as [slots' [Hslots Hs]].
    injection Hs as <-. cbn [map].
    constructor.
    + exists has, fv. split; [exact Hhas|]. split; [exact Hfv|].
      destruct (HasField_getattr _ _ _ _ Hhas Hfv) as [sub ->].
      rewrite nth_error_app2 in Hvalue by lia. rewrite Nat.sub_diag in Hvalue.
      cbn [nth_error] in Hvalue.
      destruct has.
      * exists value. split; [exact Hvalue|].
        unfold pa_element in Hslot. destruct value; try discriminate.
        -- injection Hslot as <-. split; [discriminate|congruence].
        -- destruct (arrow_accepts ty v); [|discriminate]. injection Hslot as <-.
           split; [discriminate|reflexivity].
      * injection Hvalue as <-. cbn in Hslot. injection Hslot as <-. reflexivity.
    + apply (IH fvs' mask' (pre ++ [has]) values' slots'); auto.
      rewrite length_app, <- app_assoc. cbn [length app].
      rewrite Nat.add_1_r. exact Hvalues.
Qed.

(** X17.  Presence on the way out.  In a record batch built by
    [messages_to_record_batch], the column of a singular message-typed field
    (a wrapper, a Timestamp, a TimeOfDay or a sub-message with at least one
    column of its own) has row [i] valid exactly when [HasField] holds of
    message [i]; for a Date field the row is valid exactly when the field is
    present and its year is not 0. *)
Theorem presence_encoding (records : list Msg) (d : Descriptor)
    (config : ProtarrowConfig) (batch : RecordBatch) :
  messages_to_record_batch records d config = Ok batch ->
  Forall2
    (fun fld column =>
       forall sub,
         f_type fld = TYPE_MESSAGE -> f_label fld <> LABEL_REPEATED ->
         f_message_type fld = Some sub -> d_map_entry sub = false ->
         (d_well_known sub <> Some WK_Date ->
          hollow_struct_field fld = false ->
          Forall2 (fun m valid => HasField (OMsg m) (f_name fld) = Ok valid)
            records (array_is_valid column))
         /\ (d_well_known sub = Some WK_Date ->
             Forall2
               (fun m valid =>
                  exists has,
                    HasField (OMsg m) (f_name fld) = Ok has
                    /\ (valid = true <->
                        has = true
                        /\ exists date,
                             getattr (OMsg m) (f_name fld) = Ok (OMsg (MDate date))
                             /\ year date <> 0))
               records (array_is_valid column)))
    (d_fields d) (columns batch).
Proof.
  intros H. apply messages_to_record_batch_inv in H as [cols [Hcols [_ [-> _]]]].
  apply rmapM_Forall2 in Hcols.
  induction Hcols as [|fld c fs cs Hc _ IH]; [constructor|].
  cbn [map]. constructor; [|exact IH].
  intros sub Ht Hlabel Hmt Hentry.
  apply field_to_column_field in Hc as [_ [_ [_ Hc]]].
  unfold field_to_array in Hc. apply rbind_ok in Hc as [fvs [Hfvs Hc]].
  assert (Hmap : is_map_field fld = false).
  { unfold is_map_field. rewrite Hmt. exact Hentry. }
  rewrite Hmap in Hc.
  assert (Hrep : Label_eqb (f_label fld) LABEL_REPEATED = false).
  { destruct (Label_eqb (f_label fld) LABEL_REPEATED) eqn:E; [|reflexivity].
    apply Label_eqb_eq in E. contradiction. }
  rewrite Hrep in Hc. apply rbind_ok in Hc as [mask [Hmask Hc]].
  unfold _proto_field_validity_mask in Hmask. rewrite Ht, Hrep in Hmask.
  cbn [FieldType_eqb negb orb] in Hmask.
  apply rbind_ok in Hmask as [mask' [Hmask Hm]]. injection Hm as <-.
  rewrite _proto_field_to_array_eq in Hc. rewrite Ht, Hmt in Hc.
  assert (Hfield : Forall2 (fun m valid => HasField (OMsg m) (f_name fld) = Ok valid)
                     records mask').
  { clear - Hmask. revert mask' Hmask.
    induction records as [|m records IH]; intros mask' H; cbn in H.
    - injection H as <-. constructor.
    - apply rbind_ok in H as [has [Hhas H]]. apply rbind_ok in H as [rest [Hrest H]].
      injection H as <-. constructor; auto. }
  destruct (d_well_known sub) as [w|] eqn:Hw.
  - apply records_to_array_inv in Hc as [values [slots [Hv [Hs [-> _]]]]].
    cbn [snd array_is_valid].
    pose proof (mask_validity (f_name fld) (_PROTO_DESCRIPTOR_TO_ARROW_CONVERTER w)
                  (_PROTO_DESCRIPTOR_TO_PYARROW w) records fvs mask' [] values slots
                  Hfvs Hmask Hv Hs) as Hall.
    split.
    + intros Hdate _. eapply Forall2_impl; [|exact Hall].
      intros m valid [has [fv [Hhas [Hfv Hrow]]]]. rewrite Hhas. f_equal.
      destruct has; [|congruence].
      destruct Hrow as [value [Hconv [_ Hvalid]]]. symmetry. apply Hvalid.
      intros ->. destruct w, fv as [| |[]| |]; try discriminate; congruence.
    + intros Hdate. injection Hdate as ->. eapply Forall2_impl; [|exact Hall].
      intros m valid [has [fv [Hhas [Hfv Hrow]]]]. exists has. split; [exact Hhas|].
      destruct has.
      * destruct Hrow as [value [Hconv Hvalid]]. rewrite Hvalid.
        destruct fv as [| |[date| | | |]| |]; try discriminate. cbn in Hconv.
        destruct (Z.eqb_spec (year date) 0) as [E|N].
        -- injection Hconv as <-. split; [congruence|].
           intros [_ [date' [Hd Hy]]]. rewrite Hfv in Hd. injection Hd as <-.
           contradiction.
        -- apply rbind_ok in Hconv as [v [_ Hconv]]. injection Hconv as <-.
           split; [|discriminate]. intros _. split; [reflexivity|]. eauto.
      * subst valid. split; [discriminate|]. intros [E _]. discriminate.
  - split; [|discriminate]. intros _ Hhollow.
    unfold hollow_struct_field in Hhollow. rewrite Hmt, Ht, Hw in Hhollow.
    cbn [FieldType_eqb is_some negb andb] in Hhollow.
    pose proof (proj1 (builder_rows sub) _ _ _ _ Hc) as [_ Hrows].
    rewrite Hhollow in Hrows.
    assert (Hlen : length fvs = length records).
    { rewrite (rmapM_length _ _ _ Hfvs). apply length_map. }
    rewrite _message_to_array_eq in Hc. apply rbind_ok in Hc as [subcols [_ Hc]].
    apply StructArray_from_arrays_inv in Hc
      as [[_ Ha]|[_ [_ [v [Ha [_ Hv]]]]]]; rewrite Ha in *; cbn [snd array_is_valid].
    + cbn [array_len length] in Hrows.
      assert (records = []) by (destruct records; [reflexivity|cbn in *; lia]).
      subst records. inversion Hfield; subst. constructor.
    + cbn [array_len] in Hrows. destruct mask' as [|b mask']; cbn [struct_validity] in Hv.
      * inversion Hfield; subst. cbn [length] in *.
        destruct v; [constructor|cbn in *; lia].
      * subst v. exact Hfield.
Qed.

Lemma Forall2_head {A B} (R : A -> B -> Prop) (x : A) (l : list A) (y : B)
    (l' : list B) :
  Forall2 R (x :: l) (y :: l') -> R x y.
Proof. intros H. inversion H; assumption. Qed.

Lemma presence_encoding_witness :
  exists batch column rest,
    messages_to_record_batch
      [MStruct [("wrapped_int32", (true, OMsg (MWrapper (PyInt 0))));
                ("int32_value", (false, OVal (PyInt 7)))];
       MStruct [("wrapped_int32", (false, OMsg (MWrapper (PyInt 0))));
                ("int32_value", (false, OVal (PyInt 8)))]]
      WithWrapper default_config = Ok batch
    /\ columns batch = column :: rest
    /\ Forall2 (fun m valid => HasField (OMsg m) "wrapped_int32" = Ok valid)
         [MStruct [("wrapped_int32", (true, OMsg (MWrapper (PyInt 0))));
                   ("int32_value", (false, OVal (PyInt 7)))];
          MStruct [("wrapped_int32", (false, OMsg (MWrapper (PyInt 0))));
                   ("int32_value", (false, OVal (PyInt 8)))]]
         (array_is_valid column).
Proof.
  eexists. eexists. eexists. split; [vm_compute; reflexivity|].
  split; [reflexivity|].
  match goal with
  | |- Forall2 _ ?records (array_is_valid ?column) =>
      assert (Hb : exists batch,
                 messages_to_record_batch records WithWrapper default_config
                 = Ok batch /\ exists rest, columns batch = column :: rest)
        by (eexists; split; [vm_compute; reflexivity|eexists; reflexivity]);
      destruct Hb as [batch [Hb [rest Hcols]]];
      pose proof (presence_encoding records WithWrapper default_config batch Hb) as H
  end.
  rewrite Hcols in H. apply Forall2_head in H.
  apply (H Int32Value_DESCRIPTOR); try reflexivity; discriminate.
Defined.

(** ** Flat message types: the round trip *)

Lemma update_assoc_keys {V} (g : string) (f : V -> Result V)
    (l l' : list (string * V)) :
  update_assoc g f l = Ok l' -> map fst l' = map fst l.
Proof.
  revert l'. induction l as [|[k x] l IH]; intros l' H; simpl in H; [discriminate|].
  destruct (String.eqb k g).
  - apply rbind_ok in H as [v' [_ H]]. injection H as <-. reflexivity.
  - apply rbind_ok in H as [l'' [Hl H]]. injection H as <-. simpl.
    rewrite (IH _ Hl). reflexivity.
Qed.

Lemma update_assoc_total {V} (g : string) (f : V -> Result V)
    (l : list (string * V)) (v v' : V) :
  assoc l g = Some v -> f v = Ok v' -> exists l', update_assoc g f l = Ok l'.
Proof.
  induction l as [|[k x] l IH]; intros Hv Hf; simpl in *; [discriminate|].
  destruct (String.eqb k g).
  - injection Hv as ->. rewrite Hf. simpl. eauto.
  - destruct (IH Hv Hf) as [l' ->]. simpl. eauto.
Qed.

(** Updating the slot of one field of a message. *)
Lemma update_slot (name : string) (F : Slot -> Result Slot)
    (fields : list (string * Slot)) (s0 s1 : Slot) :
  assoc fields name = Some s0 -> F s0 = Ok s1 ->
  exists fields',
    update_assoc name F fields = Ok fields'
    /\ map fst fields' = map fst fields
    /\ assoc fields' name = Some s1
    /\ forall other, other <> name -> assoc fields' other = assoc fields other.
Proof.
  intros Ha HF. destruct (update_assoc_total name F fields s0 s1 Ha HF) as [fields' Hu].
  exists fields'. split; [exact Hu|]. split; [eapply update_assoc_keys; eauto|].
  split.
  - destruct (update_assoc_same _ _ _ _ _ Hu Ha) as [s' [Hs Ha']]. congruence.
  - intros other Hne. eapply update_assoc_other; eauto.
Qed.

(** Decoding a row changes the slot of the field as [decode_slot] says, and
    nothing else of the message. *)
Lemma decode_row_slot (fld : FieldDescriptor) (sc : Scalar)
    (fields : list (string * Slot)) (s0 s1 : Slot) :
  assoc fields (f_name fld) = Some s0 ->
  decode_slot fld sc s0 = Ok s1 ->
  exists fields',
    decode_row fld sc (MStruct fields) = Ok (MStruct fields')
    /\ map fst fields' = map fst fields
    /\ assoc fields' (f_name fld) = Some s1
    /\ forall other, other <> f_name fld ->
                     assoc fields' other = assoc fields other.
Proof.
  intros Ha Hd. unfold decode_slot in Hd. unfold decode_row.
  assert (Hid : s1 = s0 ->
                exists fields',
                  Ok (MStruct fields) = Ok (MStruct fields')
                  /\ map fst fields' = map fst fields
                  /\ assoc fields' (f_name fld) = Some s1
                  /\ forall other, other <> f_name fld ->
                                   assoc fields' other = assoc fields other).
  { intros ->. exists fields. auto. }
  destruct (special_type fld) as [extractor|].
  - unfold special_row. destruct (is_valid sc);
      [|injection Hd as <-; auto].
    apply rbind_ok in Hd as [value [Hv Hd]]. rewrite Hv. cbn [rbind].
    cbn [modify_at].
    destruct (update_slot (f_name fld)
                (fun slot : Slot =>
                   let? v := on_msg (modify_at [] (MergeFrom value)) (snd slot) in
                   Ok (true, v)) fields s0 s1 Ha Hd)
      as [fields' [Hu Hrest]].
    exists fields'. split; [|exact Hrest].
    exact (f_equal (fun r => let? x := r in Ok (MStruct x)) Hu).
  - destruct (get_converter fld) as [converter|] eqn:Hc; [|discriminate].
    cbn [rbind] in *. unfold plain_row.
    destruct (is_valid sc); [|injection Hd as <-; auto].
    apply rbind_ok in Hd as [value [Hv Hd]]. rewrite Hv. cbn [rbind].
    destruct (nullable_type fld) as [w|].
    + assert (Hw : value <> ONone ->
                   exists fields',
                     modify_at [SField (f_name fld)] (msg_set_value w value)
                       (MStruct fields) = Ok (MStruct fields')
                     /\ map fst fields' = map fst fields
                     /\ assoc fields' (f_name fld) = Some s1
                     /\ forall other, other <> f_name fld ->
                                      assoc fields' other = assoc fields other).
      { intros Hne. cbn [modify_at].
        assert (Hd' : (let? v := on_msg (modify_at [] (msg_set_value w value))
                                   (snd s0) in Ok (true, v)) = Ok s1)
          by (destruct value; try exact Hd; contradiction).
        destruct (update_slot (f_name fld)
                    (fun slot : Slot =>
                       let? v := on_msg (modify_at [] (msg_set_value w value))
                                   (snd slot) in
                       Ok (true, v)) fields s0 s1 Ha Hd')
          as [fields' [Hu Hrest]].
        exists fields'. split; [|exact Hrest].
        exact (f_equal (fun r => let? x := r in Ok (MStruct x)) Hu). }
      destruct value; try (apply Hw; discriminate).
      injection Hd as <-. auto.
    + assert (Hw : value <> ONone ->
                   exists fields',
                     msg_setattr fld value (MStruct fields) = Ok (MStruct fields')
                     /\ map fst fields' = map fst fields
                     /\ assoc fields' (f_name fld) = Some s1
                     /\ forall other, other <> f_name fld ->
                                      assoc fields' other = assoc fields other).
      { intros Hne. unfold msg_setattr.
        assert (Hd' : match snd s0, value with
                      | OVal _, OVal v =>
                          let? v' := check_value (f_type fld) v in
                          Ok (f_has_presence fld || fst s0, OVal v')
                      | OVal _, _ => Raise TypeError
                      | _, _ => Raise AttributeError
                      end = Ok s1)
          by (destruct value; try exact Hd; contradiction).
        destruct (update_slot (f_name fld)
                    (fun slot : Slot =>
                       match snd slot, value with
                       | OVal _, OVal v =>
                           let? v' := check_value (f_type fld) v in
                           Ok (f_has_presence fld || fst slot, OVal v')
                       | OVal _, _ => Raise TypeError
                       | _, _ => Raise AttributeError
                       end) fields s0 s1 Ha Hd')
          as [fields' [Hu Hrest]].
        exists fields'. split; [|exact Hrest].
        exact (f_equal (fun r => let? x := r in Ok (MStruct x)) Hu). }
      destruct value; try (apply Hw; discriminate).
      injection Hd as <-. auto.
Qed.

Lemma zip_rows_ext (G G' : Scalar -> Msg -> Result Msg) (msgs : list Msg)
    (scalars : list Scalar) :
  (forall sc m, G sc m = G' sc m) ->
  zip_rows G msgs scalars = zip_rows G' msgs scalars.
Proof.
  intros HG. revert scalars.
  induction msgs as [|m msgs IH]; intros [|sc scalars]; try reflexivity.
  cbn [zip_rows]. rewrite HG, IH. reflexivity.
Qed.

Lemma special_body_row (fld : FieldDescriptor) (extractor : Scalar -> Result Obj)
    (i : nat) (sc : Scalar) (h : Heap) (m : Msg) :
  nth_error h i = Some m ->
  (if is_valid sc then
     do value <- mlift (extractor sc);
     heap_modify (ref_child (MkRef i []) (SField (f_name fld))) (MergeFrom value)
   else mret tt) h
  = match special_row fld extractor sc m with
    | Ok m' => Ok (tt, replace_nth i m' h)
    | Raise e => Raise e
    end.
Proof.
  intros Hm. unfold special_row.
  destruct (is_valid sc);
    [|unfold mret; rewrite (replace_nth_same _ _ _ Hm); reflexivity].
  unfold mbind, mlift. destruct (extractor sc) as [v|e]; [|reflexivity].
  cbn [rbind]. unfold ref_child. cbn [ref_root ref_path app].
  apply heap_modify_root. exact Hm.
Qed.

(** [extract_special] on the allocated messages works row by row. *)
Lemma extract_special_rows (array : Array) (fld : FieldDescriptor)
    (extractor : Scalar -> Result Obj) (n : nat) (h : Heap) :
  (n <= length h)%nat ->
  extract_special array fld (Messages (root_refs n)) extractor h
  = match zip_rows (special_row fld extractor) (firstn n h)
            (array_scalars array) with
    | Ok rows' => Ok (tt, rows' ++ skipn n h)
    | Raise e => Raise e
    end.
Proof.
  intros Hn. unfold extract_special. unfold mbind at 1. cbn [iterate mret].
  apply (rows_loop (special_row fld extractor)
           (fun mv : Ref * Scalar =>
              if is_valid (snd mv) then
                do value <- mlift (extractor (snd mv));
                heap_modify (ref_child (fst mv) (SField (f_name fld)))
                  (MergeFrom value)
              else mret tt)); [|exact Hn].
  intros i sc h0 m Hm. cbn [fst snd]. apply special_body_row. exact Hm.
Qed.

Lemma flat_field_converter (fld : FieldDescriptor) :
  flat_field fld -> special_type fld = None ->
  exists converter,
    get_converter fld = Ok converter
    /\ FieldType_eqb (f_type fld) TYPE_MESSAGE && negb (is_some (nullable_type fld))
       = false.
Proof.
  intros [_ Hflat] Hspecial. unfold get_converter, special_type, nullable_type in *.
  destruct (f_type fld); try (eexists; split; reflexivity).
  - destruct Hflat as [sub [w [Hmt [Hw _]]]]. rewrite Hmt, Hw in *.
    destruct w; try discriminate; cbn [NULLABLE_TYPES is_some];
      eexists; split; reflexivity.
  - destruct Hflat as [_ [_ [e [-> _]]]]. eexists; split; reflexivity.
Qed.

(** The column of a field of a flat type is decoded row by row into the
    allocated messages. *)
Lemma flat_extract_field (fld : FieldDescriptor) (col col' : Array) (n : nat)
    (h : Heap) :
  flat_field fld -> _prepare_array col = Ok col' -> (n <= length h)%nat ->
  _extract_field fld col (Messages (root_refs n)) h
  = match zip_rows (decode_row fld) (firstn n h) (array_scalars col') with
    | Ok rows' => Ok (tt, rows' ++ skipn n h)
    | Raise e => Raise e
    end.
Proof.
  intros Hflat Hprep Hn. rewrite _extract_field_eq.
  unfold mbind at 1. unfold mlift. rewrite Hprep.
  replace (Label_eqb (f_label fld) LABEL_REPEATED) with false
    by (destruct Hflat as [Hl _]; destruct (f_label fld); try reflexivity;
        contradiction).
  destruct (special_type fld) as [extractor|] eqn:Hspecial.
  - rewrite (extract_special_rows _ _ _ _ _ Hn).
    rewrite (zip_rows_ext (decode_row fld) (special_row fld extractor)); [reflexivity|].
    intros sc m. unfold decode_row. rewrite Hspecial. reflexivity.
  - destruct (flat_field_converter fld Hflat Hspecial) as [converter [Hc Hs]].
    rewrite Hs. rewrite (extract_plain_rows _ _ _ _ Hn). rewrite Hc.
    rewrite (zip_rows_ext (decode_row fld) (plain_row fld converter)); [reflexivity|].
    intros sc m. unfold decode_row. rewrite Hspecial, Hc. reflexivity.
Qed.

(** *** The codec of one element *)

Lemma prepare_scalars (ty : DataType) (els : list (option PyVal)) :
  (forall unit, ty = time64 unit -> unit = unit_ns \/ unit = unit_us) ->
  exists col',
    _prepare_array (PrimitiveArray ty els) = Ok col'
    /\ array_scalars col' = map (prepared_scalar ty) els.
Proof.
  intros Hty. destruct ty; try (eexists; split; reflexivity).
  destruct (Hty unit eq_refl) as [-> | ->]; eexists; (split; [reflexivity|]);
    cbn [array_scalars]; rewrite map_map; apply map_ext; intros [[]|]; reflexivity.
Qed.

Lemma scalar_codec (fld : FieldDescriptor) (ty : DataType) (v : PyVal) :
  f_message_type fld = None -> f_has_presence fld = false ->
  f_label fld <> LABEL_REPEATED ->
  f_type fld <> TYPE_ENUM ->
  _PROTO_PRIMITIVE_TYPE_TO_PYARROW (f_type fld) = Some ty ->
  arrow_accepts ty v = true ->
  decode_slot fld (prepared_scalar ty (Some v)) (default_slot fld)
  = Ok (false, OVal v).
Proof.
  destruct fld as [name t l mt et hp].
  cbn [f_message_type f_label f_type f_has_presence].
  intros -> -> Hl Ht Hty Hv.
  unfold decode_slot, special_type, nullable_type, get_converter, convert_scalar,
    as_py, is_valid, default_slot, default_value.
  cbn [f_message_type f_type f_label f_has_presence rbind fst snd orb].
  destruct t; try discriminate; try contradiction; injection Hty as <-;
    destruct l; try contradiction;
    destruct v; try discriminate;
    cbn [rbind fst snd check_value check_int arrow_accepts sc_value sc_type
           prepared_scalar orb] in *;
    try rewrite Hv; reflexivity.
Qed.

Lemma enum_converter_cases (ty : DataType) (e : EnumDescriptor)
    (conv : Obj -> Result Obj) :
  get_enum_converter ty e = Ok conv -> ty <> int32 ->
  exists wrap : string -> PyVal,
    (wrap = PyBytes \/ wrap = PyStr)
    /\ (forall x, conv x
                  = match x with
                    | OVal (PyInt n) =>
                        match values_by_number (enum_values e) n with
                        | Some name => Ok (OVal (wrap name))
                        | None => Raise KeyError
                        end
                    | _ => Raise KeyError
                    end)
    /\ (forall unit, ty <> time64 unit)
    /\ (forall unit tz, ty <> timestamp unit tz).
Proof.
  intros H Hne. unfold get_enum_converter in H.
  destruct ty as [| | | | | | | | | | | |index_type value_type| | |];
    try discriminate; try contradiction.
  - injection H as <-. exists PyBytes. repeat split; auto; discriminate.
  - injection H as <-. exists PyStr. repeat split; auto; discriminate.
  - destruct index_type; try discriminate.
    destruct value_type; try discriminate; injection H as <-;
      [exists PyBytes|exists PyStr]; repeat split; auto; discriminate.
Qed.

Lemma enum_codec (fld : FieldDescriptor) (e : EnumDescriptor) (ty : DataType)
    (conv : Obj -> Result Obj) (n : Z) (value : Obj) (el : option PyVal) :
  f_type fld = TYPE_ENUM -> f_message_type fld = None ->
  f_has_presence fld = false ->
  f_label fld <> LABEL_REPEATED -> f_enum_type fld = Some e ->
  NoDup (map fst (enum_values e)) -> ty <> int32 ->
  get_enum_converter ty e = Ok conv ->
  conv (OVal (PyInt n)) = Ok value -> pa_element ty value = Ok el ->
  - 2 ^ 31 <= n < 2 ^ 31 ->
  decode_slot fld (prepared_scalar ty el) (default_slot fld)
  = Ok (false, OVal (PyInt n)).
Proof.
  intros Ht Hmt Hp Hl He Hnd Hne Hc Hv Hel Hn.
  destruct (enum_converter_cases ty e conv Hc Hne)
    as [wrap [Hwrap [Hconv [Htime Hstamp]]]].
  rewrite Hconv in Hv.
  destruct (values_by_number (enum_values e) n) as [name|] eqn:Hname;
    [|discriminate].
  injection Hv as <-. cbn [pa_element] in Hel.
  destruct (arrow_accepts ty (wrap name)); [|discriminate]. injection Hel as <-.
  assert (Hsc : prepared_scalar ty (Some (wrap name)) = MkScalar ty (Some (wrap name))).
  { destruct ty; try reflexivity. exfalso. eapply Htime. reflexivity. }
  rewrite Hsc.
  assert (Hpy : as_py (MkScalar ty (Some (wrap name))) = OVal (wrap name)).
  { unfold as_py. cbn [sc_value sc_type]. destruct ty; try reflexivity.
    exfalso. eapply Hstamp. reflexivity. }
  unfold decode_slot, special_type, nullable_type, get_converter.
  rewrite Hmt, Ht, He. cbn [rbind is_valid sc_value].
  unfold convert_enum. rewrite Hpy.
  assert (Hlook : match wrap name with
                  | PyStr name0 | PyBytes name0 =>
                      match values_by_name (enum_values e) name0 with
                      | Some number => Ok (OVal (PyInt number))
                      | None => Ok ONone
                      end
                  | _ => Ok ONone
                  end = Ok (OVal (PyInt n))).
  { destruct Hwrap as [-> | ->];
      rewrite (values_by_number_name _ _ _ Hnd Hname); reflexivity. }
  rewrite Hlook. cbn [rbind].
  destruct fld as [nm t l mt et hp].
  cbn [f_type f_label f_message_type f_enum_type f_has_presence] in *.
  subst t mt et hp. unfold default_slot.
  assert (Hd : exists v0, default_value TYPE_ENUM l (Some e) = OVal v0).
  { unfold default_value. destruct l; try contradiction;
      destruct e as [[|[? ?] ?]]; eauto. }
  destruct Hd as [v0 Hd]. rewrite Hd.
  cbn [snd fst f_type f_has_presence check_value check_int orb].
  rewrite (in_range_true _ _ _ Hn). reflexivity.
Qed.

Lemma merge_scalar_zero (x : Z) : merge_scalar x 0 = x.
Proof. unfold merge_scalar. destruct (Z.eqb_spec x 0); congruence. Qed.

Lemma wrap64_small (z : Z) : - 2 ^ 63 <= z < 2 ^ 63 -> wrap64 z = z.
Proof. intros H. unfold wrap64. rewrite Z.mod_small; lia. Qed.

Lemma FromNanoseconds_ToNanoseconds (t : Timestamp) :
  0 <= ts_nanos t < 1000000000 -> FromNanoseconds (ToNanoseconds t) = t.
Proof.
  intros H. destruct t as [s n]. unfold FromNanoseconds, ToNanoseconds.
  cbn [ts_seconds ts_nanos] in *.
  destruct (div_mul_add s 1000000000 n H) as [-> ->]. reflexivity.
Qed.

(** The decoder of TimeOfDay undoes the encoder whatever the hours, as long
    as minutes, seconds and nanos are in range. *)
Lemma time_of_day_scalar_inverse (t : TimeOfDay) :
  0 <= minutes t < 60 -> 0 <= seconds t < 60 -> 0 <= nanos t < 1000000000 ->
  _time_of_day_scalar_to_proto (_time_of_day_to_nanos t) = t.
Proof.
  intros Hm Hs Hn. destruct t as [h m s n]. cbn [minutes seconds nanos] in *.
  unfold _time_of_day_scalar_to_proto, _time_of_day_to_nanos.
  cbn [hours minutes seconds nanos].
  set (T := ((h * 60 + m) * 60 + s) * 1000000000 + n).
  destruct (div_mul_add ((h * 60 + m) * 60 + s) 1000000000 n Hn) as [Hq Hr].
  fold T in Hq, Hr.
  assert (Hmin : T / 60000000000 = h * 60 + m).
  { replace T with ((h * 60 + m) * 60000000000 + (s * 1000000000 + n))
      by (unfold T; ring).
    apply (div_mul_add (h * 60 + m) 60000000000 (s * 1000000000 + n)). lia. }
  assert (Hhour : T / 3600000000000 = h).
  { replace T with (h * 3600000000000 + (m * 60000000000 + s * 1000000000 + n))
      by (unfold T; ring).
    apply (div_mul_add h 3600000000000 (m * 60000000000 + s * 1000000000 + n)).
    lia. }
  rewrite Hr, Hq, Hmin, Hhour.
  destruct (div_mul_add (h * 60 + m) 60 s Hs) as [_ ->].
  destruct (div_mul_add h 60 m Hm) as [_ ->]. reflexivity.
Qed.

Lemma default_slot_message (fld : FieldDescriptor) (sub : Descriptor) :
  f_type fld = TYPE_MESSAGE -> f_label fld <> LABEL_REPEATED ->
  f_message_type fld = Some sub ->
  default_slot fld = (false, OMsg (default_msg sub)).
Proof.
  destruct fld as [nm t l mt et hp]. cbn [f_type f_label f_message_type].
  intros -> Hl ->. cbn [default_slot]. destruct l; try reflexivity. contradiction.
Qed.

Lemma default_msg_well_known (sub : Descriptor) (w : WellKnown) :
  d_well_known sub = Some w -> default_msg sub = default_well_known w.
Proof. destruct sub as [n wk m fs]. cbn [d_well_known]. intros ->. reflexivity. Qed.

Lemma wk_codec (fld : FieldDescriptor) (sub : Descriptor) (w : WellKnown)
    (m : Msg) (value : Obj) (el : option PyVal) :
  f_type fld = TYPE_MESSAGE -> f_label fld <> LABEL_REPEATED ->
  f_message_type fld = Some sub -> d_well_known sub = Some w ->
  temporal_ok m ->
  _PROTO_DESCRIPTOR_TO_ARROW_CONVERTER w (OMsg m) = Ok value ->
  pa_element (_PROTO_DESCRIPTOR_TO_PYARROW w) value = Ok el ->
  decode_slot fld (prepared_scalar (_PROTO_DESCRIPTOR_TO_PYARROW w) el)
    (default_slot fld)
  = Ok (true, OMsg m).
Proof.
  intros Ht Hl Hmt Hw Hok Hv Hel.
  rewrite (default_slot_message fld sub Ht Hl Hmt).
  rewrite (default_msg_well_known sub w Hw).
  unfold decode_slot, get_converter, special_type, nullable_type.
  rewrite Hmt, Hw, Ht.
  destruct w; destruct m as [date|t|t|v|fs]; try discriminate;
    cbn [_PROTO_DESCRIPTOR_TO_ARROW_CONVERTER] in Hv.
  4-12: injection Hv as <-; cbn [pa_element _PROTO_DESCRIPTOR_TO_PYARROW] in Hel;
    destruct (arrow_accepts _ v) eqn:Ha; [|discriminate]; injection Hel as <-;
    destruct v; try discriminate; cbn [arrow_accepts] in Ha;
    cbn [_PROTO_DESCRIPTOR_TO_PYARROW prepared_scalar SPECIAL_TYPES NULLABLE_TYPES
           is_some is_valid sc_value sc_type rbind convert_scalar as_py
           default_well_known snd on_msg msg_set_value wrapper_value_type
           check_value check_int];
    try rewrite Ha; reflexivity.
  - (* Date *)
    cbn [temporal_ok] in Hok.
    destruct (Z.eqb_spec (year date) 0) as [E|_]; [contradiction|].
    apply rbind_ok in Hv as [v [Hd Hv]]. injection Hv as <-.
    unfold datetime_date in Hd. destruct (_ && _); [|discriminate].
    injection Hd as <-. cbn in Hel. injection Hel as <-.
    cbn. rewrite !merge_scalar_zero. destruct date; reflexivity.
  - (* Timestamp *)
    injection Hv as <-. cbn [pa_element _PROTO_DESCRIPTOR_TO_PYARROW] in Hel.
    destruct (arrow_accepts _ _); [|discriminate]. injection Hel as <-.
    cbn [temporal_ok] in Hok.
    cbn [_PROTO_DESCRIPTOR_TO_PYARROW _PA_TIMESTAMP_TYPE prepared_scalar
           SPECIAL_TYPES is_valid sc_value].
    unfold _PA_TIMESTAMP_TYPE. cbn [prepared_scalar is_valid sc_value].
    unfold timestamp_scalar_to_proto. cbn [sc_type sc_value rbind].
    unfold _timestamp_scalar_to_proto. cbn [_TIMESTAMP_CONVERTER].
    rewrite Z.mul_1_r, (FromNanoseconds_ToNanoseconds t Hok).
    cbn [default_well_known snd on_msg MergeFrom ts_seconds ts_nanos rbind].
    rewrite !merge_scalar_zero. destruct t; reflexivity.
  - (* TimeOfDay *)
    injection Hv as <-. cbn [pa_element _PROTO_DESCRIPTOR_TO_PYARROW] in Hel.
    unfold _PA_TIME_TYPE in Hel. cbn [arrow_accepts] in Hel.
    destruct (in_range _ _ _) eqn:Hr; [|discriminate]. injection Hel as <-.
    apply in_range_iff in Hr.
    cbn [temporal_ok] in Hok. destruct Hok as [Hh [Hm [Hs Hn]]].
    cbn [_PROTO_DESCRIPTOR_TO_PYARROW]. unfold _PA_TIME_TYPE.
    cbn [prepared_scalar _TIME_CONVERTER SPECIAL_TYPES is_valid sc_value].
    rewrite Z.mul_1_r, (wrap64_small _ Hr).
    unfold time_of_day_scalar_to_proto, as_py. cbn [sc_value sc_type].
    rewrite (time_of_day_scalar_inverse t Hm Hs Hn).
    rewrite (in_range_true _ _ _ Hh).
    cbn [rbind default_well_known snd on_msg MergeFrom hours minutes seconds nanos].
    rewrite !merge_scalar_zero. destruct t; reflexivity.
Qed.

(** *** The column of one field, row by row *)

Lemma rmapM_nth {A B} (f : A -> Result B) (l : list A) (l' : list B) (i : nat)
    (x : A) :
  rmapM f l = Ok l' -> nth_error l i = Some x ->
  exists y, nth_error l' i = Some y /\ f x = Ok y.
Proof.
  intros H. apply rmapM_Forall2 in H. revert i.
  induction H as [|a b l l' Hab _ IH]; intros [|i] Hx; try discriminate.
  - injection Hx as <-. exists b. auto.
  - apply IH. exact Hx.
Qed.

Lemma convert_records_nth (conv : Obj -> Result Obj) (null : Obj)
    (mask : option (list bool)) (fvs : list Obj) :
  forall (k : nat) (values : list Obj) (i : nat) (fv : Obj),
    convert_records k fvs mask conv null = Ok values ->
    nth_error fvs i = Some fv ->
    exists value,
      nth_error values i = Some value
      /\ match fv with
         | ONone => Ok null
         | _ =>
             match mask with
             | None => conv fv
             | Some mask =>
                 match nth_error mask (k + i) with
                 | None => Raise IndexError
                 | Some true => conv fv
                 | Some false => Ok null
                 end
             end
         end = Ok value.
Proof.
  induction fvs as [|fv0 fvs IH]; intros k values i fv H Hfv;
    [destruct i; discriminate|].
  cbn [convert_records] in H.
  apply rbind_ok in H as [value [Hvalue H]].
  apply rbind_ok in H as [values' [Hvalues H]]. injection H as <-.
  destruct i as [|i].
  - cbn [nth_error] in Hfv. injection Hfv as <-. exists value.
    split; [reflexivity|]. rewrite Nat.add_0_r. exact Hvalue.
  - cbn [nth_error] in Hfv |- *.
    destruct (IH (S k) values' i fv Hvalues Hfv) as [value' [Hn Hv]].
    exists value'. split; [exact Hn|].
    rewrite Nat.add_succ_r. exact Hv.
Qed.

(** The rows of a column built by [records_to_array], as the decoder sees
    them. *)
Lemma primitive_column_rows (name : string) (records fvs : list Obj)
    (mask : option (list bool)) (conv : Obj -> Result Obj) (null : Obj)
    (ty : DataType) (col : Array) :
  NestedIterable records name = Ok fvs ->
  records_to_array fvs mask conv null ty = Ok col ->
  (forall unit, ty = time64 unit -> unit = unit_ns \/ unit = unit_us) ->
  exists col',
    _prepare_array col = Ok col'
    /\ length (array_scalars col') = length records
    /\ forall i r,
         nth_error records i = Some r ->
         exists fv value el,
           getattr r name = Ok fv
           /\ match fv with
              | ONone => Ok null
              | _ =>
                  match mask with
                  | None => conv fv
                  | Some mask =>
                      match nth_error mask i with
                      | None => Raise IndexError
                      | Some true => conv fv
                      | Some false => Ok null
                      end
                  end
              end = Ok value
           /\ pa_element ty value = Ok el
           /\ nth_error (array_scalars col') i = Some (prepared_scalar ty el).
Proof.
  intros Hfvs H Hty. unfold NestedIterable in Hfvs.
  apply records_to_array_inv in H as [values [els [Hv [Hs [-> Hlen]]]]].
  destruct (prepare_scalars ty els Hty) as [col' [Hprep Hscalars]].
  exists col'. split; [exact Hprep|]. rewrite Hscalars, length_map. split.
  - rewrite Hlen. eapply rmapM_length; eauto.
  - intros i r Hr.
    destruct (rmapM_nth _ _ _ _ _ Hfvs Hr) as [fv [Hfv Hget]].
    destruct (convert_records_nth _ _ _ _ _ _ _ _ Hv Hfv) as [value [Hvalue Hrow]].
    destruct (rmapM_nth _ _ _ _ _ Hs Hvalue) as [el [Hel Hpa]].
    exists fv, value, el. repeat split; auto.
    rewrite nth_error_map, Hel. reflexivity.
Qed.

Lemma getattr_slot (fields : list (string * Slot)) (name : string) (s : Slot)
    (fv : Obj) :
  assoc fields name = Some s -> getattr (OMsg (MStruct fields)) name = Ok fv ->
  fv = snd s.
Proof.
  intros Ha H. cbn [getattr] in H.
  assert (E : @assoc (bool * Obj) fields name = Some s) by exact Ha.
  rewrite E in H. destruct s as [b v]. injection H as <-. reflexivity.
Qed.

Lemma HasField_slot (fields : list (string * Slot)) (name : string) (s : Slot)
    (has : bool) :
  assoc fields name = Some s -> HasField (OMsg (MStruct fields)) name = Ok has ->
  has = fst s.
Proof.
  intros Ha H. cbn [HasField] in H.
  assert (E : @assoc (bool * Obj) fields name = Some s) by exact Ha.
  rewrite E in H. destruct s as [b v]. destruct v; try discriminate.
  injection H as <-. reflexivity.
Qed.

(** The column built for a field of a flat type, decoded row by row, turns
    the default of the field into what the message of the row held. *)
Lemma flat_column (fld : FieldDescriptor) (config : ProtarrowConfig)
    (ms : list Msg) (col : Array) :
  flat_field fld -> enum_type config <> int32 ->
  field_to_array fld (map OMsg ms) config = Ok col ->
  exists col',
    _prepare_array col = Ok col'
    /\ length (array_scalars col') = length ms
    /\ forall i fields s,
         nth_error ms i = Some (MStruct fields) ->
         assoc fields (f_name fld) = Some s -> flat_slot fld s ->
         exists sc, nth_error (array_scalars col') i = Some sc
                    /\ decode_slot fld sc (default_slot fld) = Ok s.
Proof.
  intros Hflat Hcfg H. pose proof Hflat as [Hl Hkind].
  unfold field_to_array in H. apply rbind_ok in H as [fvs [Hfvs H]].
  assert (Hmap : is_map_field fld = false).
  { unfold is_map_field. destruct (f_type fld);
      try (rewrite (proj1 Hkind); reflexivity).
    destruct Hkind as [sub [w [-> [_ ->]]]]. reflexivity. }
  rewrite Hmap in H.
  replace (Label_eqb (f_label fld) LABEL_REPEATED) with false in H
    by (destruct (f_label fld); try reflexivity; contradiction).
  apply rbind_ok in H as [mask [Hmask H]].
  rewrite _proto_field_to_array_eq in H.
  unfold _proto_field_validity_mask in Hmask.
  replace (Label_eqb (f_label fld) LABEL_REPEATED) with false in Hmask
    by (destruct (f_label fld); try reflexivity; contradiction).
  rewrite orb_false_r in Hmask.
  assert (Hrows : forall conv null ty,
            records_to_array fvs mask conv null ty = Ok col ->
            (forall unit, ty = time64 unit -> unit = unit_ns \/ unit = unit_us) ->
            (forall i fields s value el,
                nth_error ms i = Some (MStruct fields) ->
                assoc fields (f_name fld) = Some s -> flat_slot fld s ->
                match snd s with
                | ONone => Ok null
                | _ =>
                    match mask with
                    | None => conv (snd s)
                    | Some mask =>
                        match nth_error mask i with
                        | None => Raise IndexError
                        | Some true => conv (snd s)
                        | Some false => Ok null
                        end
                    end
                end = Ok value ->
                pa_element ty value = Ok el ->
                decode_slot fld (prepared_scalar ty el) (default_slot fld) = Ok s) ->
            exists col',
              _prepare_array col = Ok col'
              /\ length (array_scalars col') = length ms
              /\ forall i fields s,
                  nth_error ms i = Some (MStruct fields) ->
                  assoc fields (f_name fld) = Some s -> flat_slot fld s ->
                  exists sc, nth_error (array_scalars col') i = Some sc
                             /\ decode_slot fld sc (default_slot fld) = Ok s).
  { intros conv null ty Hcol Hty Hcodec.
    destruct (primitive_column_rows _ _ _ _ _ _ _ _ Hfvs Hcol Hty)
      as [col' [Hprep [Hlen Hrow]]].
    exists col'. split; [exact Hprep|]. rewrite length_map in Hlen.
    split; [exact Hlen|].
    intros i fields s Hm Ha Hs.
    destruct (Hrow i (OMsg (MStruct fields))) as [fv [value [el [Hg [Hv [Hel Hsc]]]]]].
    { rewrite nth_error_map, Hm. reflexivity. }
    rewrite (getattr_slot _ _ _ _ Ha Hg) in Hv.
    eexists. split; [exact Hsc|]. eapply Hcodec; eauto. }
  assert (Hprim : f_type fld <> TYPE_MESSAGE -> f_type fld <> TYPE_ENUM ->
                  f_message_type fld = None -> f_has_presence fld = false ->
                  (forall s, flat_slot fld s -> exists v, s = (false, OVal v)) ->
                  forall ty, _PROTO_PRIMITIVE_TYPE_TO_PYARROW (f_type fld) = Some ty ->
                  (forall unit, ty <> time64 unit) ->
                  mask = None ->
                  records_to_array fvs mask (fun x => Ok x)
                    (default_value (f_type fld) (f_label fld) (f_enum_type fld)) ty
                  = Ok col ->
                  exists col',
                    _prepare_array col = Ok col'
                    /\ length (array_scalars col') = length ms
                    /\ forall i fields s,
                        nth_error ms i = Some (MStruct fields) ->
                        assoc fields (f_name fld) = Some s -> flat_slot fld s ->
                        exists sc, nth_error (array_scalars col') i = Some sc
                                   /\ decode_slot fld sc (default_slot fld) = Ok s).
  { intros Hnm Hne Hmt Hp Hslot ty Hty Htime -> Hcol.
    apply (Hrows _ _ _ Hcol).
    - intros unit E. exfalso. eapply Htime. exact E.
    - intros i fields s value el _ _ Hs Hv Hel.
      destruct (Hslot s Hs) as [v ->]. cbn [snd] in Hv. injection Hv as <-.
      cbn [pa_element] in Hel.
      destruct (arrow_accepts ty v) eqn:Hacc; [|discriminate]. injection Hel as <-.
      apply scalar_codec; assumption. }
  destruct (f_type fld) eqn:Ht;
    try (cbn [FieldType_eqb negb] in Hmask; injection Hmask as <-;
         cbn [_PROTO_PRIMITIVE_TYPE_TO_PYARROW] in H;
         eapply Hprim;
         [discriminate | discriminate | exact (proj1 Hkind)
         | exact (proj2 Hkind)
         | intros s Hs; unfold flat_slot in Hs; rewrite Ht in Hs; exact Hs
         | reflexivity | discriminate | reflexivity | exact H]).
  - discriminate.
  - (* message *)
    destruct Hkind as [sub [w [Hmt [Hw Hentry]]]]. rewrite Hmt, Hw in H.
    cbn [FieldType_eqb negb] in Hmask.
    apply rbind_ok in Hmask as [mask' [Hmask Hm]]. injection Hm as <-.
    apply (Hrows _ _ _ H).
    + intros unit E. destruct w; try discriminate. injection E as <-. auto.
    + intros i fields s value el Hm Ha Hs Hv Hel.
      unfold flat_slot in Hs. rewrite Ht, Hmt in Hs.
      destruct Hs as [m0 [Hsnd Hpresent]]. rewrite Hsnd in Hv.
      destruct (rmapM_nth _ _ _ i (OMsg (MStruct fields)) Hmask) as [has [Hn Hhas]].
      { rewrite nth_error_map, Hm. reflexivity. }
      rewrite Hn in Hv. rewrite (HasField_slot _ _ _ _ Ha Hhas) in Hv.
      destruct s as [b v]. cbn [fst snd] in *. subst v. destruct b.
      * eapply wk_codec; eauto.
      * injection Hv as <-. cbn [pa_element] in Hel. injection Hel as <-.
        subst m0. rewrite (default_slot_message fld sub Ht Hl Hmt).
        unfold decode_slot.
        assert (Hinvalid : is_valid (prepared_scalar (_PROTO_DESCRIPTOR_TO_PYARROW w) None)
                           = false) by (destruct w; reflexivity).
        rewrite Hinvalid.
        destruct (special_type fld) eqn:Hsp; [reflexivity|].
        destruct (flat_field_converter fld Hflat Hsp) as [converter [-> _]].
        reflexivity.
  - (* enum *)
    destruct Hkind as [Hmt [Hp [e [He Hnd]]]]. rewrite He in H.
    cbn [FieldType_eqb negb] in Hmask. injection Hmask as <-.
    apply rbind_ok in H as [conv [Hconv H]].
    destruct (enum_converter_cases _ _ _ Hconv Hcfg) as [_ [_ [_ [Htime _]]]].
    apply (Hrows _ _ _ H).
    + intros unit E. exfalso. eapply Htime. exact E.
    + intros i fields s value el _ _ Hs Hv Hel.
      unfold flat_slot in Hs. rewrite Ht in Hs. destruct Hs as [n [-> Hn]].
      cbn [snd] in Hv. eapply enum_codec; eauto.
Qed.

(** *** All the columns *)

Lemma zip_rows_post (G : Scalar -> Msg -> Result Msg) (Q : nat -> Msg -> Prop)
    (msgs : list Msg) :
  forall (scalars : list Scalar) (k : nat),
    (forall i m, nth_error msgs i = Some m ->
                 exists sc m', nth_error scalars i = Some sc
                               /\ G sc m = Ok m' /\ Q (k + i)%nat m') ->
    exists msgs',
      zip_rows G msgs scalars = Ok msgs'
      /\ length msgs' = length msgs
      /\ forall i m', nth_error msgs' i = Some m' -> Q (k + i)%nat m'.
Proof.
  induction msgs as [|m msgs IH]; intros scalars k Hrow.
  - exists []. split; [reflexivity|]. split; [reflexivity|].
    intros [|i] m' H; discriminate.
  - destruct (Hrow O m eq_refl) as [sc [m' [Hsc [HG HQ]]]].
    destruct scalars as [|sc0 scalars]; [discriminate|].
    cbn [nth_error] in Hsc. injection Hsc as ->.
    destruct (IH scalars (S k)) as [msgs' [Hz [Hlen Hall]]].
    { intros i m0 Hm0. destruct (Hrow (S i) m0 Hm0) as [sc' [m0' [H1 [H2 H3]]]].
      exists sc', m0'. rewrite Nat.add_succ_r in H3. auto. }
    exists (m' :: msgs'). cbn [zip_rows]. rewrite HG, Hz. cbn [rbind].
    split; [reflexivity|]. split; [cbn [length]; congruence|].
    intros [|i] m0 Hm0; cbn [nth_error] in Hm0.
    + injection Hm0 as <-. exact HQ.
    + rewrite Nat.add_succ_r. apply (Hall i m0 Hm0).
Qed.

Lemma assoc_ext {V} (l l' : list (string * V)) :
  NoDup (map fst l) -> map fst l = map fst l' ->
  (forall k, In k (map fst l) -> assoc l k = assoc l' k) ->
  l = l'.
Proof.
  revert l'. induction l as [|[k v] l IH]; intros [|[k' v'] l'] Hnd Hk Ha;
    try discriminate; [reflexivity|].
  cbn [map fst] in Hk. injection Hk as <- Hk.
  cbn [map fst] in Hnd. inversion Hnd as [|? ? Hnot Hnd']; subst.
  pose proof (Ha k (or_introl eq_refl)) as H0. cbn [assoc] in H0.
  rewrite String.eqb_refl in H0. injection H0 as <-. f_equal.
  apply IH; [exact Hnd'|exact Hk|].
  intros k0 Hin. specialize (Ha k0 (or_intror Hin)). cbn [assoc] in Ha.
  destruct (String.eqb_spec k k0) as [E|N]; [|exact Ha].
  subst k0. contradiction.
Qed.

Lemma flat_message_slots (d : Descriptor) (m : Msg) :
  NoDup (map f_name (d_fields d)) -> flat_message d m ->
  exists F,
    m = MStruct F
    /\ map fst F = map f_name (d_fields d)
    /\ forall f, In f (d_fields d) ->
                 exists s, assoc F (f_name f) = Some s /\ flat_slot f s.
Proof.
  intros Hnd [F [-> HF]]. exists F. split; [reflexivity|].
  induction HF as [|fld [k s] fs F [Hk Hs] _ IH]; [split; [reflexivity|intros ? []]|].
  cbn [fst snd] in Hk, Hs. subst k.
  cbn [map] in Hnd. inversion Hnd as [|? ? Hnot Hnd']; subst.
  destruct (IH Hnd') as [Hkeys Hslots]. split; [cbn [map fst]; congruence|].
  intros f [->|Hin]; cbn [assoc].
  - rewrite String.eqb_refl. eauto.
  - destruct (String.eqb_spec (f_name fld) (f_name f)) as [E|N].
    + exfalso. apply Hnot. rewrite E. apply in_map. exact Hin.
    + apply Hslots. exact Hin.
Qed.

Lemma column_lookup (records : list Obj) (config : ProtarrowConfig)
    (fs : list FieldDescriptor) (cols : list (Field * Array))
    (fld : FieldDescriptor) :
  Forall2 (fun f c => field_to_column records config f = Ok c) fs cols ->
  NoDup (map f_name fs) -> In fld fs ->
  exists i col,
    get_field_index (map fst cols) (f_name fld) = Some i
    /\ nth_error (map snd cols) i = Some col
    /\ field_to_array fld records config = Ok col.
Proof.
  induction 1 as [|f c fs cs Hc _ IH]; intros Hnd Hin; [contradiction|].
  cbn [map] in Hnd. inversion Hnd as [|? ? Hnot Hnd']; subst.
  apply field_to_column_field in Hc as [Hname [_ [_ Hc]]].
  cbn [map get_field_index]. rewrite Hname.
  destruct Hin as [->|Hin].
  - rewrite String.eqb_refl. exists O, (snd c). auto.
  - destruct (String.eqb_spec (f_name f) (f_name fld)) as [E|N].
    + exfalso. apply Hnot. rewrite E. apply in_map. exact Hin.
    + destruct (IH Hnd' Hin) as [i [col [Hi [Hn Ha]]]].
      exists (S i), col. rewrite Hi. auto.
Qed.

Lemma flat_field_not_hollow (f : FieldDescriptor) :
  flat_field f -> hollow_field f = false.
Proof.
  intros [_ Hkind]. rewrite hollow_field_eq.
  destruct (f_type f); try (rewrite (proj1 Hkind); reflexivity).
  destruct Hkind as [sub [w [-> [-> _]]]]. cbn [is_some negb].
  rewrite andb_false_r. reflexivity.
Qed.

Lemma flat_num_rows (d : Descriptor) (config : ProtarrowConfig) (ms : list Msg)
    (rb : RecordBatch) :
  d_fields d <> [] -> Forall flat_field (d_fields d) ->
  messages_to_record_batch ms d config = Ok rb ->
  num_rows rb = length ms.
Proof.
  intros Hne Hflat H. unfold messages_to_record_batch in H.
  apply rbind_ok in H as [a [Ha H]].
  pose proof (proj1 (builder_rows d) _ _ _ _ Ha) as [_ Hrows].
  assert (Hh : hollow d = false).
  { rewrite hollow_fields. destruct (d_fields d) as [|f fs]; [contradiction|].
    inversion Hflat; subst. cbn [forallb].
    rewrite flat_field_not_hollow by assumption. reflexivity. }
  rewrite Hh, length_map in Hrows.
  destruct a; try discriminate. injection H as <-. exact Hrows.
Qed.

(** Decoding the column of one field of a flat type. *)
Lemma flat_step (rb : RecordBatch) (config : ProtarrowConfig) (ms h : list Msg)
    (names : list string) (fld : FieldDescriptor) (col : Array)
    (done todo : list FieldDescriptor) :
  flat_field fld -> enum_type config <> int32 ->
  record_batch_column rb (f_name fld) = Ok col ->
  field_to_array fld (map OMsg ms) config = Ok col ->
  num_rows rb = length ms ->
  (forall i m, nth_error ms i = Some m ->
               exists F s, m = MStruct F /\ assoc F (f_name fld) = Some s
                           /\ flat_slot fld s) ->
  (forall f, In f done -> f_name f <> f_name fld) ->
  (forall f, In f todo -> f_name f <> f_name fld) ->
  decoded_upto done (fld :: todo) names ms h ->
  exists h',
    extract_column rb (Messages (root_refs (num_rows rb))) fld h = Ok (tt, h')
    /\ decoded_upto (done ++ [fld]) todo names ms h'.
Proof.
  intros Hflat Hcfg Hcol Harr Hn Hms Hdone Htodo [Hlen Hinv].
  rewrite (extract_column_found rb _ fld col Hcol).
  destruct (flat_column fld config ms col Hflat Hcfg Harr)
    as [col' [Hprep [Hscalars Hcodec]]].
  rewrite (flat_extract_field fld col col' _ h Hflat Hprep) by lia.
  rewrite Hn, <- Hlen, firstn_all, skipn_all.
  destruct (zip_rows_post (decode_row fld)
              (fun i m' =>
                 forall F, nth_error ms i = Some (MStruct F) ->
                           exists fields,
                             m' = MStruct fields
                             /\ map fst fields = names
                             /\ (forall f, In f (done ++ [fld]) ->
                                           assoc fields (f_name f)
                                           = assoc F (f_name f))
                             /\ (forall f, In f todo ->
                                           assoc fields (f_name f)
                                           = Some (default_slot f)))
              h (array_scalars col') O)
    as [msgs' [Hz [Hlen' Hall]]].
  - intros i m Hm. cbn [Nat.add].
    assert (Hi : (i < length ms)%nat).
    { rewrite <- Hlen. apply nth_error_Some. congruence. }
    destruct (nth_error ms i) as [mi|] eqn:Hmi;
      [|apply nth_error_None in Hmi; lia].
    destruct (Hms i mi Hmi) as [F [s [-> [Ha Hs]]]].
    destruct (Hinv i F Hmi) as [fields [Hh [Hkeys [Hd Ht]]]].
    rewrite Hh in Hm. injection Hm as <-.
    destruct (Hcodec i F s Hmi Ha Hs) as [sc [Hsc Hdec]].
    destruct (decode_row_slot fld sc fields (default_slot fld) s
                (Ht fld (or_introl eq_refl)) Hdec)
      as [fields' [Hrow [Hkeys' [Hnew Hother]]]].
    exists sc, (MStruct fields'). split; [exact Hsc|]. split; [exact Hrow|].
    intros F' HF'. injection HF' as <-.
    exists fields'. split; [reflexivity|].
    split; [etransitivity; [exact Hkeys'|exact Hkeys]|]. split.
    + intros f Hin. apply in_app_or in Hin as [Hin|[<-|[]]].
      * rewrite Hother by (apply Hdone; exact Hin). apply Hd. exact Hin.
      * transitivity (Some s); [exact Hnew|]. symmetry. exact Ha.
    + intros f Hin. rewrite Hother by (apply Htodo; exact Hin).
      apply Ht. right. exact Hin.
  - rewrite Hz. exists (msgs' ++ []). split; [reflexivity|].
    rewrite app_nil_r. split; [congruence|].
    intros i F HF.
    assert (Hi : (i < length msgs')%nat).
    { rewrite Hlen', Hlen. apply nth_error_Some. congruence. }
    destruct (nth_error msgs' i) as [m'|] eqn:Hm';
      [|apply nth_error_None in Hm'; lia].
    destruct (Hall i m' Hm' F HF) as [fields [-> Hrest]].
    exists fields. split; [reflexivity|exact Hrest].
Qed.

Lemma flat_loop (rb : RecordBatch) (config : ProtarrowConfig) (ms : list Msg)
    (names : list string) (todo : list FieldDescriptor) :
  enum_type config <> int32 -> num_rows rb = length ms ->
  forall (done : list FieldDescriptor) (h : list Msg),
    NoDup (map f_name (done ++ todo)) ->
    Forall (fun fld =>
              flat_field fld
              /\ (exists col, record_batch_column rb (f_name fld) = Ok col
                              /\ field_to_array fld (map OMsg ms) config = Ok col)
              /\ forall i m, nth_error ms i = Some m ->
                             exists F s, m = MStruct F
                                         /\ assoc F (f_name fld) = Some s
                                         /\ flat_slot fld s) todo ->
    decoded_upto done todo names ms h ->
    exists h',
      mfor todo (extract_column rb (Messages (root_refs (num_rows rb)))) h
      = Ok (tt, h')
      /\ decoded_upto (done ++ todo) [] names ms h'.
Proof.
  intros Hcfg Hn. induction todo as [|fld todo IH]; intros done h Hnd Hall Hinv.
  - exists h. rewrite app_nil_r. split; [reflexivity|exact Hinv].
  - inversion Hall as [|? ? [Hflat [[col [Hcol Harr]] Hms]] Hrest]; subst.
    rewrite map_app in Hnd. cbn [map] in Hnd.
    pose proof (NoDup_remove_2 _ _ _ Hnd) as Hnot.
    destruct (flat_step rb config ms h names fld col done todo Hflat Hcfg Hcol
                Harr Hn Hms) as [h1 [H1 Hinv1]].
    + intros f Hin E. apply Hnot. apply in_or_app. left. rewrite <- E.
      apply in_map. exact Hin.
    + intros f Hin E. apply Hnot. apply in_or_app. right. rewrite <- E.
      apply in_map. exact Hin.
    + exact Hinv.
    + destruct (IH (done ++ [fld]) h1) as [h' [H' Hinv']].
      * rewrite <- app_assoc. cbn [app]. rewrite map_app. exact Hnd.
      * exact Hrest.
      * exact Hinv1.
      * exists h'. cbn [mfor]. unfold mbind. rewrite H1.
        rewrite <- app_assoc in Hinv'. split; [exact H'|exact Hinv'].
Qed.

Lemma record_batch_to_messages_eq (rb : RecordBatch) (d : Descriptor) :
  record_batch_to_messages rb d
  = match mfor (d_fields d)
            (extract_column rb (Messages (root_refs (num_rows rb))))
            (repeat (default_msg d) (num_rows rb)) with
    | Ok (_, h) => Ok (firstn (num_rows rb) h)
    | Raise e => Raise e
    end.
Proof. reflexivity. Qed.

(** X18.  Round trip for flat message types.  Take a message type whose
    fields are all singular and are scalars or enums without presence (so
    neither proto2 or [optional] scalars nor members of a oneof) or
    well-known messages (wrappers, Timestamp, TimeOfDay, Date), with distinct
    field names and at least one field, and an enum representation other than
    int32.  Whenever
    [messages_to_record_batch] returns a record batch for messages of that
    type, [record_batch_to_messages] returns normally on that batch, and it
    returns the very same messages: values and presence are both kept. *)
Theorem flat_round_trip (d : Descriptor) (config : ProtarrowConfig)
    (ms : list Msg) (rb : RecordBatch) :
  d_well_known d = None -> d_fields d <> [] ->
  NoDup (map f_name (d_fields d)) ->
  Forall flat_field (d_fields d) ->
  enum_type config <> int32 ->
  Forall (flat_message d) ms ->
  messages_to_record_batch ms d config = Ok rb ->
  record_batch_to_messages rb d = Ok ms.
Proof.
  intros Hwk Hne Hnd Hflat Hcfg Hms H.
  pose proof (flat_num_rows d config ms rb Hne Hflat H) as Hn.
  destruct (messages_to_record_batch_inv _ _ _ _ H)
    as [cols [Hcols [Hschema [Hcolumns _]]]].
  apply rmapM_Forall2 in Hcols.
  assert (Hslots : forall i m,
             nth_error ms i = Some m ->
             exists F, m = MStruct F
                       /\ map fst F = map f_name (d_fields d)
                       /\ forall f, In f (d_fields d) ->
                                    exists s, assoc F (f_name f) = Some s
                                              /\ flat_slot f s).
  { intros i m Hm. apply flat_message_slots; [exact Hnd|].
    rewrite Forall_forall in Hms. apply Hms. eapply nth_error_In; eauto. }
  assert (Hall : Forall (fun fld =>
              flat_field fld
              /\ (exists col, record_batch_column rb (f_name fld) = Ok col
                              /\ field_to_array fld (map OMsg ms) config = Ok col)
              /\ forall i m, nth_error ms i = Some m ->
                             exists F s, m = MStruct F
                                         /\ assoc F (f_name fld) = Some s
                                         /\ flat_slot fld s) (d_fields d)).
  { apply Forall_forall. intros fld Hin. split.
    - rewrite Forall_forall in Hflat. apply Hflat. exact Hin.
    - split.
      + destruct (column_lookup _ _ _ _ fld Hcols Hnd Hin) as [i [col [Hi [Hc Ha]]]].
        exists col. split; [|exact Ha].
        unfold record_batch_column. rewrite Hschema, Hi, Hcolumns, Hc. reflexivity.
      + intros i m Hm. destruct (Hslots i m Hm) as [F [-> [_ HF]]].
        destruct (HF fld Hin) as [s [Ha Hs]]. exists F, s. auto. }
  assert (Hinit : decoded_upto [] (d_fields d) (map f_name (d_fields d)) ms
                    (repeat (default_msg d) (num_rows rb))).
  { split; [rewrite repeat_length; exact Hn|].
    intros i F HF.
    exists (map (fun f => (f_name f, default_slot f)) (d_fields d)).
    split.
    - rewrite <- (default_msg_fields d Hwk).
      rewrite (nth_error_nth' _ (default_msg d)).
      + rewrite nth_repeat. reflexivity.
      + rewrite repeat_length, Hn. apply nth_error_Some. congruence.
    - split; [rewrite map_map; reflexivity|]. split; [intros f []|].
      intros f Hin. apply assoc_default_slots; assumption. }
  destruct (flat_loop rb config ms (map f_name (d_fields d)) (d_fields d) Hcfg Hn
              [] _ Hnd Hall Hinit) as [h' [Hloop [Hlen Hfinal]]].
  rewrite record_batch_to_messages_eq, Hloop. f_equal.
  rewrite Hn, <- Hlen, firstn_all.
  apply nth_error_ext. intros i.
  destruct (nth_error ms i) as [m|] eqn:Hm.
  - destruct (Hslots i m Hm) as [F [-> [Hkeys HF]]].
    destruct (Hfinal i F Hm) as [fields [Hh [Hkeys' [Hdone _]]]].
    rewrite Hh. do 2 f_equal.
    apply assoc_ext.
    + rewrite Hkeys'. exact Hnd.
    + rewrite Hkeys'. symmetry. exact Hkeys.
    + intros k Hk. rewrite Hkeys' in Hk. apply in_map_iff in Hk as [f [<- Hin]].
      apply Hdone. exact Hin.
  - apply nth_error_None. rewrite Hlen. apply nth_error_None. exact Hm.
Qed.

Lemma flat_round_trip_witness :
  exists rb,
    messages_to_record_batch readings Reading default_config = Ok rb
    /\ record_batch_to_messages rb Reading = Ok readings.
Proof.
  eexists. split; [vm_compute; reflexivity|].
  apply (flat_round_trip Reading default_config readings).
  - reflexivity.
  - discriminate.
  - repeat constructor; cbn; intuition discriminate.
  - repeat constructor; cbn; try discriminate.
    + exists Color. split; [reflexivity|].
      repeat constructor; cbn; intuition discriminate.
    + exists Int32Value_DESCRIPTOR, WK_Int32Value. repeat split.
    + exists Timestamp_DESCRIPTOR, WK_Timestamp. repeat split.
  - discriminate.
  - repeat constructor; (eexists; split; [reflexivity|]);
      repeat constructor; cbn; eauto;
      try (eexists; split; [reflexivity|cbn; lia]);
      try (eexists; split; [reflexivity|cbn; try lia; reflexivity]).
  - vm_compute. reflexivity.
Defined.

(** ** Repeated wrapper columns *)

Lemma as_py_not_message (scalar : Scalar) (m : Msg) : as_py scalar <> OMsg m.
Proof.
  unfold as_py. destruct (sc_value scalar); [|discriminate].
  destruct (sc_type scalar); discriminate.
Qed.

(** X19.  The column of a repeated wrapper field (repeated Int32Value and
    the like) cannot be decoded once it holds an element:
    [_extract_repeated_primitive_assigner] converts each element with
    [convert_scalar] and appends the Python value to the repeated message
    field, which only takes messages.  So the call returns normally only if
    it consumed no element at all; with one element or more it raises. *)
Theorem repeated_wrapper_not_decoded (array : Array) (fld : FieldDescriptor)
    (w : WellKnown) (messages : MsgIter) (h h' : Heap) (u : unit) :
  f_type fld = TYPE_MESSAGE -> nullable_type fld = Some w ->
  _extract_repeated_primitive_assigner array fld messages h = Ok (u, h') ->
  exists offsets values values' refs h1 targets,
    array_offsets array = Ok offsets
    /\ array_values array = Ok values
    /\ _prepare_array values = Ok values'
    /\ iterate messages h = Ok (refs, h1)
    /\ assigner_targets refs offsets = Ok targets
    /\ combine targets (array_scalars values') = [].
Proof.
  intros Ht Hw H. unfold _extract_repeated_primitive_assigner in H.
  apply mbind_ok in H as [offsets [h0 [Ho H]]]. apply mlift_ok in Ho as [Ho ->].
  apply mbind_ok in H as [converter [h0 [Hc H]]]. apply mlift_ok in Hc as [Hc ->].
  apply mbind_ok in H as [values [h0 [Hv H]]]. apply mlift_ok in Hv as [Hv ->].
  apply mbind_ok in H as [values' [h0 [Hp H]]]. apply mlift_ok in Hp as [Hp ->].
  apply mbind_ok in H as [refs [h1 [Hi H]]].
  apply mbind_ok in H as [targets [h2 [Htg H]]]. apply mlift_ok in Htg as [Htg ->].
  exists offsets, values, values', refs, h1, targets. repeat split; auto.
  unfold get_converter in Hc. rewrite Ht, Hw in Hc. cbn [is_some] in Hc.
  injection Hc as <-.
  apply mfor_ok_each in H.
  destruct (combine targets (array_scalars values')) as [|[t sc] rest];
    [reflexivity|exfalso].
  apply Forall_inv in H. destruct H as [ha [hb Hb]]. cbn [fst snd] in Hb.
  apply mbind_ok in Hb as [value [hc [Hval Hb]]]. apply mlift_ok in Hval as [Hval ->].
  unfold convert_scalar in Hval. injection Hval as <-.
  apply heap_modify_ok in Hb as [m [m' [_ [Hb _]]]].
  apply modify_at_applied in Hb as [m0 [m0' Hb]].
  unfold msg_append in Hb. destruct m0 as [| | | |fields]; try discriminate.
  apply rbind_ok in Hb as [fields' [Hb _]].
  apply update_assoc_applied in Hb as [sl [sl' Hb]].
  unfold nullable_type in Hw.
  destruct (f_message_type fld) as [d|]; [|discriminate].
  destruct (snd sl); try discriminate.
  pose proof (as_py_not_message sc) as Hne.
  destruct (as_py sc); try discriminate. exfalso. eapply Hne. reflexivity.
Qed.

Lemma repeated_wrapper_not_decoded_witness :
  exists targets,
    assigner_targets [MkRef 0 []] [0; 0] = Ok targets
    /\ combine targets (array_scalars (PrimitiveArray int32 [])) = [].
Proof.
  destruct (repeated_wrapper_not_decoded
              (ListArray (list_ (field "item" int32 true)) [0; 0] [true]
                 (PrimitiveArray int32 []))
              (MkFieldDescriptor "levels" TYPE_MESSAGE LABEL_REPEATED
                 (Some Int32Value_DESCRIPTOR) None false)
              WK_Int32Value (Messages [MkRef 0 []])
              [MStruct [("levels", (false, OList []))]]
              [MStruct [("levels", (false, OList []))]] tt)
    as [offsets [values [values' [refs [h1 [targets
         [Ho [Hv [Hp [Hi [Ht Hnil]]]]]]]]]]].
  - reflexivity.
  - reflexivity.
  - vm_compute. reflexivity.
  - injection Ho as <-. injection Hv as <-. injection Hp as <-.
    injection Hi as <- <-. exists targets. auto.
Defined.

(** Scenario: one message with one wrapped element; the batch is built, and
    decoding it raises [TypeError]. *)
Lemma repeated_wrapper_raises :
  let d := MkDescriptor "Levels" None false
             [MkFieldDescriptor "levels" TYPE_MESSAGE LABEL_REPEATED
                (Some Int32Value_DESCRIPTOR) None false] in
  exists rb,
    messages_to_record_batch
      [MStruct [("levels", (false, OList [OMsg (MWrapper (PyInt 5))]))]]
      d default_config = Ok rb
    /\ record_batch_to_messages rb d = Raise TypeError.
Proof.
  eexists. split; [vm_compute; reflexivity|]. vm_compute. reflexivity.
Qed.

(** ** Singular enum and wrapper columns, row by row *)



(** The last branch of [_extract_field] on the allocated messages. *)
Lemma plain_extract_field (fld : FieldDescriptor) (col col' : Array) (n : nat)
    (h : Heap) :
  f_label fld <> LABEL_REPEATED -> special_type fld = None ->
  FieldType_eqb (f_type fld) TYPE_MESSAGE && negb (is_some (nullable_type fld))
  = false ->
  _prepare_array col = Ok col' -> (n <= length h)%nat ->
  _extract_field fld col (Messages (root_refs n)) h
  = match get_converter fld with
    | Ok converter =>
        match zip_rows (plain_row fld converter) (firstn n h)
                (array_scalars col') with
        | Ok rows' => Ok (tt, rows' ++ skipn n h)
        | Raise e => Raise e
        end
    | Raise e => Raise e
    end.
Proof.
  intros Hlabel Hspecial Hstruct Hprep Hn. rewrite _extract_field_eq.
  unfold mbind at 1. unfold mlift. rewrite Hprep.
  replace (Label_eqb (f_label fld) LABEL_REPEATED) with false
    by (destruct (f_label fld); try reflexivity; contradiction).
  rewrite Hspecial, Hstruct. apply extract_plain_rows. exact Hn.
Qed.





(** X15.  Decoding the column of a singular wrapper field (Int32Value and
    the like) into messages that have the field: when [_extract_field]
    returns, a row whose element is null, or that the column does not reach,
    has left the field as it was, so that [HasField] is still false on a new
    message; a row with a value has made the field present, with a value that,
    for a wrapper of an integer, a bool, a string or bytes, is the element as
    the type check of the field returns it. *)
Theorem wrapper_decoding (fld : FieldDescriptor) (w : WellKnown)
    (col col' : Array) (n : nat) (h h' : Heap) :
  f_type fld = TYPE_MESSAGE -> f_label fld <> LABEL_REPEATED ->
  nullable_type fld = Some w ->
  _prepare_array col = Ok col' -> (n <= length h)%nat ->
  _extract_field fld col (Messages (root_refs n)) h = Ok (tt, h') ->
  forall i has x,
    (i < n)%nat -> slot h i (f_name fld) = Some (has, OMsg x) ->
    match nth_error (array_scalars col') i with
    | Some sc =>
        if is_valid sc then
          exists v v',
            as_py sc = OVal v
            /\ slot h' i (f_name fld) = Some (true, OMsg (MWrapper v'))
            /\ (wrapper_value_type w <> TYPE_FLOAT ->
                wrapper_value_type w <> TYPE_DOUBLE ->
                check_value (wrapper_value_type w) v = Ok v')
        else slot h' i (f_name fld) = Some (has, OMsg x)
    | None => slot h' i (f_name fld) = Some (has, OMsg x)
    end.
Proof.
  intros Htype Hlabel Hnull Hprep Hn H i has x Hi Hs.
  destruct (nullable_type_inv fld w Hnull)
    as [d0 [Hmt [Hwk0 [Hnb [Hspecial _]]]]].
  assert (Hstruct : FieldType_eqb (f_type fld) TYPE_MESSAGE
                    && negb (is_some (nullable_type fld)) = false)
    by (rewrite Hnull; apply andb_false_r).
  rewrite (plain_extract_field fld col col' n h Hlabel Hspecial Hstruct Hprep Hn)
    in H.
  unfold get_converter in H. rewrite Htype, Hnull in H. cbn [is_some] in H.
  destruct (zip_rows _ _ _) as [rows'|] eqn:Hz; [|discriminate].
  injection H as <-.
  apply slot_nth in Hs as [fields [Hm Hf]].
  assert (Hm' : nth_error (firstn n h) i = Some (MStruct fields)).
  { rewrite nth_error_firstn. destruct (Nat.ltb_spec i n); [exact Hm|lia]. }
  destruct (zip_rows_nth _ _ _ _ _ _ Hz Hm') as [m' [Hr Hg]].
  rewrite (slot_app_l rows' (skipn n h) i (f_name fld) m' Hr).
  destruct (nth_error (array_scalars col') i) as [sc|]; [|subst m'; exact Hf].
  unfold plain_row in Hg. destruct (is_valid sc) eqn:Hv;
    [|injection Hg as <-; exact Hf].
  unfold convert_scalar in Hg. cbn [rbind] in Hg.
  assert (Hpy : exists v, as_py sc = OVal v).
  { unfold as_py, is_valid in *. destruct (sc_value sc); [|discriminate].
    destruct (sc_type sc); eauto. }
  destruct Hpy as [v Hpy]. rewrite Hpy, Hnull in Hg.
  cbn [modify_at] in Hg.
  apply rbind_ok in Hg as [fields' [Hu Hg]]. injection Hg as <-.
  destruct (update_assoc_same _ _ _ _ _ Hu Hf) as [s' [Hs Ha]].
  cbn [snd on_msg] in Hs. apply rbind_ok in Hs as [o [Ho Hs]].
  injection Hs as <-. apply rbind_ok in Ho as [m1 [Hset Ho]]. injection Ho as <-.
  unfold msg_set_value in Hset. destruct x as [| | |v0|]; try discriminate.
  apply rbind_ok in Hset as [v' [Hcv Hset]]. injection Hset as <-.
  exists v, v'. split; [exact Hpy|]. split; [exact Ha|].
  intros _ _. exact Hcv.
Qed.

Lemma wrapper_decoding_witness :
  slot [MStruct [("wrapped_int32", (true, OMsg (MWrapper (PyInt 7))));
                 ("int32_value", (false, OVal (PyInt 0)))];
        MStruct [("wrapped_int32", (false, OMsg (MWrapper (PyInt 0))));
                 ("int32_value", (false, OVal (PyInt 0)))]] 1 "wrapped_int32"
  = Some (false, OMsg (MWrapper (PyInt 0))).
Proof.
  apply (wrapper_decoding (message_field "wrapped_int32" Int32Value_DESCRIPTOR)
           WK_Int32Value
           (PrimitiveArray int32 [Some (PyInt 7); None])
           (PrimitiveArray int32 [Some (PyInt 7); None]) 2
           (repeat (default_msg WithWrapper) 2)
           [MStruct [("wrapped_int32", (true, OMsg (MWrapper (PyInt 7))));
                     ("int32_value", (false, OVal (PyInt 0)))];
            MStruct [("wrapped_int32", (false, OMsg (MWrapper (PyInt 0))));
                     ("int32_value", (false, OVal (PyInt 0)))]]
           eq_refl ltac:(discriminate) eq_refl eq_refl
           ltac:(rewrite repeat_length; lia) ltac:(vm_compute; reflexivity)
           1%nat false (MWrapper (PyInt 0)) ltac:(lia) eq_refl).
Defined.

(** ** Enums stored as numbers *)

(** X11.  With [enum_type = int32] the information of a singular enum field
    does not survive the round trip.  The encoder stores the numbers
    themselves in an int32 column; the decoder looks enum values up by name
    only and finds nothing for an integer, so that, whenever
    [record_batch_to_messages] returns on the batch that
    [messages_to_record_batch] built, the field is at its default in every
    decoded message, whatever it was in the message encoded. *)
Theorem enum_int32_column_lost (ms ms' : list Msg) (d : Descriptor)
    (config : ProtarrowConfig) (rb : RecordBatch) (fld : FieldDescriptor)
    (e : EnumDescriptor) :
  d_well_known d = None -> NoDup (map f_name (d_fields d)) ->
  In fld (d_fields d) ->
  f_type fld = TYPE_ENUM -> f_label fld <> LABEL_REPEATED ->
  f_message_type fld = None -> f_enum_type fld = Some e ->
  enum_type config = int32 ->
  messages_to_record_batch ms d config = Ok rb ->
  record_batch_to_messages rb d = Ok ms' ->
  (exists els,
      record_batch_column rb (f_name fld) = Ok (PrimitiveArray int32 els)
      /\ forall j m number,
           nth_error ms j = Some m ->
           getattr (OMsg m) (f_name fld) = Ok (OVal (PyInt number)) ->
           nth_error els j = Some (Some (PyInt number)))
  /\ forall i, (i < length ms')%nat ->
               slot ms' i (f_name fld) = Some (default_slot fld).
Proof.
  intros Hwk Hnd Hin Htype Hlabel Hmt Het Hcfg Hbuild Hdecode.
  destruct (messages_to_record_batch_inv _ _ _ _ Hbuild)
    as [cols [Hcols [Hschema [Hcolumns _]]]].
  apply rmapM_Forall2 in Hcols.
  destruct (column_lookup _ _ _ _ fld Hcols Hnd Hin) as [k [col [Hk [Hc Ha]]]].
  assert (Hcol : record_batch_column rb (f_name fld) = Ok col).
  { unfold record_batch_column. rewrite Hschema, Hk, Hcolumns, Hc. reflexivity. }
  unfold field_to_array in Ha. apply rbind_ok in Ha as [fvs [Hfvs Ha]].
  replace (is_map_field fld) with false in Ha
    by (unfold is_map_field; rewrite Hmt; reflexivity).
  replace (Label_eqb (f_label fld) LABEL_REPEATED) with false in Ha
    by (destruct (f_label fld); try reflexivity; contradiction).
  unfold _proto_field_validity_mask in Ha. rewrite Htype in Ha.
  cbn [FieldType_eqb negb orb rbind] in Ha.
  rewrite _proto_field_to_array_eq, Htype, Het, Hcfg in Ha.
  cbn [get_enum_converter rbind] in Ha.
  destruct (primitive_column_rows _ _ _ _ _ _ _ _ Hfvs Ha)
    as [col' [Hprep [_ Hrows]]]; [discriminate|].
  apply records_to_array_inv in Ha as [values [els [_ [Hels [-> _]]]]].
  cbn [_prepare_array] in Hprep. injection Hprep as <-.
  cbn [array_scalars] in Hrows.
  assert (Hint : Forall (fun el => el = None \/ exists z, el = Some (PyInt z)) els).
  { apply rmapM_Forall2 in Hels. clear - Hels.
    induction Hels as [|value el values els Hel _ IH]; constructor; [|exact IH].
    unfold pa_element in Hel. destruct value as [|v| | |]; try discriminate.
    - injection Hel as <-. auto.
    - destruct (arrow_accepts int32 v) eqn:Hacc; [|discriminate].
      injection Hel as <-. right. destruct v; try discriminate. eauto. }
  split.
  - exists els. split; [exact Hcol|].
    intros j m number Hm Hget.
    destruct (Hrows j (OMsg m)) as [fv [value [el [Hg [Hv [Hel Hsc]]]]]].
    { rewrite nth_error_map, Hm. reflexivity. }
    rewrite Hget in Hg. injection Hg as <-. injection Hv as <-.
    unfold pa_element in Hel.
    destruct (arrow_accepts int32 (PyInt number)); [|discriminate].
    injection Hel as <-. cbn [prepared_scalar] in Hsc.
    rewrite nth_error_map in Hsc.
    destruct (nth_error els j) as [el|]; [|discriminate].
    injection Hsc as ->. reflexivity.
  - intros i Hi. rewrite (record_batch_to_messages_length _ _ _ Hdecode) in Hi.
    destruct (column_in_isolation rb d ms' fld Hwk Hnd Hin Hdecode)
      as [h [h' [Ln [Sa [Hb Sc]]]]].
    rewrite (extract_column_found rb _ fld _ Hcol) in Hb.
    assert (Hspecial : special_type fld = None)
      by (unfold special_type; rewrite Hmt; reflexivity).
    assert (Hstruct : FieldType_eqb (f_type fld) TYPE_MESSAGE
                      && negb (is_some (nullable_type fld)) = false)
      by (rewrite Htype; reflexivity).
    destruct (plain_column_rows fld (PrimitiveArray int32 els)
                (PrimitiveArray int32 els) _ h h' i _ Hlabel Hspecial Hstruct
                eq_refl Ln Hi (Sa i Hi) Hb)
      as [converter [fields [m' [Hconv [Hm [Hf [Hs' Hrow]]]]]]].
    rewrite Sc by exact Hi. rewrite Hs'.
    unfold get_converter in Hconv. rewrite Htype, Het in Hconv.
    injection Hconv as <-. cbn [array_scalars] in Hrow.
    rewrite nth_error_map in Hrow.
    destruct (nth_error els i) as [el|] eqn:Hel; cbn [option_map] in Hrow;
      [|subst m'; exact Hf].
    rewrite Forall_forall in Hint.
    unfold plain_row in Hrow.
    destruct (Hint el (nth_error_In _ _ Hel)) as [->|[z ->]];
      cbn in Hrow; injection Hrow as <-; exact Hf.
Qed.

Lemma enum_int32_column_lost_witness :
  exists rb ms',
    messages_to_record_batch
      [MStruct [("color", (false, OVal (PyInt 1))); ("colors", (false, OList []))]]
      WithEnum config_int32 = Ok rb
    /\ record_batch_column rb "color" = Ok (PrimitiveArray int32 [Some (PyInt 1)])
    /\ record_batch_to_messages rb WithEnum = Ok ms'
    /\ slot ms' 0 "color" = Some (false, OVal (PyInt 0)).
Proof.
  eexists. eexists. split; [vm_compute; reflexivity|].
  match goal with
  | |- record_batch_column ?batch _ = _ /\ _ => pose (rb := batch)
  end.
  split; [reflexivity|]. split; [vm_compute; reflexivity|].
  match goal with
  | |- slot ?decoded _ _ = _ =>
      apply (enum_int32_column_lost
               [MStruct [("color", (false, OVal (PyInt 1)));
                         ("colors", (false, OList []))]]
               decoded WithEnum config_int32 rb
               (enum_field "color" LABEL_OPTIONAL Color) Color)
  end; try reflexivity; try discriminate.
  - repeat constructor; cbn; intuition discriminate.
  - left. reflexivity.
  - cbn. lia.
Defined.

(** ** Timestamp columns *)




